(** * pnger: SVG to PNG converter -- dimension resolution, option checks,
      background normalisation and the conversion pipeline

    A shallow embedding of [src/utils.ts] and [src/converter.ts].

    - A JavaScript [number] is an IEEE 754 binary64 value: the embedding uses
      the executable specification [spec_float] of the standard library with
      [prec = 53] and [emax = 1024], so products, quotients and comparisons
      round, overflow and propagate [NaN] as they do in the program.
    - A JavaScript string is a list of UTF-16 code units.
    - [throw] and [try]/[catch] are an outcome type ([Returned] / [Threw]);
      the pipeline of [converter.ts] threads the state of the outside world
      (file system, browser) through a small state-and-exception monad. *)

From Stdlib Require Import ZArith Reals Lra String Ascii Bool List Lia SpecFloat.
Import ListNotations.

(* ================================================================== *)
(** ** JavaScript numbers *)
(* ================================================================== *)

Module Number.

Definition prec : Z := 53.
Definition emax : Z := 1024.

(** The type [number]. *)
Definition number : Type := spec_float.

Definition NaN : number := S754_nan.
Definition Infinity : number := S754_infinity false.

(** The integer literal [z] (exact below [2^53], rounded above). *)
Definition ofZ (z : Z) : number := binary_normalize prec emax z 0 false.

(** [m * 2^e], rounded to binary64. *)
Definition dyadic (m e : Z) : number := binary_normalize prec emax m e false.

Definition zero : number := S754_zero false.
Definition one : number := Eval vm_compute in ofZ 1.
Definition hundred : number := Eval vm_compute in ofZ 100.

(** Arithmetic operators [*], [/], [-]. *)
Definition mul (x y : number) : number := SFmul prec emax x y.
Definition div (x y : number) : number := SFdiv prec emax x y.
Definition sub (x y : number) : number := SFsub prec emax x y.

(** Relational operators; every comparison with [NaN] is [false]. *)
Definition lt (x y : number) : bool := SFltb x y.
Definition le (x y : number) : bool := SFleb x y.
Definition gt (x y : number) : bool := SFltb y x.

(** [ToBoolean] on a number: [+0], [-0] and [NaN] are falsy. *)
Definition ToBoolean (x : number) : bool :=
  match x with
  | S754_zero _ | S754_nan => false
  | _ => true
  end.

(** [Number.isFinite]. *)
Definition isFinite (x : number) : bool :=
  match x with
  | S754_zero _ | S754_finite _ _ _ => true
  | _ => false
  end.

(** [Math.round]: the integer nearest to [x], a tie going towards
    [+Infinity]; [NaN], the infinities and the zeros are returned as they
    are, and a value in [[-0.5, 0)] gives [-0].  For [x = +-m * 2^e] with
    [e < 0] the result is [floor ((+-m + 2^(-e-1)) / 2^(-e))]. *)
Definition round (x : number) : number :=
  match x with
  | S754_finite s m e =>
      if (0 <=? e)%Z then x
      else
        let n := Z.shiftr (cond_Zopp s (Zpos m) + 2 ^ (- e - 1)) (- e) in
        match n with
        | Z0 => S754_zero s
        | _ => ofZ n
        end
  | _ => x
  end.

(** A well-formed binary64 value. *)
Definition wf (x : number) : bool := valid_binary prec emax x.

(** "Positive finite": a well-formed finite value above zero. *)
Definition positive_finite (x : number) : bool :=
  match x with
  | S754_finite false m e => bounded prec emax m e
  | _ => false
  end.

(** An integer-valued finite number. *)
Definition is_integer (x : number) : bool :=
  match x with
  | S754_zero _ => true
  | S754_finite _ m e =>
      (0 <=? e)%Z || (Zpos m mod 2 ^ (- e) =? 0)%Z
  | _ => false
  end.

End Number.

Import Number.

(* ================================================================== *)
(** ** JavaScript strings, regular expressions and [parseFloat] *)
(* ================================================================== *)

Module JSString.

(** A string is a sequence of UTF-16 code units. *)
Definition jsstring : Type := list N.

(** An ASCII literal of the source. *)
Definition lit (s : string) : jsstring :=
  List.map N_of_ascii (list_ascii_of_string s).

Definition jsstring_eqb (a b : jsstring) : bool :=
  if list_eq_dec N.eq_dec a b then true else false.

Definition is_digit (c : N) : bool := ((48 <=? c) && (c <=? 57))%N.
Definition is_lower (c : N) : bool := ((97 <=? c) && (c <=? 122))%N.
Definition is_upper (c : N) : bool := ((65 <=? c) && (c <=? 90))%N.

(** White space and line terminators: the characters of [\s], which are
    also the ones [parseFloat] skips at the start of its argument. *)
Definition is_space (c : N) : bool :=
  ((9 <=? c) && (c <=? 13) || (c =? 32) || (c =? 160) || (c =? 5760)
   || (8192 <=? c) && (c <=? 8202) || (c =? 8232) || (c =? 8233)
   || (c =? 8239) || (c =? 8287) || (c =? 12288) || (c =? 65279))%N.

(** The other spelling of a letter under the [i] flag.  A pattern of this
    program names ASCII characters only, and canonicalisation never maps a
    character outside ASCII to one inside, so only ASCII letters fold. *)
Definition swapcase (c : N) : N :=
  if is_lower c then (c - 32)%N else if is_upper c then (c + 32)%N else c.

Definition toLowerCase1 (c : N) : N := if is_upper c then (c + 32)%N else c.

(** *** Patterns *)

Inductive item : Type :=
| IChar (c : N)            (* a character *)
| IRange (lo hi : N)       (* lo-hi *)
| ISpace                   (* \s *)
| IDigit.                  (* \d *)

(** [[...]] and [[^...]]. *)
Record charclass : Type := mkClass { negated : bool; items : list item }.

Inductive regex : Type :=
| Empty
| Char (c : N)
| Class (cc : charclass)
| Seq (r1 r2 : regex)
| Alt (r1 r2 : regex)                          (* r1|r2 *)
| Opt (r : regex)                              (* r? *)
| Rep (min : nat) (max : option nat) (cc : charclass)
                                               (* greedy cc{min,max}; + is {1,} *)
| Group (n : nat) (r : regex)                  (* n-th capturing parentheses *)
| Bol                                          (* ^ *)
| Eol.                                         (* $ *)

Definition Seqs (rs : list regex) : regex := fold_right Seq Empty rs.
Fixpoint Alts (r : regex) (rs : list regex) : regex :=
  match rs with
  | [] => r
  | r' :: rs' => Alt r (Alts r' rs')
  end.
Definition Lit (s : string) : regex := Seqs (List.map Char (lit s)).
Definition Plus (cc : charclass) : regex := Rep 1 None cc.

Definition capture_list : Type := list (nat * jsstring).

Definition capture (n : nat) (c : capture_list) : option jsstring :=
  option_map snd (find (fun p => Nat.eqb (fst p) n) c).

Section Matcher.
(** The [i] flag, and the whole subject string (for [^]). *)
Variable ignoreCase : bool.
Variable input : jsstring.

Definition same_char (a c : N) : bool :=
  (a =? c)%N || (ignoreCase && (a =? swapcase c)%N).

Definition in_range (lo hi c : N) : bool := ((lo <=? c) && (c <=? hi))%N.

Definition item_has (i : item) (c : N) : bool :=
  match i with
  | IChar a => same_char a c
  | IRange lo hi =>
      in_range lo hi c || (ignoreCase && in_range lo hi (swapcase c))
  | ISpace => is_space c
  | IDigit => is_digit c
  end.

Definition class_has (cc : charclass) (c : N) : bool :=
  xorb (negated cc) (existsb (fun i => item_has i c) (items cc)).

Section Backtracking.
Variable R : Type.

(** Greedy repetition of a character class ([min <= max]): take one
    more character when allowed and, if the rest then fails, give it
    back; stopping is allowed once [min] characters are taken. *)
Fixpoint rep (cc : charclass) (min : nat) (max : option nat) (s : jsstring)
  (k : jsstring -> option R) {struct s} : option R :=
  let stop := match min with O => k s | S _ => None end in
  match max with
  | Some O => stop
  | _ =>
      match s with
      | c :: s' =>
          if class_has cc c then
            match rep cc (pred min) (option_map pred max) s' k with
            | Some res => Some res
            | None => stop
            end
          else stop
      | [] => stop
      end
  end.

(** The backtracking matcher, in continuation-passing style: [k] is
    the rest of the pattern, alternatives are tried left to right. *)
Fixpoint run (r : regex) (s : jsstring) (caps : capture_list)
  (k : jsstring -> capture_list -> option R) {struct r} : option R :=
  match r with
  | Empty => k s caps
  | Char a =>
      match s with
      | c :: s' => if same_char a c then k s' caps else None
      | [] => None
      end
  | Class cc =>
      match s with
      | c :: s' => if class_has cc c then k s' caps else None
      | [] => None
      end
  | Seq r1 r2 => run r1 s caps (fun s1 c1 => run r2 s1 c1 k)
  | Alt r1 r2 =>
      match run r1 s caps k with
      | Some res => Some res
      | None => run r2 s caps k
      end
  | Opt r1 =>
      (* an iteration that consumes nothing is rejected *)
      match run r1 s caps
              (fun s1 c1 =>
                 if Nat.eqb (length s1) (length s) then None else k s1 c1) with
      | Some res => Some res
      | None => k s caps
      end
  | Rep min max cc => rep cc min max s (fun s1 => k s1 caps)
  | Group n r1 =>
      run r1 s caps
        (fun s1 c1 => k s1 ((n, firstn (length s - length s1) s) :: c1))
  | Bol => if Nat.eqb (length s) (length input) then k s caps else None
  | Eol => match s with [] => k s caps | _ :: _ => None end
  end.
End Backtracking.

Arguments rep {R} cc min max s k.
Arguments run {R} r s caps k.

(** A match attempt at the position whose suffix is [s]: the remaining
    suffix and the captures. *)
Definition match_at (r : regex) (s : jsstring) : option (jsstring * capture_list) :=
  run r s [] (fun s1 c1 => Some (s1, c1)).

Record match_result : Type := mkMatch {
  index : nat;                (* where the match starts *)
  matched : jsstring;         (* element 0 *)
  groups : capture_list;      (* elements 1, 2, ... *)
  after : jsstring            (* the subject after the match *)
}.

(** Leftmost match, from position [i] whose suffix is [s]. *)
Fixpoint search (r : regex) (i : nat) (s : jsstring) : option match_result :=
  match match_at r s with
  | Some (s1, c1) =>
      Some (mkMatch i (firstn (length s - length s1) s) c1 s1)
  | None =>
      match s with
      | [] => None
      | _ :: s' => search r (S i) s'
      end
  end.

(** The piece list of [split]: [piece] is the current piece, reversed,
    and [skip] counts the separator characters still to pass over. *)
Fixpoint split_go (r : regex) (s piece : jsstring) (skip : nat) : list jsstring :=
  match skip with
  | S n =>
      match s with
      | _ :: s' => split_go r s' piece n
      | [] => [rev piece]
      end
  | O =>
      match s with
      | [] => [rev piece]
      | c :: s' =>
          match match_at r s with
          | Some (s1, _) =>
              match (length s - length s1)%nat with
              | O =>
                  match piece with
                  | [] => split_go r s' [c] 0
                  | _ :: _ => rev piece :: split_go r s' [c] 0
                  end
              | S n => rev piece :: split_go r s' [] n
              end
          | None => split_go r s' (c :: piece) 0
          end
      end
  end.
End Matcher.

Arguments rep ignoreCase {R} cc min max s k.
Arguments run ignoreCase input {R} r s caps k.

(** A regular expression literal [/r/] or [/r/i]. *)
Record RegExp : Type := mkRegExp { source : regex; flag_i : bool }.

(** [re.exec(s)], which is also [s.match(re)] ([re] has no [g] flag). *)
Definition exec (re : RegExp) (s : jsstring) : option match_result :=
  search (flag_i re) s (source re) 0 s.

(** [re.test(s)]. *)
Definition test (re : RegExp) (s : jsstring) : bool :=
  match exec re s with Some _ => true | None => false end.

(** [s.replace(re, by)] for a replacement text without [$]. *)
Definition replace (re : RegExp) (by_ : jsstring) (s : jsstring) : jsstring :=
  match exec re s with
  | Some m => firstn (index m) s ++ by_ ++ after m
  | None => s
  end.

(** [s.split(re)] for a separator pattern without capturing parentheses. *)
Definition split (re : RegExp) (s : jsstring) : list jsstring :=
  match s with
  | [] => match match_at (flag_i re) s (source re) s with
          | Some _ => []
          | None => [[]]
          end
  | _ :: _ => split_go (flag_i re) s (source re) s [] 0
  end.

Definition toLowerCase (s : jsstring) : jsstring := List.map toLowerCase1 s.

Fixpoint startsWith (p s : jsstring) : bool :=
  match p, s with
  | [], _ => true
  | a :: p', c :: s' => (a =? c)%N && startsWith p' s'
  | _ :: _, [] => false
  end.

Definition endsWith (s p : jsstring) : bool := startsWith (rev p) (rev s).

(** *** parseFloat *)

Fixpoint span_digits (s : jsstring) : jsstring * jsstring :=
  match s with
  | c :: s' =>
      if is_digit c then let '(d, r) := span_digits s' in (c :: d, r)
      else ([], s)
  | [] => ([], [])
  end.

Fixpoint drop_space (s : jsstring) : jsstring :=
  match s with
  | c :: s' => if is_space c then drop_space s' else s
  | [] => []
  end.

(** The value of a run of decimal digits. *)
Definition digits_value (d : jsstring) : Z :=
  fold_left (fun acc c => 10 * acc + (Z.of_N c - 48))%Z d 0%Z.

(** The binary64 value nearest to [n * 10^e10] (ties to even), [n >= 0],
    with the sign [neg]. *)
Definition decimal (neg : bool) (n e10 : Z) : number :=
  match n with
  | Z0 => S754_zero neg
  | Zpos p =>
      if (0 <=? e10)%Z
      then binary_round prec emax neg (p * Z.to_pos (10 ^ e10)) 0
      else
        let '(q, e, l) :=
          SFdiv_core_binary prec emax (Zpos p) 0 (10 ^ (- e10)) 0 in
        binary_round_aux prec emax neg q e l
  | Zneg _ => NaN
  end.

(** The exponent part [e], [e+] or [e-] followed by digits; without
    digits the longest numeric prefix ends before the [e]. *)
Definition exponent_part (s : jsstring) : Z :=
  match s with
  | c :: s' =>
      if ((c =? 101) || (c =? 69))%N then
        let '(neg, s'') :=
          match s' with
          | c' :: t => if (c' =? 43)%N then (false, t)
                       else if (c' =? 45)%N then (true, t)
                       else (false, s')
          | [] => (false, s')
          end in
        match fst (span_digits s'') with
        | [] => 0%Z
        | d => if neg then (- digits_value d)%Z else digits_value d
        end
      else 0%Z
  | [] => 0%Z
  end.

(** The unsigned literal at the start of [s]: [Infinity], or digits with
    an optional fraction and exponent, where the digits before or after
    the point may be missing but not both; [NaN] when there is none. *)
Definition parse_unsigned (neg : bool) (s : jsstring) : number :=
  if startsWith (lit "Infinity") s then S754_infinity neg
  else
    let '(ip, s1) := span_digits s in
    let '(fp, s2) :=
      match s1 with
      | c :: t => if (c =? 46)%N then span_digits t else ([], s1)
      | [] => ([], s1)
      end in
    match ip, fp with
    | [], [] => NaN
    | _, _ =>
        decimal neg (digits_value (ip ++ fp))
          (exponent_part s2 - Z.of_nat (length fp))
    end.

Definition parseFloat (s : jsstring) : number :=
  match drop_space s with
  | c :: t =>
      if (c =? 43)%N then parse_unsigned false t
      else if (c =? 45)%N then parse_unsigned true t
      else parse_unsigned false (c :: t)
  | [] => NaN
  end.

End JSString.

Import JSString.

(* ================================================================== *)
(** ** Exceptions and template literals *)
(* ================================================================== *)

(** A template literal: its text, with each interpolated number kept as a
    number (the digits [Number::toString] prints are not modelled). *)
Inductive chunk : Type :=
| Text (s : jsstring)
| Num (x : number).

Definition text : Type := list chunk.

(** A thrown value: an [Error] with its message, or any other value, given
    by the text [String(value)] yields. *)
Inductive thrown : Type :=
| ErrorObject (message : text)
| OtherValue (shown : text).

(** [error instanceof Error ? error.message : String(error)]. *)
Definition error_text (e : thrown) : text :=
  match e with
  | ErrorObject m => m
  | OtherValue t => t
  end.

(** The result of running a piece of code that may throw. *)
Inductive outcome (A : Type) : Type :=
| Returned (a : A)
| Threw (e : thrown).

Arguments Returned {A} a.
Arguments Threw {A} e.

(** [throw new Error(message)]. *)
Definition throwError {A : Type} (message : text) : outcome A :=
  Threw (ErrorObject message).

(* ================================================================== *)
(** ** src/types.ts *)
(* ================================================================== *)

Record SVGDimensions : Type := mkDims {
  width : number;
  height : number
}.

Record ConversionOptions : Type := mkOptions {
  inputPath : jsstring;
  outputPath : option jsstring;
  opt_width : option number;
  opt_height : option number;
  opt_scale : option number;
  background : option jsstring;
  quality : option number
}.

Record ChromeConfig : Type := mkChrome {
  executablePath : jsstring
}.

Record ConversionResult : Type := mkResult {
  success : bool;
  res_outputPath : jsstring;
  dimensions : SVGDimensions;
  error : option text
}.

(** The anonymous parameter type [{ width?, height?, scale? }] of
    [calculateDimensions]; an absent field is [None]. *)
Record SizeOptions : Type := mkSize {
  size_width : option number;
  size_height : option number;
  size_scale : option number
}.

(** The anonymous parameter type [{ width?, height?, scale?, quality? }]
    of [validateOptions]. *)
Record NumericOptions : Type := mkNumeric {
  num_width : option number;
  num_height : option number;
  num_scale : option number;
  num_quality : option number
}.

(* ================================================================== *)
(** ** src/utils.ts: the functions that touch nothing outside *)
(* ================================================================== *)

Definition quoteClass : charclass := mkClass false [IChar 34; IChar 39].
Definition noQuoteClass : charclass := mkClass true [IChar 34; IChar 39].
Definition digitClass : charclass := mkClass false [IDigit].
Definition spaceClass : charclass := mkClass false [ISpace].

(** [/\s<name>=[q](\d+(?:\.\d+)?)(px|pt|pc|in|cm|mm)?[q]/i], where [q]
    stands for the double and the single quote character. *)
Definition attributePattern (name : string) : RegExp :=
  mkRegExp
    (Seqs [Class spaceClass; Lit name; Char 61; Class quoteClass;
           Group 1 (Seq (Plus digitClass) (Opt (Seq (Char 46) (Plus digitClass))));
           Opt (Group 2 (Alts (Lit "px")
                              [Lit "pt"; Lit "pc"; Lit "in"; Lit "cm"; Lit "mm"]));
           Class quoteClass])
    true.

Definition widthPattern : RegExp := attributePattern "width".
Definition heightPattern : RegExp := attributePattern "height".

(** [/viewBox=[q]([^q]+)[q]/i], with [q] as above. *)
Definition viewBoxPattern : RegExp :=
  mkRegExp
    (Seqs [Lit "viewBox="; Class quoteClass; Group 1 (Plus noQuoteClass);
           Class quoteClass])
    true.

(** [/[\s,]+/] *)
Definition separatorPattern : RegExp :=
  mkRegExp (Plus (mkClass false [ISpace; IChar 44])) false.

(** [match[n]] handed to [parseFloat]; a group that took no part in the
    match is [undefined], which [parseFloat] reads as the text [undefined]. *)
Definition group_text (n : nat) (m : match_result) : jsstring :=
  match capture n (groups m) with
  | Some s => s
  | None => lit "undefined"
  end.

Definition dimensionsUnavailable : text :=
  [Text (lit "Unable to determine SVG dimensions. SVG must have width/height attributes or viewBox.")].

(** The body of [parseSVGDimensions] after the file has been read. *)
Definition dimensionsOfContent (svgContent : jsstring) : outcome SVGDimensions :=
  let widthMatch := exec widthPattern svgContent in
  let heightMatch := exec heightPattern svgContent in
  match widthMatch, heightMatch with
  | Some wm, Some hm =>
      Returned {| width := parseFloat (group_text 1 wm);
                  height := parseFloat (group_text 1 hm) |}
  | _, _ =>
      let viewBoxMatch := exec viewBoxPattern svgContent in
      let fallthrough := throwError dimensionsUnavailable in
      match viewBoxMatch with
      | Some vm =>
          let values := List.map parseFloat (split separatorPattern (group_text 1 vm)) in
          if Nat.eqb (length values) 4 then
            Returned {| width := sub (nth 2 values NaN) (nth 0 values NaN);
                        height := sub (nth 3 values NaN) (nth 1 values NaN) |}
          else fallthrough
      | None => fallthrough
      end
  end.

(** The value of an optional number where the program tests it for
    truthiness: [undefined], [0], [-0] and [NaN] are falsy. *)
Definition truthy (o : option number) : option number :=
  match o with
  | Some x => if ToBoolean x then Some x else None
  | None => None
  end.

Definition calculateDimensions (intrinsic : SVGDimensions) (options : SizeOptions)
  : SVGDimensions :=
  (* const scale = options.scale || 1; *)
  let scale := match truthy (size_scale options) with Some s => s | None => one end in
  match truthy (size_width options), truthy (size_height options) with
  | Some w, Some h =>
      (* if (options.width && options.height) *)
      let targetAspect := div w h in
      let intrinsicAspect := div (width intrinsic) (height intrinsic) in
      let '(finalWidth, finalHeight) :=
        if gt intrinsicAspect targetAspect
        then (w, div w intrinsicAspect)
        else (mul h intrinsicAspect, h) in
      {| width := round (mul finalWidth scale);
         height := round (mul finalHeight scale) |}
  | Some w, None =>
      (* if (options.width) *)
      let aspectRatio := div (height intrinsic) (width intrinsic) in
      {| width := round (mul w scale);
         height := round (mul (mul w aspectRatio) scale) |}
  | None, Some h =>
      (* if (options.height) *)
      let aspectRatio := div (width intrinsic) (height intrinsic) in
      {| width := round (mul (mul h aspectRatio) scale);
         height := round (mul h scale) |}
  | None, None =>
      {| width := round (mul (width intrinsic) scale);
         height := round (mul (height intrinsic) scale) |}
  end.

Definition invalidPositive (field : string) (value : number) : text :=
  [Text (lit "Invalid " ++ lit field ++ lit ": "); Num value;
   Text (lit ". Must be a positive number.")].

Definition invalidQuality (value : number) : text :=
  [Text (lit "Invalid quality: "); Num value;
   Text (lit ". Must be between 0 and 100.")].

(** [x !== undefined && (x <= 0 || !Number.isFinite(x))] *)
Definition notPositiveFinite (o : option number) : option number :=
  match o with
  | Some x => if le x zero || negb (isFinite x) then Some x else None
  | None => None
  end.

(** [x !== undefined && (x < 0 || x > 100)] *)
Definition outOfRange (o : option number) : option number :=
  match o with
  | Some x => if lt x zero || gt x hundred then Some x else None
  | None => None
  end.

Definition validateOptions (options : NumericOptions) : outcome unit :=
  match notPositiveFinite (num_width options) with
  | Some v => throwError (invalidPositive "width" v)
  | None =>
  match notPositiveFinite (num_height options) with
  | Some v => throwError (invalidPositive "height" v)
  | None =>
  match notPositiveFinite (num_scale options) with
  | Some v => throwError (invalidPositive "scale" v)
  | None =>
  match outOfRange (num_quality options) with
  | Some v => throwError (invalidQuality v)
  | None => Returned tt
  end end end end.

(** [/\.svg$/i] *)
Definition svgExtensionPattern : RegExp :=
  mkRegExp (Seqs [Char 46; Lit "svg"; Eol]) true.

Definition generateOutputPath (inputPath : jsstring) (outputPath : option jsstring)
  : jsstring :=
  match outputPath with
  | Some (c :: p) => c :: p                      (* if (outputPath) *)
  | _ => replace svgExtensionPattern (lit ".png") inputPath
  end.

Definition transparent : jsstring := lit "transparent".

Definition hexClass : charclass := mkClass false [IRange 48 57; IRange 97 102].
Definition letterClass : charclass := mkClass false [IRange 97 122].

(** [/^(#[0-9a-f]{3,8}|rgba?\([^)]+\)|[a-z]+)$/i] *)
Definition validColorPattern : RegExp :=
  mkRegExp
    (Seqs [Bol;
           Group 1
             (Alts (Seq (Char 35) (Rep 3 (Some 8) hexClass))
                   [Seqs [Lit "rgb"; Opt (Char 97); Char 40;
                          Plus (mkClass true [IChar 41]); Char 41];
                    Plus letterClass]);
           Eol])
    true.

Definition invalidBackground (background : jsstring) : text :=
  [Text (lit "Invalid background color: " ++ background)].

Definition normalizeBackgroundColor (background : option jsstring) : outcome jsstring :=
  match background with
  | None => Returned transparent
  | Some [] => Returned transparent              (* !background *)
  | Some b =>
      if jsstring_eqb b transparent then Returned transparent
      else if negb (test validColorPattern b) then throwError (invalidBackground b)
      else Returned b
  end.

(* ================================================================== *)
(** ** The outside world: file system, environment and browser *)
(* ================================================================== *)

(** What [getBBox] and the client box of the rendered [svg] element report. *)
Record Boxes : Type := mkBoxes {
  bbox_width : number;
  bbox_height : number;
  clientWidth : number;
  clientHeight : number
}.

(** [a || b] on numbers. *)
Definition orElse (a b : number) : number := if ToBoolean a then a else b.

Section Monad.


(** The state of everything outside the program, and the browser handle
    the library hands out. *)
Variables world Browser : Type.

(** An operation of the host: it may change the world and may throw. *)
Definition IO (A : Type) : Type := world -> outcome A * world.

(** The converter object: the world and its field [this.browser]. *)
Record state : Type := mkState {
  outside : world;
  browser : option Browser
}.

(** Code of the converter: state passing with exceptions.  An [await]
    is sequencing; a promise that never settles is not modelled. *)
Definition M (A : Type) : Type := state -> outcome A * state.

Definition ret {A : Type} (a : A) : M A := fun s => (Returned a, s).

Definition bind {A B : Type} (c : M A) (f : A -> M B) : M B :=
  fun s =>
    match c s with
    | (Returned a, s1) => f a s1
    | (Threw e, s1) => (Threw e, s1)
    end.

Definition throw {A : Type} (e : thrown) : M A := fun s => (Threw e, s).

(** A function that only returns or throws. *)
Definition pure {A : Type} (r : outcome A) : M A := fun s => (r, s).

(** A host operation. *)
Definition io {A : Type} (c : IO A) : M A :=
  fun s =>
    let '(r, w) := c (outside s) in
    (r, mkState w (browser s)).

(** A host value read from the world. *)
Definition observe {A : Type} (f : world -> A) : M A :=
  fun s => (Returned (f (outside s)), s).

(** [try { body } catch (error) { handler }]. *)
Definition try_catch {A : Type} (body : M A) (handler : thrown -> M A) : M A :=
  fun s =>
    match body s with
    | (Returned a, s1) => (Returned a, s1)
    | (Threw e, s1) => handler e s1
    end.

(** [try { body } finally { final }]: [final] always runs, and what it
    throws replaces the outcome of [body]. *)
Definition try_finally {A : Type} (body : M A) (final : M unit) : M A :=
  fun s =>
    let '(r, s1) := body s in
    match final s1 with
    | (Returned _, s2) => (r, s2)
    | (Threw e, s2) => (Threw e, s2)
    end.

Definition get_browser : M (option Browser) := fun s => (Returned (browser s), s).
Definition set_browser (b : option Browser) : M unit :=
  fun s => (Returned tt, mkState (outside s) b).

End Monad.

Arguments mkState {world Browser} outside browser.
Arguments outside {world Browser} s.
Arguments browser {world Browser} s.
Arguments ret {world Browser A} a _.
Arguments bind {world Browser A B} c f _.
Arguments throw {world Browser A} e _.
Arguments pure {world Browser A} r _.
Arguments io {world Browser A} c _.
Arguments observe {world Browser A} f _.
Arguments try_catch {world Browser A} body handler _.
Arguments try_finally {world Browser A} body final _.
Arguments get_browser {world Browser} _.
Arguments set_browser {world Browser} b _.

Notation "x <- c ;; k" := (bind c (fun x => k))
  (at level 61, c at next level, right associativity).
Notation "c ;;; k" := (bind c (fun _ => k))
  (at level 61, right associativity).

(** The operations of the host the program calls: [fs], [os] and
    [process.env], then [puppeteer-core]. *)
Record Host (world Browser Page Buffer : Type) : Type := mkHost {
  env_CHROME_PATH : world -> option jsstring;     (* process.env.CHROME_PATH *)
  platform : world -> jsstring;
  existsSync : jsstring -> world -> bool;
  accessSync : jsstring -> IO world unit;         (* accessSync(path, constants.R_OK) *)
  readFile : jsstring -> IO world jsstring;       (* readFile(path, 'utf-8') *)
  writeFile : jsstring -> Buffer -> IO world unit;
  launch : jsstring -> IO world Browser;          (* puppeteer.launch({ executablePath, ... }) *)
  connected : Browser -> world -> bool;
  closeBrowser : Browser -> IO world unit;
  newPage : Browser -> IO world Page;
  closePage : Page -> IO world unit;
  setContent : Page -> text -> IO world unit;
  setViewport : Page -> SVGDimensions -> IO world unit;
  (* the boxes of the first svg element of the page, None when
     document.querySelector('svg') finds none *)
  measureSvg : Page -> IO world (option Boxes);
  (* page.screenshot({ type: 'png', omitBackground, clip }) *)
  screenshot : Page -> bool -> SVGDimensions -> IO world Buffer
}.

Arguments env_CHROME_PATH {world Browser Page Buffer} h _.
Arguments platform {world Browser Page Buffer} h _.
Arguments existsSync {world Browser Page Buffer} h _ _.
Arguments accessSync {world Browser Page Buffer} h _ _.
Arguments readFile {world Browser Page Buffer} h _ _.
Arguments writeFile {world Browser Page Buffer} h _ _ _.
Arguments launch {world Browser Page Buffer} h _ _.
Arguments connected {world Browser Page Buffer} h _ _.
Arguments closeBrowser {world Browser Page Buffer} h _ _.
Arguments newPage {world Browser Page Buffer} h _ _.
Arguments closePage {world Browser Page Buffer} h _ _.
Arguments setContent {world Browser Page Buffer} h _ _ _.
Arguments setViewport {world Browser Page Buffer} h _ _ _.
Arguments measureSvg {world Browser Page Buffer} h _ _.
Arguments screenshot {world Browser Page Buffer} h _ _ _ _.

Section World.

Variables world Browser Page Buffer : Type.
Variable host : Host world Browser Page Buffer.

Local Abbreviation M := (M world Browser).

(** *** src/utils.ts: the functions that use the host *)

Definition darwinPaths : list jsstring :=
  [lit "/Applications/Google Chrome.app/Contents/MacOS/Google Chrome";
   lit "/Applications/Chromium.app/Contents/MacOS/Chromium";
   lit "/Applications/Google Chrome Canary.app/Contents/MacOS/Google Chrome Canary"].

Definition linuxPaths : list jsstring :=
  [lit "/usr/bin/google-chrome"; lit "/usr/bin/chromium-browser";
   lit "/usr/bin/chromium"; lit "/snap/bin/chromium"].

Definition win32Paths : list jsstring :=
  [lit "C:\Program Files\Google\Chrome\Application\chrome.exe";
   lit "C:\Program Files (x86)\Google\Chrome\Application\chrome.exe";
   lit "C:\Program Files\Chromium\Application\chrome.exe"].

(** [platformPaths[platform()] || []] *)
Definition platformPaths (name : jsstring) : list jsstring :=
  if jsstring_eqb name (lit "darwin") then darwinPaths
  else if jsstring_eqb name (lit "linux") then linuxPaths
  else if jsstring_eqb name (lit "win32") then win32Paths
  else [].

Definition chromeNotFound : text :=
  [Text (lit "Chrome/Chromium not found. Please install Chrome or set CHROME_PATH environment variable."
         ++ [10; 10]%N ++ lit "Installation instructions:"
         ++ [10]%N ++ lit "  macOS:   brew install --cask google-chrome"
         ++ [10]%N ++ lit "  Linux:   sudo apt install google-chrome-stable (or chromium-browser)"
         ++ [10]%N ++ lit "  Windows: Download from https://www.google.com/chrome/"
         ++ [10; 10]%N ++ lit "Or set CHROME_PATH to your Chrome executable:"
         ++ [10]%N ++ lit "  export CHROME_PATH=" ++ [34]%N ++ lit "/path/to/chrome" ++ [34]%N)].

Definition findChrome : M ChromeConfig :=
  env <- observe (env_CHROME_PATH host) ;;
  let fromPlatform : M ChromeConfig :=
    name <- observe (platform host) ;;
    found <- observe (fun w => find (fun path => existsSync host path w) (platformPaths name)) ;;
    match found with
    | Some path => ret (mkChrome path)
    | None => throw (ErrorObject chromeNotFound)
    end in
  match env with
  | Some (c :: p) =>
      present <- observe (existsSync host (c :: p)) ;;
      if present then ret (mkChrome (c :: p)) else fromPlatform
  | _ => fromPlatform
  end.

Definition parseSVGDimensions (svgPath : jsstring) : M SVGDimensions :=
  svgContent <- io (readFile host svgPath) ;;
  pure (dimensionsOfContent svgContent).

Definition validateInputFile (filePath : jsstring) : M unit :=
  present <- observe (existsSync host filePath) ;;
  if negb present
  then throw (ErrorObject [Text (lit "Input file not found: " ++ filePath)])
  else
    try_catch (io (accessSync host filePath))
      (fun _ => throw (ErrorObject [Text (lit "Input file is not readable: " ++ filePath)])) ;;;
    if negb (endsWith (toLowerCase filePath) (lit ".svg"))
    then throw (ErrorObject [Text (lit "Input file must be an SVG file: " ++ filePath)])
    else ret tt.

(** *** src/converter.ts: class SVGConverter *)

Definition getBrowser : M Browser :=
  current <- get_browser ;;
  let start : M Browser :=
    chromeConfig <- findChrome ;;
    b <- io (launch host (executablePath chromeConfig)) ;;
    set_browser (Some b) ;;;
    ret b in
  match current with
  | Some b =>
      alive <- observe (connected host b) ;;
      if alive then ret b else start
  | None => start
  end.

Definition measurePage (svgContent : jsstring) : text :=
  [Text (lit "
        <!DOCTYPE html>
        <html>
          <head>
            <style>
              body { margin: 0; padding: 0; }
              svg { display: block; }
            </style>
          </head>
          <body>" ++ svgContent ++ lit "</body>
        </html>
      ")].

Definition getDimensionsFromBrowser (svgPath : jsstring) : M SVGDimensions :=
  b <- getBrowser ;;
  page <- io (newPage host b) ;;
  try_finally
    (svgContent <- io (readFile host svgPath) ;;
     io (setContent host page (measurePage svgContent)) ;;;
     boxes <- io (measureSvg host page) ;;
     match boxes with
     | None => throw (ErrorObject [Text (lit "No SVG element found")])
     | Some bx =>
         ret {| width := orElse (orElse (bbox_width bx) (clientWidth bx)) (ofZ 300);
                height := orElse (orElse (bbox_height bx) (clientHeight bx)) (ofZ 300) |}
     end)
    (io (closePage host page)).

Definition renderPage (svgContent : jsstring) (dims : SVGDimensions)
  (backgroundColor : jsstring) : text :=
  [Text (lit "
        <!DOCTYPE html>
        <html>
          <head>
            <style>
              * { margin: 0; padding: 0; box-sizing: border-box; }
              html, body {
                width: "); Num (width dims); Text (lit "px;
                height: "); Num (height dims); Text (lit "px;
                overflow: hidden;
              }
              body {
                display: flex;
                align-items: center;
                justify-content: center;
                background: " ++ backgroundColor ++ lit ";
              }
              svg {
                max-width: 100%;
                max-height: 100%;
                display: block;
              }
            </style>
          </head>
          <body>" ++ svgContent ++ lit "</body>
        </html>
      ")].

Definition convertWithPuppeteer (svgPath outPath : jsstring) (dims : SVGDimensions)
  (backgroundColor : jsstring) (quality_ : option number) : M unit :=
  b <- getBrowser ;;
  page <- io (newPage host b) ;;
  try_finally
    (io (setViewport host page dims) ;;;
     svgContent <- io (readFile host svgPath) ;;
     io (setContent host page (renderPage svgContent dims backgroundColor)) ;;;
     shot <- io (screenshot host page (jsstring_eqb backgroundColor transparent) dims) ;;
     io (writeFile host outPath shot))
    (io (closePage host page)).

(** The [try] block of [convert]. *)
Definition convertSteps (options : ConversionOptions) : M ConversionResult :=
  validateInputFile (inputPath options) ;;;
  pure (validateOptions
          (mkNumeric (opt_width options) (opt_height options)
                     (opt_scale options) (quality options))) ;;;
  let outPath := generateOutputPath (inputPath options) (outputPath options) in
  intrinsicDimensions <-
    try_catch (parseSVGDimensions (inputPath options))
      (fun _ => getDimensionsFromBrowser (inputPath options)) ;;
  let finalDimensions :=
    calculateDimensions intrinsicDimensions
      (mkSize (opt_width options) (opt_height options) (opt_scale options)) in
  backgroundColor <- pure (normalizeBackgroundColor (background options)) ;;
  convertWithPuppeteer (inputPath options) outPath finalDimensions
    backgroundColor (quality options) ;;;
  ret {| success := true;
         res_outputPath := outPath;
         dimensions := finalDimensions;
         error := None |}.

(** The result the [catch] block of [convert] builds. *)
Definition failureResult (options : ConversionOptions) (e : thrown) : ConversionResult :=
  {| success := false;
     res_outputPath := match outputPath options with
                       | Some p => p                  (* options.outputPath || '' *)
                       | None => []
                       end;
     dimensions := {| width := zero; height := zero |};
     error := Some (error_text e) |}.

Definition convert (options : ConversionOptions) : M ConversionResult :=
  try_catch (convertSteps options) (fun e => ret (failureResult options e)).

Definition cleanup : M unit :=
  current <- get_browser ;;
  match current with
  | Some b => io (closeBrowser host b) ;;; set_browser None
  | None => ret tt
  end.

(** [convertSVGtoPNG]: a fresh converter, cleaned up whatever happens. *)
Definition convertSVGtoPNG (options : ConversionOptions) : IO world ConversionResult :=
  fun w =>
    let '(r, s) := try_finally (convert options) cleanup (mkState w None) in
    (r, outside s).

End World.

Arguments findChrome {world Browser Page Buffer} host _.
Arguments parseSVGDimensions {world Browser Page Buffer} host svgPath _.
Arguments validateInputFile {world Browser Page Buffer} host filePath _.
Arguments getBrowser {world Browser Page Buffer} host _.
Arguments getDimensionsFromBrowser {world Browser Page Buffer} host svgPath _.
Arguments convertWithPuppeteer {world Browser Page Buffer} host
  svgPath outPath dims backgroundColor quality_ _.
Arguments convertSteps {world Browser Page Buffer} host options _.
Arguments convert {world Browser Page Buffer} host options _.
Arguments cleanup {world Browser Page Buffer} host _.
Arguments convertSVGtoPNG {world Browser Page Buffer} host options _.

(* ================================================================== *)
(** * The vocabulary of the properties *)
(* ================================================================== *)

Definition is_some {A : Type} (o : option A) : bool :=
  match o with Some _ => true | None => false end.

Definition is_nil {A : Type} (l : list A) : bool :=
  match l with [] => true | _ :: _ => false end.

(** ** Numbers *)

(** The sign of a number that is not [NaN]. *)
Definition sign_is (s : bool) (x : number) : Prop :=
  match x with
  | S754_zero s' | S754_infinity s' | S754_finite s' _ _ => s' = s
  | S754_nan => False
  end.

(** The scale in force: the given one, or [1]. *)
Definition scale_in_force (scale : option number) : number :=
  match scale with
  | Some s => s
  | None => one
  end.

Definition scale_admissible (scale : option number) : Prop :=
  match scale with
  | Some s => positive_finite s = true
  | None => True
  end.

(** ** Options the validator refuses *)

(** A present dimension or scale out of range: [x <= 0] or not finite. *)
Definition rejectedPositive (o : option number) (x : number) : Prop :=
  o = Some x /\ (le x zero = true \/ isFinite x = false).

(** A present quality out of range: [x < 0] or [x > 100]. *)
Definition rejectedQuality (o : option number) (x : number) : Prop :=
  o = Some x /\ (lt x zero = true \/ gt x hundred = true).

Definition acceptedPositive (o : option number) : Prop :=
  forall x, ~ rejectedPositive o x.

Definition acceptedQuality (o : option number) : Prop :=
  forall x, ~ rejectedQuality o x.

(** ** The accepted shapes of a colour *)



(** The letter [lower], in either case. *)
Definition letter_is (lower c : N) : bool := ((c =? lower) || (c =? lower - 32))%N.









(** ** What a pattern matches *)

Section Matches.
Variable ic : bool.
Variable input : jsstring.

(** [matches r s c s' c']: the pattern [r] can consume a prefix of [s],
    leaving [s'], and turns the captures [c] into [c']. *)
Inductive matches :
  regex -> jsstring -> capture_list -> jsstring -> capture_list -> Prop :=
| M_Empty s c : matches Empty s c s c
| M_Char a x s c :
    same_char ic a x = true -> matches (Char a) (x :: s) c s c
| M_Class cc x s c :
    class_has ic cc x = true -> matches (Class cc) (x :: s) c s c
| M_Seq r1 r2 s c s1 c1 s2 c2 :
    matches r1 s c s1 c1 -> matches r2 s1 c1 s2 c2 ->
    matches (Seq r1 r2) s c s2 c2
| M_AltL r1 r2 s c s1 c1 :
    matches r1 s c s1 c1 -> matches (Alt r1 r2) s c s1 c1
| M_AltR r1 r2 s c s1 c1 :
    matches r2 s c s1 c1 -> matches (Alt r1 r2) s c s1 c1
| M_OptSome r s c s1 c1 :
    matches r s c s1 c1 -> length s1 <> length s -> matches (Opt r) s c s1 c1
| M_OptNone r s c : matches (Opt r) s c s c
| M_Rep cc min max taken s c :
    forallb (class_has ic cc) taken = true ->
    min <= length taken ->
    match max with Some n => length taken <= n | None => True end ->
    matches (Rep min max cc) (taken ++ s) c s c
| M_Group n r s c s1 c1 :
    matches r s c s1 c1 ->
    matches (Group n r) s c s1 ((n, firstn (length s - length s1) s) :: c1)
| M_Bol s c : length s = length input -> matches Bol s c s c
| M_Eol c : matches Eol [] c [] c.
End Matches.

(** ** The extractor *)

(** The fraction of a decimal literal: nothing, or a point and digits. *)
Definition fraction (fp : jsstring) : jsstring :=
  match fp with
  | [] => []
  | _ :: _ => 46%N :: fp
  end.

(** The double nearest to the decimal number with the integer digits [ip]
    and the fraction digits [fp]. *)
Definition decimalValue (ip fp : jsstring) : number :=
  decimal false (digits_value (ip ++ fp)) (- Z.of_nat (length fp)).

Definition isNaN (x : number) : bool :=
  match x with S754_nan => true | _ => false end.

(** The tokens of a viewBox value: what stands between runs of white space
    and commas. *)
Definition tokens (value : jsstring) : list jsstring :=
  filter (fun piece => negb (is_nil piece)) (split separatorPattern value).

(** A token [parseFloat] reads a number from. *)
Definition numeric (token : jsstring) : bool := negb (isNaN (parseFloat token)).

(** The extractor as the specification words it: the viewBox step needs
    exactly four numeric tokens. *)
Definition claimedDimensions (svgContent : jsstring) : outcome SVGDimensions :=
  match exec widthPattern svgContent, exec heightPattern svgContent with
  | Some wm, Some hm =>
      Returned {| width := parseFloat (group_text 1 wm);
                  height := parseFloat (group_text 1 hm) |}
  | _, _ =>
      match exec viewBoxPattern svgContent with
      | Some vm =>
          match tokens (group_text 1 vm) with
          | [t0; t1; t2; t3] =>
              if forallb numeric [t0; t1; t2; t3]
              then Returned {| width := sub (parseFloat t2) (parseFloat t0);
                               height := sub (parseFloat t3) (parseFloat t1) |}
              else throwError dimensionsUnavailable
          | _ => throwError dimensionsUnavailable
          end
      | None => throwError dimensionsUnavailable
      end
  end.

(** ** A width or height attribute in the text *)

(** The double and the single quote character. *)
Definition is_quote (c : N) : bool := ((c =? 34) || (c =? 39))%N.

(** The same text up to the case of the letters [a-z]. *)
Fixpoint same_letters (a b : jsstring) : bool :=
  match a, b with
  | [], [] => true
  | x :: a', y :: b' => (toLowerCase1 x =? toLowerCase1 y)%N && same_letters a' b'
  | _, _ => false
  end.

(** No unit, or one of [px], [pt], [pc], [in], [cm], [mm] in any letter
    case. *)
Definition is_unit (u : jsstring) : bool :=
  is_nil u
  || existsb (same_letters u)
       [lit "px"; lit "pt"; lit "pc"; lit "in"; lit "cm"; lit "mm"].

(** [attributeAt name svg pre ip fp]: after [pre] the text [svg] goes on
    with an attribute [name]: a white-space character, the name in any
    letter case, [=], a quote, the digits [ip], a fraction of digits [fp] or
    none, a unit or none, and a quote. *)
Definition attributeAt (name : string) (svg pre ip fp : jsstring) : Prop :=
  exists (ws : N) (nm : jsstring) (q1 : N) (unit : jsstring) (q2 : N) (post : jsstring),
    svg = pre ++ ws :: nm ++ 61%N :: q1 :: ip ++ fraction fp ++ unit ++ q2 :: post
    /\ is_space ws = true /\ same_letters nm (lit name) = true
    /\ is_quote q1 = true /\ is_quote q2 = true /\ is_unit unit = true
    /\ ip <> [] /\ forallb is_digit ip = true /\ forallb is_digit fp = true.

(** The first attribute [name] of the text: none starts before it. *)
Definition firstAttribute (name : string) (svg pre ip fp : jsstring) : Prop :=
  attributeAt name svg pre ip fp
  /\ forall pre' ip' fp', attributeAt name svg pre' ip' fp' -> length pre <= length pre'.

(** The largest finite double, [(2^53 - 1) * 2^971]. *)
Definition maxDouble : Z := ((2 ^ 53 - 1) * 2 ^ 971)%Z.

(** ** The two shapes of a conversion result *)

(** The message reported for what was thrown: the message of an [Error],
    the text of any other value. *)
Definition reportedMessage (e : thrown) : text :=
  match e with
  | ErrorObject message => message
  | OtherValue shown => shown
  end.

(** The result of a conversion that worked from the size [obtained]: the
    path written, the dimensions resolved from that size and the sizes
    asked for, and no error. *)
Definition successOutcome (options : ConversionOptions) (obtained : SVGDimensions)
  : ConversionResult :=
  {| success := true;
     res_outputPath := generateOutputPath (inputPath options) (outputPath options);
     dimensions :=
       calculateDimensions obtained
         (mkSize (opt_width options) (opt_height options) (opt_scale options));
     error := None |}.

(** The result of a conversion in which [e] was thrown: the output path
    asked for, or the empty string, the size 0 x 0 and the message. *)
Definition failureOutcome (options : ConversionOptions) (e : thrown)
  : ConversionResult :=
  {| success := false;
     res_outputPath := match outputPath options with Some p => p | None => [] end;
     dimensions := mkDims zero zero;
     error := Some (reportedMessage e) |}.

(** ** A host for the examples *)

(** A world that holds one readable file, whose text is the state; the
    browser does nothing and finds no [svg] element. *)
Definition textHost : Host jsstring unit unit unit :=
  {| env_CHROME_PATH := fun _ => None;
     platform := fun _ => lit "linux";
     existsSync := fun _ _ => true;
     accessSync := fun _ w => (Returned tt, w);
     readFile := fun _ w => (Returned w, w);
     writeFile := fun _ _ w => (Returned tt, w);
     launch := fun _ w => (Returned tt, w);
     connected := fun _ _ => true;
     closeBrowser := fun _ w => (Returned tt, w);
     newPage := fun _ w => (Returned tt, w);
     closePage := fun _ w => (Returned tt, w);
     setContent := fun _ _ w => (Returned tt, w);
     setViewport := fun _ _ w => (Returned tt, w);
     measureSvg := fun _ w => (Returned None, w);
     screenshot := fun _ _ _ w => (Returned tt, w) |}.

(** [<svg width="W" height="H">] and [<svg viewBox="V">]. *)
Definition svgWithSize (w h : string) : jsstring :=
  lit "<svg width=" ++ [34%N] ++ lit w ++ [34%N]
  ++ lit " height=" ++ [34%N] ++ lit h ++ [34%N] ++ lit ">".

Definition svgWithViewBox (v : string) : jsstring :=
  lit "<svg viewBox=" ++ [34%N] ++ lit v ++ [34%N] ++ lit ">".

(** ** The real value of a number *)

(** The power of two [2^e] as a real number. *)
Definition bpow (e : Z) : R := powerRZ 2 e.

(** The real value of a finite number; zero for the others. *)
Definition B2R (x : number) : R :=
  match x with
  | S754_finite s m e => (IZR (cond_Zopp s (Z.pos m)) * bpow e)%R
  | _ => 0%R
  end.

(** The least exponent of binary64, [-1074]. *)
Definition femin : Z := emin prec emax.

(** Nothing has been shifted out of a mantissa yet. *)
Definition shr_exact (mrs : shr_record) : Prop :=
  shr_r mrs = false /\ shr_s mrs = false.

(** Where a real number lies with respect to [m * 2^e]. *)
Definition located (m e : Z) (l : location) (v : R) : Prop :=
  match l with
  | loc_Exact => v = (IZR m * bpow e)%R
  | loc_Inexact _ => (IZR m * bpow e < v < IZR (m + 1) * bpow e)%R
  end.

(** What rounding returns for the mantissa [m2] at the exponent [e1]. *)
Definition rounded (m2 e1 : Z) (r : number) : Prop :=
  (m2 = 0%Z /\ r = S754_zero false)
  \/ ((0 < m2)%Z /\ positive_finite r = true /\ B2R r = (IZR m2 * bpow e1)%R)
  \/ (r = S754_infinity false /\ (bpow emax <= IZR m2 * bpow e1)%R).

(** [v] rounds to [r]: [v] lies in a cell of the binary64 grid and [r] is
    one of the two ends of the cell. *)
Definition rounds_to (v : R) (r : number) : Prop :=
  exists m1 m2 e1 : Z,
    (0 <= m1 < 2 ^ 53)%Z /\ (femin <= e1)%Z
    /\ (e1 = femin \/ (2 ^ 52 <= m1)%Z)
    /\ (IZR m1 * bpow e1 <= v < IZR (m1 + 1) * bpow e1)%R
    /\ (m2 = m1 \/ m2 = (m1 + 1)%Z)
    /\ (v = (IZR m1 * bpow e1)%R -> m2 = m1)
    /\ rounded m2 e1 r.

(** [r] is [+0] or a positive finite number no greater than [u]. *)
Definition at_most (r : number) (u : R) : Prop :=
  r = S754_zero false \/ (positive_finite r = true /\ (B2R r <= u)%R).

(** The largest target the fit is proved for: [2^50] pixels. *)
Definition pixelLimit : number := ofZ (2 ^ 50).

(** ** Names for the properties of the pipeline *)

(** The paths [findChrome] tries, in order: a non-empty [CHROME_PATH],
    then the known places of the platform. *)
Definition chromeCandidates {world Browser Page Buffer : Type}
  (host : Host world Browser Page Buffer) (w : world) : list jsstring :=
  match env_CHROME_PATH host w with
  | Some (c :: p) => [c :: p]
  | _ => []
  end ++ platformPaths (platform host w).

(** The three errors of [validateInputFile]. *)
Definition inputNotFound (filePath : jsstring) : thrown :=
  ErrorObject [Text (lit "Input file not found: " ++ filePath)].
Definition inputNotReadable (filePath : jsstring) : thrown :=
  ErrorObject [Text (lit "Input file is not readable: " ++ filePath)].
Definition inputNotSvg (filePath : jsstring) : thrown :=
  ErrorObject [Text (lit "Input file must be an SVG file: " ++ filePath)].

(** The numeric options [convert] hands to [validateOptions]. *)
Definition numericOptions (options : ConversionOptions) : NumericOptions :=
  mkNumeric (opt_width options) (opt_height options) (opt_scale options)
    (quality options).

(** [.svg] in any letter case. *)
Definition svgExtension (s : jsstring) : bool :=
  match s with
  | [d; a; b; c] =>
      (d =? 46)%N && letter_is 115 a && letter_is 118 b && letter_is 103 c
  | _ => false
  end.

(** An optional number that, when present, is positive and finite. *)
Definition optional_positive (o : option number) : Prop :=
  match o with
  | Some x => positive_finite x = true
  | None => True
  end.

(** [+0], a positive finite number or [+Infinity]. *)
Definition nonnegative (x : number) : Prop :=
  x = S754_zero false \/ positive_finite x = true \/ x = Infinity.

(** [+0], a positive whole number or [+Infinity]. *)
Definition whole_or_infinite (x : number) : Prop :=
  x = S754_zero false
  \/ (positive_finite x = true /\ is_integer x = true)
  \/ x = Infinity.

(** The request [options] with another quality. *)
Definition withQuality (options : ConversionOptions) (q : option number)
  : ConversionOptions :=
  {| inputPath := inputPath options;
     outputPath := outputPath options;
     opt_width := opt_width options;
     opt_height := opt_height options;
     opt_scale := opt_scale options;
     background := background options;
     quality := q |}.

(** The host of the examples, with a browser that finds an [svg] element
    and reports these boxes. *)
Definition measuringHost (boxes : Boxes) : Host jsstring unit unit unit :=
  {| env_CHROME_PATH := env_CHROME_PATH textHost;
     platform := platform textHost;
     existsSync := existsSync textHost;
     accessSync := accessSync textHost;
     readFile := readFile textHost;
     writeFile := writeFile textHost;
     launch := launch textHost;
     connected := connected textHost;
     closeBrowser := closeBrowser textHost;
     newPage := newPage textHost;
     closePage := closePage textHost;
     setContent := setContent textHost;
     setViewport := setViewport textHost;
     measureSvg := fun _ w => (Returned (Some boxes), w);
     screenshot := screenshot textHost |}.

(** A request to convert [icon.svg], everything else left out. *)
Definition iconRequest : ConversionOptions :=
  {| inputPath := lit "icon.svg"; outputPath := None; opt_width := None;
     opt_height := None; opt_scale := None; background := None; quality := None |}.

(** The same with a width. *)
Definition iconRequestWidth (w : number) : ConversionOptions :=
  {| inputPath := lit "icon.svg"; outputPath := None; opt_width := Some w;
     opt_height := None; opt_scale := None; background := None; quality := None |}.

(** A document that opens with [<svg width="W" height="H"], the sizes
    written as digits, whatever follows. *)
Definition svgDocument (wi hi rest : jsstring) : jsstring :=
  lit "<svg" ++ [32%N] ++ lit "width" ++ [61; 34]%N ++ wi ++ [34%N]
  ++ [32%N] ++ lit "height" ++ [61; 34]%N ++ hi ++ [34%N] ++ rest.

(** White space or a comma: what separates the numbers of a viewBox. *)
Definition is_separator (c : N) : bool := is_space c || (c =? 44)%N.

(** The value [a b c d] of a viewBox, the numbers written as digits and
    separated by [s1], [s2], [s3]. *)
Definition viewBoxValue (a s1 b s2 c s3 d : jsstring) : jsstring :=
  a ++ s1 ++ b ++ s2 ++ c ++ s3 ++ d.

(** A document that opens with [<svg viewBox="..."]. *)
Definition svgViewBoxDocument (value rest : jsstring) : jsstring :=
  lit "<svg " ++ lit "viewBox=" ++ [34%N] ++ value ++ [34%N] ++ rest.

(** A host on which nothing fails for the file [path], whose text is
    [content]: the file is there and readable, a browser is found and
    starts, and every operation on a page returns. *)
Record Cooperative {world Browser Page Buffer : Type}
  (host : Host world Browser Page Buffer) (path content : jsstring) : Prop := {
  coop_exists : forall w, existsSync host path w = true;
  coop_access : forall w, fst (accessSync host path w) = Returned tt;
  coop_read : forall w, fst (readFile host path w) = Returned content;
  coop_chrome : forall w, exists p,
      In p (chromeCandidates host w) /\ existsSync host p w = true;
  coop_launch : forall p w, exists b, fst (launch host p w) = Returned b;
  coop_page : forall b w, exists page, fst (newPage host b w) = Returned page;
  coop_viewport : forall page d w, fst (setViewport host page d w) = Returned tt;
  coop_content : forall page t w, fst (setContent host page t w) = Returned tt;
  coop_screenshot : forall page o d w, exists shot,
      fst (screenshot host page o d w) = Returned shot;
  coop_write : forall out shot w, fst (writeFile host out shot w) = Returned tt;
  coop_close : forall page w, fst (closePage host page w) = Returned tt
}.

(** The size [getDimensionsFromBrowser] makes of the boxes of the page. *)
Definition measuredSize (bx : Boxes) : SVGDimensions :=
  {| width := orElse (orElse (bbox_width bx) (clientWidth bx)) (ofZ 300);
     height := orElse (orElse (bbox_height bx) (clientHeight bx)) (ofZ 300) |}.

(** The error thrown in the page when [document.querySelector('svg')]
    finds nothing. *)
Definition noSvgElement : thrown := ErrorObject [Text (lit "No SVG element found")].

(** A host that serves the text [content] for every file and on which
    nothing fails. *)
Definition servingHost (content : jsstring) (boxes : option Boxes)
  : Host unit unit unit unit :=
  {| env_CHROME_PATH := fun _ => None;
     platform := fun _ => lit "linux";
     existsSync := fun _ _ => true;
     accessSync := fun _ w => (Returned tt, w);
     readFile := fun _ w => (Returned content, w);
     writeFile := fun _ _ w => (Returned tt, w);
     launch := fun _ w => (Returned tt, w);
     connected := fun _ _ => true;
     closeBrowser := fun _ w => (Returned tt, w);
     newPage := fun _ w => (Returned tt, w);
     closePage := fun _ w => (Returned tt, w);
     setContent := fun _ _ w => (Returned tt, w);
     setViewport := fun _ _ w => (Returned tt, w);
     measureSvg := fun _ w => (Returned boxes, w);
     screenshot := fun _ _ _ w => (Returned tt, w) |}.

(* ================================================================== *)
(** * Properties *)
(* ================================================================== *)

Lemma positive_finite_truthy (x : number) :
  positive_finite x = true -> truthy (Some x) = Some x.
Proof. destruct x as [ | | |[] m e]; simpl; congruence. Qed.

(** ** Numbers *)

Lemma positive_finite_wf (x : number) : positive_finite x = true -> wf x = true.
Proof. destruct x as [ | | |[] m e]; simpl; congruence. Qed.

Lemma digits2_pos_shift (m : positive) :
  Z.pos (digits2_pos (m * 4503599627370496)) = (Z.pos (digits2_pos m) + 52)%Z.
Proof. rewrite Pos.mul_comm. cbn [Pos.mul digits2_pos]. lia. Qed.

Lemma shr_52 (m : positive) :
  iter_pos shr_1 52 (Build_shr_record (Z.pos (m * 4503599627370496)) false false)
  = Build_shr_record (Z.pos m) false false.
Proof. rewrite Pos.mul_comm. cbn [Pos.mul]. reflexivity. Qed.

Lemma shr_fexp_scaled (m : positive) (e : Z) :
  fexp prec emax (Z.pos (digits2_pos m) + e) = e ->
  shr_fexp prec emax (Z.pos (m * 4503599627370496)) (e + -52) loc_Exact
  = (Build_shr_record (Z.pos m) false false, e).
Proof.
  intros Hc. unfold shr_fexp, Zdigits2. rewrite digits2_pos_shift.
  replace (Z.pos (digits2_pos m) + 52 + (e + -52))%Z
    with (Z.pos (digits2_pos m) + e)%Z by lia.
  rewrite Hc.
  replace (e - (e + -52))%Z with 52%Z by lia.
  unfold shr_record_of_loc, shr. rewrite shr_52. f_equal. lia.
Qed.

Lemma shr_fexp_canonical (m : positive) (e : Z) :
  fexp prec emax (Z.pos (digits2_pos m) + e) = e ->
  shr_fexp prec emax (Z.pos m) e loc_Exact
  = (Build_shr_record (Z.pos m) false false, e).
Proof.
  intros Hc. unfold shr_fexp, Zdigits2. rewrite Hc, Z.sub_diag. reflexivity.
Qed.

(** Rounding a canonical mantissa and exponent changes nothing. *)
Lemma binary_round_aux_canonical (s : bool) (m : positive) (e : Z) :
  bounded prec emax m e = true ->
  binary_round_aux prec emax s (Z.pos m) e loc_Exact = S754_finite s m e.
Proof.
  unfold bounded, canonical_mantissa. intros Hx.
  apply andb_prop in Hx. destruct Hx as [Hc Hb]. apply Z.eqb_eq in Hc.
  unfold binary_round_aux. rewrite (shr_fexp_canonical _ _ Hc).
  cbn [shr_m loc_of_shr_record round_nearest_even].
  rewrite (shr_fexp_canonical _ _ Hc). cbn [shr_m]. rewrite Hb. reflexivity.
Qed.

(** [x * 1] is [x], exactly. *)
Lemma mul_one_r (x : number) : wf x = true -> mul x one = x.
Proof.
  destruct x as [s|s| |s m e]; simpl; intros Hx;
    try (rewrite xorb_false_r; reflexivity); try reflexivity.
  unfold mul, one, SFmul. rewrite xorb_false_r.
  unfold wf, valid_binary, bounded, canonical_mantissa in Hx.
  apply andb_prop in Hx. destruct Hx as [Hc Hb]. apply Z.eqb_eq in Hc.
  unfold binary_round_aux. rewrite (shr_fexp_scaled _ _ Hc).
  cbn [shr_m loc_of_shr_record round_nearest_even].
  rewrite (shr_fexp_canonical _ _ Hc). cbn [shr_m]. rewrite Hb. reflexivity.
Qed.

Lemma iter_xO_value (j k : positive) :
  Z.pos (Pos.iter xO j k) = (Z.pos j * 2 ^ Z.pos k)%Z.
Proof.
  induction k as [|k IH] using Pos.peano_ind.
  - cbn. lia.
  - rewrite Pos.iter_succ, Pos2Z.inj_succ, Z.pow_succ_r by lia.
    rewrite Pos2Z.inj_xO, IH. lia.
Qed.

Lemma iter_xO_digits (j k : positive) :
  Z.pos (digits2_pos (Pos.iter xO j k)) = (Z.pos (digits2_pos j) + Z.pos k)%Z.
Proof.
  induction k as [|k IH] using Pos.peano_ind.
  - cbn. lia.
  - rewrite Pos.iter_succ. cbn [digits2_pos]. rewrite Pos2Z.inj_succ, IH. lia.
Qed.

(** An exact multiple of a power of two, normalised. *)
Lemma binary_round_shifted (s : bool) (j k : positive) :
  bounded prec emax (Pos.iter xO j k) (Z.neg k) = true ->
  binary_round prec emax s j 0 = S754_finite s (Pos.iter xO j k) (Z.neg k).
Proof.
  intros Hb. unfold binary_round.
  pose proof Hb as Hc. unfold bounded, canonical_mantissa in Hc.
  apply andb_prop in Hc. destruct Hc as [Hc _]. apply Z.eqb_eq in Hc.
  rewrite iter_xO_digits in Hc.
  replace (Z.pos (digits2_pos j) + 0)%Z with (Z.pos (digits2_pos j) + Z.pos k + Z.neg k)%Z by lia.
  rewrite Hc. unfold shl_align. cbn [Z.sub Z.add Z.opp].
  apply binary_round_aux_canonical. exact Hb.
Qed.

Lemma round_integer (x : number) :
  wf x = true -> is_integer x = true -> round x = x.
Proof.
  destruct x as [s|s| |s m e]; try reflexivity.
  intros Hwf Hint. unfold round. unfold wf, valid_binary in Hwf.
  destruct (Z.leb_spec 0 e) as [He|He]; [reflexivity|].
  unfold is_integer in Hint. destruct (Z.leb_spec 0 e) as [|_]; [lia|].
  cbn [orb] in Hint. apply Z.eqb_eq in Hint.
  destruct e as [|k|k]; try lia.
  change (- Z.neg k)%Z with (Z.pos k) in *.
  assert (Hpow : (0 < 2 ^ Z.pos k)%Z) by (apply Z.pow_pos_nonneg; lia).
  pose proof (Z.div_mod (Z.pos m) (2 ^ Z.pos k) ltac:(lia)) as Hdm. rewrite Hint in Hdm.
  destruct (Z.pos m / 2 ^ Z.pos k)%Z as [|j|j] eqn:Ej; try lia.
  assert (Hm : m = Pos.iter xO j k).
  { apply Pos2Z.inj. rewrite iter_xO_value. lia. }
  assert (Hn : Z.shiftr (cond_Zopp s (Z.pos m) + 2 ^ (Z.pos k - 1)) (Z.pos k)
               = cond_Zopp s (Z.pos j)).
  { rewrite Z.shiftr_div_pow2 by lia.
    assert (Hhalf : (0 <= 2 ^ (Z.pos k - 1) < 2 ^ Z.pos k)%Z).
    { split; [apply Z.pow_nonneg; lia|]. apply Z.pow_lt_mono_r; lia. }
    replace (cond_Zopp s (Z.pos m)) with (cond_Zopp s (Z.pos j) * 2 ^ Z.pos k)%Z
      by (destruct s; cbn [cond_Zopp]; lia).
    rewrite Z.div_add_l by lia. rewrite Z.div_small by lia. lia. }
  rewrite Hn. subst m.
  destruct s; cbn [cond_Zopp Z.opp]; unfold ofZ, binary_normalize;
    apply binary_round_shifted; exact Hwf.
Qed.

Lemma le_refl_finite (x : number) : positive_finite x = true -> le x x = true.
Proof.
  destruct x as [ | | |[] m e]; try discriminate. intros _.
  unfold le, SFleb, SFcompare. rewrite Z.compare_refl, Pos.compare_cont_refl.
  reflexivity.
Qed.

(** ** calculateDimensions *)

(** C1. With a positive finite target width, height and scale the resolver
    compares the intrinsic aspect [intrinsic.width / intrinsic.height] with
    the target aspect [width / height]: when the intrinsic aspect is strictly
    greater the result is [(round (width * scale),
    round ((width / intrinsicAspect) * scale))]; otherwise, equal aspects
    included, it is [(round ((height * intrinsicAspect) * scale),
    round (height * scale))].  Each axis is rounded on its own, after the
    multiplication by the scale.  (It holds for every intrinsic size, the
    positive finite ones in particular.) *)
Theorem calculateDimensions_both_given (intrinsic : SVGDimensions) (w h s : number) :
  positive_finite w = true ->
  positive_finite h = true ->
  positive_finite s = true ->
  calculateDimensions intrinsic (mkSize (Some w) (Some h) (Some s)) =
    let intrinsicAspect := div (width intrinsic) (height intrinsic) in
    if gt intrinsicAspect (div w h)
    then mkDims (round (mul w s)) (round (mul (div w intrinsicAspect) s))
    else mkDims (round (mul (mul h intrinsicAspect) s)) (round (mul h s)).
Proof.
  intros Hw Hh Hs. unfold calculateDimensions. cbn [size_width size_height size_scale].
  rewrite (positive_finite_truthy _ Hw), (positive_finite_truthy _ Hh),
    (positive_finite_truthy _ Hs).
  cbv zeta.
  destruct (gt (div (width intrinsic) (height intrinsic)) (div w h)); reflexivity.
Qed.

Lemma calculateDimensions_both_given_witness :
  calculateDimensions (mkDims (ofZ 200) (ofZ 100))
    (mkSize (Some (ofZ 400)) (Some (ofZ 400)) (Some (ofZ 2)))
  = mkDims (ofZ 800) (ofZ 400).
Proof.
  rewrite (calculateDimensions_both_given (mkDims (ofZ 200) (ofZ 100))
             (ofZ 400) (ofZ 400) (ofZ 2)
             eq_refl eq_refl eq_refl).
  vm_compute. reflexivity.
Defined.

(** C5. With only a positive finite width [w] given (and a positive finite
    scale [s]) the result is [(round (w * s),
    round (w * (intrinsic.height / intrinsic.width) * s))]; with only a
    height [w] it is the symmetric
    [(round (w * (intrinsic.width / intrinsic.height) * s), round (w * s))]. *)
Theorem calculateDimensions_one_given (intrinsic : SVGDimensions) (w s : number) :
  positive_finite w = true ->
  positive_finite s = true ->
  calculateDimensions intrinsic (mkSize (Some w) None (Some s)) =
    mkDims (round (mul w s))
           (round (mul (mul w (div (height intrinsic) (width intrinsic))) s))
  /\
  calculateDimensions intrinsic (mkSize None (Some w) (Some s)) =
    mkDims (round (mul (mul w (div (width intrinsic) (height intrinsic))) s))
           (round (mul w s)).
Proof.
  intros Hw Hs. unfold calculateDimensions. cbn [size_width size_height size_scale].
  rewrite (positive_finite_truthy _ Hw), (positive_finite_truthy _ Hs).
  split; reflexivity.
Qed.

Lemma calculateDimensions_one_given_witness :
  calculateDimensions (mkDims (ofZ 200) (ofZ 100)) (mkSize (Some (ofZ 400)) None (Some (ofZ 1)))
  = mkDims (ofZ 400) (ofZ 200)
  /\
  calculateDimensions (mkDims (ofZ 200) (ofZ 100)) (mkSize None (Some (ofZ 200)) (Some (ofZ 1)))
  = mkDims (ofZ 400) (ofZ 200).
Proof.
  split.
  - rewrite (proj1 (calculateDimensions_one_given (mkDims (ofZ 200) (ofZ 100))
                      (ofZ 400) (ofZ 1) eq_refl eq_refl)).
    vm_compute. reflexivity.
  - rewrite (proj2 (calculateDimensions_one_given (mkDims (ofZ 200) (ofZ 100))
                      (ofZ 200) (ofZ 1) eq_refl eq_refl)).
    vm_compute. reflexivity.
Defined.

(** C6. With neither width nor height given, the result for a positive
    finite intrinsic size is [(round (intrinsic.width * scale),
    round (intrinsic.height * scale))], where the scale is the given
    (positive finite) one or [1] when absent; with no option at all it is
    [(round intrinsic.width, round intrinsic.height)]. *)
Theorem calculateDimensions_none_given (intrinsic : SVGDimensions) (scale : option number) :
  positive_finite (width intrinsic) = true ->
  positive_finite (height intrinsic) = true ->
  scale_admissible scale ->
  calculateDimensions intrinsic (mkSize None None scale) =
    mkDims (round (mul (width intrinsic) (scale_in_force scale)))
           (round (mul (height intrinsic) (scale_in_force scale)))
  /\
  calculateDimensions intrinsic (mkSize None None None) =
    mkDims (round (width intrinsic)) (round (height intrinsic)).
Proof.
  intros Hw Hh Hs. unfold calculateDimensions. cbn [size_width size_height size_scale].
  split.
  - destruct scale as [s|]; cbn [scale_admissible scale_in_force] in *.
    + rewrite (positive_finite_truthy _ Hs). reflexivity.
    + reflexivity.
  - cbn [truthy].
    rewrite (mul_one_r _ (positive_finite_wf _ Hw)),
      (mul_one_r _ (positive_finite_wf _ Hh)).
    reflexivity.
Qed.

Lemma calculateDimensions_none_given_witness :
  calculateDimensions (mkDims (ofZ 100) (ofZ 100)) (mkSize None None (Some (ofZ 2)))
  = mkDims (ofZ 200) (ofZ 200)
  /\
  calculateDimensions (mkDims (ofZ 100) (ofZ 100)) (mkSize None None None)
  = mkDims (ofZ 100) (ofZ 100).
Proof.
  split.
  - rewrite (proj1 (calculateDimensions_none_given (mkDims (ofZ 100) (ofZ 100))
                      (Some (ofZ 2)) eq_refl eq_refl eq_refl)).
    vm_compute. reflexivity.
  - rewrite (proj2 (calculateDimensions_none_given (mkDims (ofZ 100) (ofZ 100))
                      None eq_refl eq_refl I)).
    vm_compute. reflexivity.
Defined.

(** ** validateOptions *)

Lemma notPositiveFinite_some (o : option number) (x : number) :
  notPositiveFinite o = Some x <-> rejectedPositive o x.
Proof.
  unfold notPositiveFinite, rejectedPositive. destruct o as [y|].
  - split.
    + destruct (le y zero) eqn:Hle; destruct (isFinite y) eqn:Hfin; cbn [orb negb];
        intros H; try discriminate; injection H as <-; auto.
    + intros [H1 H2]. injection H1 as <-.
      destruct H2 as [H2|H2]; rewrite H2; cbn [negb];
        [reflexivity | rewrite orb_true_r; reflexivity].
  - split; [discriminate | intros [H _]; discriminate].
Qed.

Lemma notPositiveFinite_none (o : option number) :
  notPositiveFinite o = None <-> acceptedPositive o.
Proof.
  unfold acceptedPositive. split.
  - intros H x Hx. apply notPositiveFinite_some in Hx. congruence.
  - intros H. destruct (notPositiveFinite o) as [x|] eqn:E; [|reflexivity].
    apply notPositiveFinite_some in E. destruct (H x E).
Qed.

Lemma outOfRange_some (o : option number) (x : number) :
  outOfRange o = Some x <-> rejectedQuality o x.
Proof.
  unfold outOfRange, rejectedQuality. destruct o as [y|].
  - split.
    + destruct (lt y zero) eqn:Hlt; destruct (gt y hundred) eqn:Hgt; cbn [orb];
        intros H; try discriminate; injection H as <-; auto.
    + intros [H1 H2]. injection H1 as <-.
      destruct H2 as [H2|H2]; rewrite H2; cbn [negb];
        [reflexivity | rewrite orb_true_r; reflexivity].
  - split; [discriminate | intros [H _]; discriminate].
Qed.

Lemma outOfRange_none (o : option number) :
  outOfRange o = None <-> acceptedQuality o.
Proof.
  unfold acceptedQuality. split.
  - intros H x Hx. apply outOfRange_some in Hx. congruence.
  - intros H. destruct (outOfRange o) as [x|] eqn:E; [|reflexivity].
    apply outOfRange_some in E. destruct (H x E).
Qed.

(** C7. The validator fails exactly when a present field is out of range
    (width, height or scale [<= 0] or not finite; quality [< 0] or [> 100]).
    The fields are checked in the order width, height, scale, quality, and
    the first one out of range decides the error: an [Error] whose message
    is [Invalid width: x. Must be a positive number.] (likewise for height
    and scale) or [Invalid quality: x. Must be between 0 and 100.], [x]
    being the value of that field.  The options [{width:10, height:20, scale:2,
    quality:80}] pass. *)
Theorem validateOptions_checks (o : NumericOptions) :
  (forall x, rejectedPositive (num_width o) x ->
     validateOptions o = Threw (ErrorObject [Text (lit "Invalid width: "); Num x;
                                    Text (lit ". Must be a positive number.")]))
  /\
  (acceptedPositive (num_width o) ->
   forall x, rejectedPositive (num_height o) x ->
     validateOptions o = Threw (ErrorObject [Text (lit "Invalid height: "); Num x;
                                    Text (lit ". Must be a positive number.")]))
  /\
  (acceptedPositive (num_width o) -> acceptedPositive (num_height o) ->
   forall x, rejectedPositive (num_scale o) x ->
     validateOptions o = Threw (ErrorObject [Text (lit "Invalid scale: "); Num x;
                                    Text (lit ". Must be a positive number.")]))
  /\
  (acceptedPositive (num_width o) -> acceptedPositive (num_height o) ->
   acceptedPositive (num_scale o) ->
   forall x, rejectedQuality (num_quality o) x ->
     validateOptions o = Threw (ErrorObject [Text (lit "Invalid quality: "); Num x;
                                    Text (lit ". Must be between 0 and 100.")]))
  /\
  ((exists e, validateOptions o = Threw e) <->
   ((exists x, rejectedPositive (num_width o) x)
    \/ (exists x, rejectedPositive (num_height o) x)
    \/ (exists x, rejectedPositive (num_scale o) x)
    \/ (exists x, rejectedQuality (num_quality o) x)))
  /\
  validateOptions (mkNumeric (Some (ofZ 10)) (Some (ofZ 20)) (Some (ofZ 2)) (Some (ofZ 80)))
  = Returned tt.
Proof.
  unfold validateOptions.
  repeat split.
  - intros x Hx. apply notPositiveFinite_some in Hx. rewrite Hx. reflexivity.
  - intros Hw x Hx. apply notPositiveFinite_none in Hw.
    apply notPositiveFinite_some in Hx. rewrite Hw, Hx. reflexivity.
  - intros Hw Hh x Hx. apply notPositiveFinite_none in Hw, Hh.
    apply notPositiveFinite_some in Hx. rewrite Hw, Hh, Hx. reflexivity.
  - intros Hw Hh Hs x Hx. apply notPositiveFinite_none in Hw, Hh, Hs.
    apply outOfRange_some in Hx. rewrite Hw, Hh, Hs, Hx. reflexivity.
  - intros [e He].
    destruct (notPositiveFinite (num_width o)) as [x|] eqn:Ew.
    { left. exists x. now apply notPositiveFinite_some. }
    destruct (notPositiveFinite (num_height o)) as [x|] eqn:Eh.
    { right; left. exists x. now apply notPositiveFinite_some. }
    destruct (notPositiveFinite (num_scale o)) as [x|] eqn:Es.
    { right; right; left. exists x. now apply notPositiveFinite_some. }
    destruct (outOfRange (num_quality o)) as [x|] eqn:Eq.
    { right; right; right. exists x. now apply outOfRange_some. }
    discriminate.
  - intros H.
    destruct (notPositiveFinite (num_width o)) as [x|] eqn:Ew; [eexists; reflexivity|].
    destruct (notPositiveFinite (num_height o)) as [x|] eqn:Eh; [eexists; reflexivity|].
    destruct (notPositiveFinite (num_scale o)) as [x|] eqn:Es; [eexists; reflexivity|].
    destruct (outOfRange (num_quality o)) as [x|] eqn:Eq; [eexists; reflexivity|].
    exfalso.
    apply notPositiveFinite_none in Ew, Eh, Es. apply outOfRange_none in Eq.
    destruct H as [[x Hx]|[[x Hx]|[[x Hx]|[x Hx]]]];
      [apply (Ew x Hx) | apply (Eh x Hx) | apply (Es x Hx) | apply (Eq x Hx)].
Qed.

(** [validate({width:-1, quality:150})] reports the width, with the message
    [Invalid width: -1. Must be a positive number.], and
    [validate({quality:150})] the quality. *)
Lemma validateOptions_checks_witness :
  validateOptions (mkNumeric (Some (ofZ (-1))) None None (Some (ofZ 150)))
  = Threw (ErrorObject [Text (lit "Invalid width: "); Num (ofZ (-1));
                                    Text (lit ". Must be a positive number.")])
  /\
  validateOptions (mkNumeric None None None (Some (ofZ 150)))
  = Threw (ErrorObject [Text (lit "Invalid quality: "); Num (ofZ 150);
                                    Text (lit ". Must be between 0 and 100.")]).
Proof.
  split.
  - apply (proj1 (validateOptions_checks
                    (mkNumeric (Some (ofZ (-1))) None None (Some (ofZ 150))))).
    split; [reflexivity | left; reflexivity].
  - apply (proj1 (proj2 (proj2 (proj2 (validateOptions_checks
                    (mkNumeric None None None (Some (ofZ 150)))))))).
    + intros x [H _]; discriminate.
    + intros x [H _]; discriminate.
    + intros x [H _]; discriminate.
    + split; [reflexivity | right; reflexivity].
Defined.

(** ** normalizeBackgroundColor on the empty string *)


(** ** SVGConverter.convert *)

(** Closes the case of one stage: the result and the state are read off
    the run. *)
Ltac stage_outcome :=
  do 2 eexists; split; [reflexivity|]; split; [reflexivity|];
  cbn [success error dimensions];
  first [reflexivity | eexists; split; reflexivity].

Section ConvertProperties.

Variables world Browser Page Buffer : Type.
Variable host : Host world Browser Page Buffer.

Lemma bind_returned {A B : Type} (c : M world Browser A) (f : A -> M world Browser B)
  (s s' : state world Browser) (b : B) :
  bind c f s = (Returned b, s') ->
  exists a s1, c s = (Returned a, s1) /\ f a s1 = (Returned b, s').
Proof.
  unfold bind. destruct (c s) as [[a|e] s1]; intros H.
  - exists a, s1. split; [reflexivity | exact H].
  - discriminate.
Qed.

(** C9 (amended). [convert] never lets an exception out: it always returns
    a result, which has exactly one of two shapes and is fixed by the first
    stage that fails.  What the check of the input file, the check of the
    options, the check of the background, or the rendering and writing
    throws is returned as the failure result: [success = false], the output
    path asked for (or the empty string), the size 0 x 0, and the message of
    what was thrown.  The size extraction is the exception: what
    [parseSVGDimensions] throws is dropped and the size is measured in the
    browser instead, so that only a failure of the measurement is returned
    as a failure.  When no other stage fails the result is the success
    result: [success = true], the path of [generateOutputPath], the
    dimensions [calculateDimensions] resolves from the size obtained -- the
    one read in the file, else the one measured -- and no error. *)
Theorem convert_always_returns (options : ConversionOptions) (s : state world Browser) :
  let path := inputPath options in
  let render (obtained : SVGDimensions) (s3 : state world Browser) :=
    match normalizeBackgroundColor (background options) with
    | Threw e => (failureOutcome options e, s3)
    | Returned color =>
        match convertWithPuppeteer host path
                (generateOutputPath path (outputPath options))
                (calculateDimensions obtained
                   (mkSize (opt_width options) (opt_height options)
                      (opt_scale options)))
                color (quality options) s3 with
        | (Threw e, s4) => (failureOutcome options e, s4)
        | (Returned _, s4) => (successOutcome options obtained, s4)
        end
    end in
  exists r s',
    convert host options s = (Returned r, s')
    /\ (r, s') =
       match validateInputFile host path s with
       | (Threw e, s1) => (failureOutcome options e, s1)
       | (Returned _, s1) =>
           match validateOptions
                   (mkNumeric (opt_width options) (opt_height options)
                      (opt_scale options) (quality options)) with
           | Threw e => (failureOutcome options e, s1)
           | Returned _ =>
               match parseSVGDimensions host path s1 with
               | (Returned inFile, s2) => render inFile s2
               | (Threw _, s2) =>
                   match getDimensionsFromBrowser host path s2 with
                   | (Threw e, s3) => (failureOutcome options e, s3)
                   | (Returned measured, s3) => render measured s3
                   end
               end
           end
       end
    /\ (if success r
        then error r = None
        else exists message, error r = Some message
                             /\ dimensions r = mkDims zero zero).
Proof.
  intros path render. subst path render.
  unfold convert, convertSteps, try_catch, bind, pure, ret, failureResult,
    failureOutcome, successOutcome, reportedMessage, error_text.
  destruct (validateInputFile host (inputPath options) s) as [[u|e] s1];
    [|stage_outcome].
  destruct (validateOptions _) as [u'|e]; [|stage_outcome].
  destruct (parseSVGDimensions host (inputPath options) s1) as [[inFile|e] s2];
    [|destruct (getDimensionsFromBrowser host (inputPath options) s2)
        as [[measured|e'] s3]; [|stage_outcome]];
    (destruct (normalizeBackgroundColor (background options)) as [color|e0];
     [|stage_outcome]);
    match goal with
    | |- context [convertWithPuppeteer ?h ?p ?o ?d ?c ?q ?st] =>
        destruct (convertWithPuppeteer h p o d c q st) as [[u2|e1] s4]
    end; stage_outcome.
Qed.

End ConvertProperties.

(** The claim of C9 as worded fails for the size extraction.  On the text
    [<svg><circle r='4'/></svg>] the extractor throws, yet [convert] does
    not report a failure: the browser measures 8 x 8 and the conversion
    succeeds at that size. *)
Lemma convert_hides_extractor_failure :
  parseSVGDimensions
    (servingHost (lit "<svg><circle r='4'/></svg>")
       (Some (mkBoxes (ofZ 8) (ofZ 8) zero zero)))
    (lit "icon.svg") (mkState tt None)
  = (Threw (ErrorObject dimensionsUnavailable), mkState tt None)
  /\ exists r s',
       convert
         (servingHost (lit "<svg><circle r='4'/></svg>")
            (Some (mkBoxes (ofZ 8) (ofZ 8) zero zero)))
         iconRequest (mkState tt None)
       = (Returned r, s')
       /\ success r = true /\ error r = None
       /\ dimensions r = mkDims (ofZ 8) (ofZ 8).
Proof.
  split; [vm_compute; reflexivity|].
  eexists. eexists. split; [vm_compute; reflexivity|].
  repeat split; vm_compute; reflexivity.
Qed.

(** ** Regular expressions: the colour pattern *)


(** Case analysis on comparisons of code units. *)
Ltac crunchN :=
  repeat match goal with
  | H : context [N.leb ?a ?b] |- _ => destruct (N.leb_spec a b); cbn [andb orb negb xorb] in *
  | H : context [N.eqb ?a ?b] |- _ => destruct (N.eqb_spec a b); cbn [andb orb negb xorb] in *
  | |- context [N.leb ?a ?b] => destruct (N.leb_spec a b); cbn [andb orb negb xorb] in *
  | |- context [N.eqb ?a ?b] => destruct (N.eqb_spec a b); cbn [andb orb negb xorb] in *
  end; try reflexivity; try discriminate; try lia.

Lemma same_char_plain (ic : bool) (a c : N) :
  is_lower a = false -> is_upper a = false -> same_char ic a c = (a =? c)%N.
Proof.
  unfold same_char, swapcase, is_lower, is_upper. intros Hl Hu.
  destruct ic; cbn [andb]; [|apply orb_false_r].
  crunchN.
Qed.





Lemma same_char_letter (lower c : N) :
  is_lower lower = true -> same_char true lower c = letter_is lower c.
Proof.
  unfold same_char, letter_is, swapcase, is_lower, is_upper. intros Hl.
  cbn [andb]. crunchN.
Qed.

Lemma forallb_ext_eq {A : Type} (f g : A -> bool) (l : list A) :
  (forall x, f x = g x) -> forallb f l = forallb g l.
Proof. intros H. induction l as [|x l IH]; cbn; [reflexivity|]. rewrite H, IH. reflexivity. Qed.

Section EndOfSubject.
Variable R : Type.
Variable k : jsstring -> capture_list -> option R.
Hypothesis k_end : forall s c, is_some (k s c) = is_nil s.
Variable input : jsstring.


End EndOfSubject.

Section ArgumentList.
Variable R : Type.
Variable k : jsstring -> capture_list -> option R.
Hypothesis k_end : forall s c, is_some (k s c) = is_nil s.
Variable input : jsstring.



End ArgumentList.



Lemma run_Seq {R : Type} ic input r1 r2 s c (k : jsstring -> capture_list -> option R) :
  run ic input (Seq r1 r2) s c k = run ic input r1 s c (fun s1 c1 => run ic input r2 s1 c1 k).
Proof. reflexivity. Qed.





(** ** normalizeBackgroundColor *)





(** ** Regular expressions: what a successful run has matched *)

Section MatcherSoundness.
Variable ic : bool.
Variable input : jsstring.

Lemma rep_sound {R : Type} (cc : charclass) (k : jsstring -> option R) :
  forall (s : jsstring) (min : nat) (max : option nat) (res : R),
    rep ic cc min max s k = Some res ->
    exists taken s',
      s = taken ++ s' /\ forallb (class_has ic cc) taken = true
      /\ min <= length taken
      /\ match max with Some n => length taken <= n | None => True end
      /\ k s' = Some res.
Proof.
  induction s as [|x s IH]; intros min max res H.
  - exists [], []. cbn [rep] in H.
    destruct max as [[|n]|]; destruct min as [|m]; try discriminate;
      repeat split; cbn; auto; lia.
  - cbn [rep] in H.
    assert (Hstop : match min with O => k (x :: s) | S _ => None end = Some res ->
              exists taken s', x :: s = taken ++ s'
                /\ forallb (class_has ic cc) taken = true
                /\ min <= length taken
                /\ match max with Some n => length taken <= n | None => True end
                /\ k s' = Some res).
    { destruct min; [|discriminate]. intros Hk. exists [], (x :: s).
      repeat split; cbn; auto; destruct max; auto; lia. }
    destruct max as [[|n]|].
    + auto.
    + destruct (class_has ic cc x) eqn:Hx; [|auto].
      destruct (rep ic cc (pred min) (option_map pred (Some (S n))) s k) as [r1|] eqn:Hrec;
        [|auto].
      injection H as <-. apply IH in Hrec.
      destruct Hrec as (taken & s' & -> & Hall & Hmin & Hmax & Hk).
      exists (x :: taken), s'. cbn [forallb length app option_map pred] in *.
      rewrite Hx, Hall. repeat split; auto; lia.
    + destruct (class_has ic cc x) eqn:Hx; [|auto].
      destruct (rep ic cc (pred min) (option_map pred None) s k) as [r1|] eqn:Hrec;
        [|auto].
      injection H as <-. apply IH in Hrec.
      destruct Hrec as (taken & s' & -> & Hall & Hmin & Hmax & Hk).
      exists (x :: taken), s'. cbn [forallb length app] in *.
      rewrite Hx, Hall. repeat split; auto; lia.
Qed.

Theorem run_sound {R : Type} (r : regex) :
  forall (s : jsstring) (c : capture_list)
         (k : jsstring -> capture_list -> option R) (res : R),
    run ic input r s c k = Some res ->
    exists s' c', matches ic input r s c s' c' /\ k s' c' = Some res.
Proof.
  induction r as [ |a|cc|r1 IH1 r2 IH2|r1 IH1 r2 IH2|r1 IH1|min max cc|n r1 IH1| | ];
    intros s c k res H; cbn [run] in H.
  - exists s, c. split; [constructor | exact H].
  - destruct s as [|x s]; [discriminate|].
    destruct (same_char ic a x) eqn:Hx; [|discriminate].
    exists s, c. split; [constructor; exact Hx | exact H].
  - destruct s as [|x s]; [discriminate|].
    destruct (class_has ic cc x) eqn:Hx; [|discriminate].
    exists s, c. split; [constructor; exact Hx | exact H].
  - apply IH1 in H. destruct H as (s1 & c1 & H1 & H).
    apply IH2 in H. destruct H as (s2 & c2 & H2 & H).
    exists s2, c2. split; [econstructor; eassumption | exact H].
  - destruct (run ic input r1 s c k) as [res1|] eqn:E1.
    + injection H as <-. apply IH1 in E1. destruct E1 as (s1 & c1 & H1 & Hk).
      exists s1, c1. split; [apply M_AltL; exact H1 | exact Hk].
    + apply IH2 in H. destruct H as (s1 & c1 & H1 & Hk).
      exists s1, c1. split; [apply M_AltR; exact H1 | exact Hk].
  - match type of H with
    | match ?X with _ => _ end = _ => destruct X as [res1|] eqn:E1
    end.
    + injection H as <-. apply IH1 in E1. destruct E1 as (s1 & c1 & H1 & Hk).
      destruct (Nat.eqb_spec (length s1) (length s)) as [|Hne]; [discriminate|].
      exists s1, c1. split; [apply M_OptSome; assumption | exact Hk].
    + exists s, c. split; [apply M_OptNone | exact H].
  - apply rep_sound in H. destruct H as (taken & s' & -> & Hall & Hmin & Hmax & Hk).
    exists s', c. split; [|exact Hk].
    apply M_Rep; auto.
  - apply IH1 in H. destruct H as (s1 & c1 & H1 & Hk).
    exists s1, ((n, firstn (length s - length s1) s) :: c1).
    split; [constructor; exact H1 | exact Hk].
  - destruct (Nat.eqb_spec (length s) (length input)) as [Hlen|]; [|discriminate].
    exists s, c. split; [constructor; exact Hlen | exact H].
  - destruct s as [|x s]; [|discriminate].
    exists [], c. split; [constructor | exact H].
Qed.

Lemma search_sound (r : regex) :
  forall (s : jsstring) (i : nat) (m : match_result),
    search ic input r i s = Some m ->
    exists pre s0,
      s = pre ++ s0 /\ index m = i + length pre
      /\ matches ic input r s0 [] (after m) (groups m)
      /\ matched m = firstn (length s0 - length (after m)) s0.
Proof.
  induction s as [|x s IH]; intros i m H; cbn [search] in H.
  - destruct (match_at ic input r []) as [[s1 c1]|] eqn:E; [|discriminate].
    injection H as <-. unfold match_at in E. apply run_sound in E.
    destruct E as (s' & c' & Hm & [= <- <-]).
    exists [], []. cbn. repeat split; auto.
  - destruct (match_at ic input r (x :: s)) as [[s1 c1]|] eqn:E.
    + injection H as <-. unfold match_at in E. apply run_sound in E.
      destruct E as (s' & c' & Hm & [= <- <-]).
      exists [], (x :: s). cbn [app length index after groups matched].
      repeat split; auto.
    + apply IH in H. destruct H as (pre & s0 & -> & Hi & Hm & Hmatched).
      exists (x :: pre), s0. cbn [app length]. repeat split; auto. lia.
Qed.

Lemma matches_Empty_inv s c s' c' :
  matches ic input Empty s c s' c' -> s' = s /\ c' = c.
Proof. inversion 1; subst; auto. Qed.

Lemma matches_Char_inv a s c s' c' :
  matches ic input (Char a) s c s' c' ->
  exists x, s = x :: s' /\ c' = c /\ same_char ic a x = true.
Proof. inversion 1; subst; eauto. Qed.

Lemma matches_Class_inv cc s c s' c' :
  matches ic input (Class cc) s c s' c' ->
  exists x, s = x :: s' /\ c' = c /\ class_has ic cc x = true.
Proof. inversion 1; subst; eauto. Qed.

Lemma matches_Seq_inv r1 r2 s c s2 c2 :
  matches ic input (Seq r1 r2) s c s2 c2 ->
  exists s1 c1, matches ic input r1 s c s1 c1 /\ matches ic input r2 s1 c1 s2 c2.
Proof. inversion 1; subst; eauto. Qed.

Lemma matches_Alt_inv r1 r2 s c s1 c1 :
  matches ic input (Alt r1 r2) s c s1 c1 ->
  matches ic input r1 s c s1 c1 \/ matches ic input r2 s c s1 c1.
Proof. inversion 1; subst; auto. Qed.

Lemma matches_Opt_inv r s c s1 c1 :
  matches ic input (Opt r) s c s1 c1 ->
  (matches ic input r s c s1 c1 /\ length s1 <> length s) \/ (s1 = s /\ c1 = c).
Proof. inversion 1; subst; auto. Qed.

Lemma matches_Rep_inv min max cc s c s' c' :
  matches ic input (Rep min max cc) s c s' c' ->
  exists taken,
    s = taken ++ s' /\ c' = c /\ forallb (class_has ic cc) taken = true
    /\ min <= length taken
    /\ match max with Some n => length taken <= n | None => True end.
Proof. inversion 1; subst. exists taken. auto. Qed.

Lemma matches_Group_inv n r s c s1 c' :
  matches ic input (Group n r) s c s1 c' ->
  exists c1, matches ic input r s c s1 c1 /\ c' = (n, firstn (length s - length s1) s) :: c1.
Proof. inversion 1; subst; eauto. Qed.

End MatcherSoundness.

(** ** The text captured for a width or a height *)

Lemma firstn_prefix {A : Type} (l l1 l2 : list A) :
  l = l1 ++ l2 -> firstn (length l - length l2) l = l1.
Proof.
  intros ->. rewrite length_app.
  replace (length l1 + length l2 - length l2) with (length l1 + 0) by lia.
  rewrite firstn_app_2. cbn. apply app_nil_r.
Qed.

Lemma digitClass_has (ic : bool) (c : N) : class_has ic digitClass c = is_digit c.
Proof. unfold class_has, digitClass. cbn. apply orb_false_r. Qed.

Lemma forallb_digitClass (ic : bool) (l : jsstring) :
  forallb (class_has ic digitClass) l = forallb is_digit l.
Proof. induction l as [|x l IH]; cbn [forallb]; [reflexivity|]. rewrite digitClass_has, IH. reflexivity. Qed.

Lemma is_digit_not_space (c : N) : is_digit c = true -> is_space c = false.
Proof. unfold is_digit, is_space. intros H. crunchN. Qed.

Lemma span_digits_all (d rest : jsstring) :
  forallb is_digit d = true ->
  match rest with c :: _ => is_digit c = false | [] => True end ->
  span_digits (d ++ rest) = (d, rest).
Proof.
  intros Hd Hrest. induction d as [|x d IH]; cbn [app span_digits].
  - destruct rest as [|c rest]; [reflexivity|]. cbn [span_digits]. rewrite Hrest. reflexivity.
  - cbn [forallb] in Hd. apply andb_prop in Hd. destruct Hd as [Hx Hd].
    rewrite Hx, (IH Hd). reflexivity.
Qed.

(** The text captured for a width or height, read by [parseFloat]. *)
Lemma parseFloat_decimal (ip fp : jsstring) :
  ip <> [] -> forallb is_digit ip = true -> forallb is_digit fp = true ->
  parseFloat (ip ++ fraction fp)
  = decimal false (digits_value (ip ++ fp)) (- Z.of_nat (length fp)).
Proof.
  intros Hne Hip Hfp. destruct ip as [|d ip]; [congruence|]. clear Hne.
  pose proof Hip as Hd. cbn [forallb] in Hd. apply andb_prop in Hd. destruct Hd as [Hd _].
  unfold parseFloat. cbn [app drop_space]. rewrite (is_digit_not_space _ Hd).
  assert (H43 : (d =? 43)%N = false) by (unfold is_digit in Hd; crunchN).
  assert (H45 : (d =? 45)%N = false) by (unfold is_digit in Hd; crunchN).
  rewrite H43, H45. unfold parse_unsigned.
  assert (Hinf : startsWith (lit "Infinity") (d :: ip ++ fraction fp) = false).
  { cbn [lit List.map list_ascii_of_string startsWith]. 
    replace (N_of_ascii "I" =? d)%N with false; [reflexivity|].
    symmetry. change (N_of_ascii "I") with 73%N. unfold is_digit in Hd. crunchN. }
  rewrite Hinf.
  change (d :: ip ++ fraction fp) with ((d :: ip) ++ fraction fp).
  destruct fp as [|f fp].
  - cbn [fraction]. rewrite (span_digits_all (d :: ip) [] Hip I).
    cbn [exponent_part length Z.of_nat]. reflexivity.
  - cbn [fraction]. rewrite (span_digits_all (d :: ip) (46%N :: f :: fp) Hip eq_refl).
    cbn [N.eqb Pos.eqb].
    rewrite <- (app_nil_r (f :: fp)) at 1. rewrite (span_digits_all (f :: fp) [] Hfp I).
    cbn [exponent_part]. reflexivity.
Qed.

Lemma iter_pos_invariant {A : Type} (P : A -> Prop) (f : A -> A) :
  (forall x, P x -> P (f x)) -> forall n x, P x -> P (iter_pos f n x).
Proof.
  intros Hf. induction n as [n IH|n IH|]; intros x Hx; cbn [iter_pos]; auto.
Qed.

Lemma shr_1_nonneg (mrs : shr_record) : (0 <= shr_m mrs)%Z -> (0 <= shr_m (shr_1 mrs))%Z.
Proof.
  destruct mrs as [m r s]. cbn [shr_m]. intros Hm.
  destruct m as [|p|p]; [cbn; lia | | lia].
  destruct p; cbn; lia.
Qed.

Lemma shr_fexp_nonneg (m e : Z) (l : location) :
  (0 <= m)%Z -> (0 <= shr_m (fst (shr_fexp prec emax m e l)))%Z.
Proof.
  intros Hm. unfold shr_fexp, shr.
  assert (H0 : (0 <= shr_m (shr_record_of_loc m l))%Z)
    by (destruct l as [|[]]; cbn; exact Hm).
  destruct (fexp prec emax (Zdigits2 m + e) - e)%Z as [|p|p]; cbn [fst]; auto.
  apply iter_pos_invariant; [apply shr_1_nonneg | exact H0].
Qed.

Lemma round_nearest_even_nonneg (m : Z) (l : location) :
  (0 <= m)%Z -> (0 <= round_nearest_even m l)%Z.
Proof.
  intros Hm. destruct l as [|[]]; cbn [round_nearest_even]; try lia.
  destruct (Z.even m); lia.
Qed.

Lemma binary_round_aux_sign (s : bool) (m e : Z) (l : location) :
  (0 <= m)%Z -> sign_is s (binary_round_aux prec emax s m e l).
Proof.
  intros Hm. unfold binary_round_aux.
  pose proof (shr_fexp_nonneg m e l Hm) as H1.
  destruct (shr_fexp prec emax m e l) as [mrs' e']. cbn [fst] in H1.
  pose proof (shr_fexp_nonneg _ e' loc_Exact
                (round_nearest_even_nonneg _ (loc_of_shr_record mrs') H1)) as H2.
  destruct (shr_fexp prec emax
              (round_nearest_even (shr_m mrs') (loc_of_shr_record mrs')) e' loc_Exact)
    as [mrs'' e'']. cbn [fst] in H2.
  destruct (shr_m mrs'') as [|p|p]; [reflexivity | | lia].
  destruct (e'' <=? emax - prec)%Z; reflexivity.
Qed.

Lemma SFdiv_core_nonneg (m1 e1 m2 e2 : Z) :
  (0 <= m1)%Z -> (0 < m2)%Z ->
  (0 <= fst (fst (SFdiv_core_binary prec emax m1 e1 m2 e2)))%Z.
Proof.
  intros H1 H2. unfold SFdiv_core_binary.
  set (s := (e1 - e2 - _)%Z).
  set (a := match s with Z0 => m1 | Z.pos _ => Z.shiftl m1 s | Z.neg _ => 0%Z end).
  assert (Ha : (0 <= a)%Z).
  { unfold a. destruct s; try lia. apply Z.shiftl_nonneg. exact H1. }
  assert (Hq : fst (Z.div_eucl a m2) = (a / m2)%Z) by reflexivity.
  destruct (Z.div_eucl a m2) as [q0 r0]. cbn [fst] in *. subst q0.
  apply Z.div_pos; assumption.
Qed.

Lemma decimal_sign (neg : bool) (n e10 : Z) :
  (0 <= n)%Z -> sign_is neg (decimal neg n e10).
Proof.
  intros Hn. unfold decimal. destruct n as [|p|p]; [reflexivity | | lia].
  destruct (Z.leb_spec 0 e10) as [He|He].
  - unfold binary_round.
    destruct (shl_align (p * Z.to_pos (10 ^ e10)) 0
                (fexp prec emax (Z.pos (digits2_pos (p * Z.to_pos (10 ^ e10))) + 0)))
      as [mz ez].
    apply binary_round_aux_sign. lia.
  - pose proof (SFdiv_core_nonneg (Z.pos p) 0 (10 ^ (- e10)) 0) as Hq.
    destruct (SFdiv_core_binary prec emax (Z.pos p) 0 (10 ^ (- e10)) 0) as [[q e] l].
    apply binary_round_aux_sign. cbn [fst] in Hq. apply Hq; [lia|].
    apply Z.pow_pos_nonneg; lia.
Qed.

Lemma digits_value_nonneg (d : jsstring) :
  forallb is_digit d = true -> (0 <= digits_value d)%Z.
Proof.
  unfold digits_value.
  assert (H : forall acc, (0 <= acc)%Z -> forallb is_digit d = true ->
            (0 <= fold_left (fun a c => 10 * a + (Z.of_N c - 48)) d acc)%Z).
  { induction d as [|x d IH]; intros acc Hacc Hd; cbn [fold_left]; [exact Hacc|].
    cbn [forallb] in Hd. apply andb_prop in Hd. destruct Hd as [Hx Hd].
    apply IH; [|exact Hd]. unfold is_digit in Hx.
    apply andb_prop in Hx. destruct Hx as [Hx _]. apply N.leb_le in Hx. lia. }
  apply H. lia.
Qed.

(** ** parseSVGDimensions *)

Lemma group_text_capture (n : nat) (m : match_result) (t : jsstring) :
  capture n (groups m) = Some t -> group_text n m = t.
Proof. unfold group_text. intros ->. reflexivity. Qed.

Section ExtractorProperties.

Variables world Browser Page Buffer : Type.
Variable host : Host world Browser Page Buffer.

(** Once the file is read, the extractor is [dimensionsOfContent]. *)
Lemma parseSVGDimensions_reads (svgPath svg : jsstring) (s : state world Browser)
  (w' : world) :
  readFile host svgPath (outside s) = (Returned svg, w') ->
  parseSVGDimensions host svgPath s
  = (dimensionsOfContent svg, mkState w' (browser s)).
Proof.
  intros H. unfold parseSVGDimensions, bind, io, pure. rewrite H. reflexivity.
Qed.

(** C4 (amended). The extractor tries, in this order: (1) the width and the
    height attribute; when both are found the size is the pair of their
    numbers (the unit is dropped), and when one is missing the step does not
    apply; (2) a viewBox attribute whose value, cut at every run of white
    space and commas, gives exactly four pieces -- numeric or not, and an
    empty piece counts, as a leading or trailing separator produces -- for
    which the size is [(parseFloat p2 - parseFloat p0,
    parseFloat p3 - parseFloat p1)]; (3) otherwise it fails with the
    dimensions-unavailable error. *)
Theorem parseSVGDimensions_order (svgPath svg : jsstring) (s : state world Browser)
  (w' : world) :
  readFile host svgPath (outside s) = (Returned svg, w') ->
  parseSVGDimensions host svgPath s
  = (match exec widthPattern svg, exec heightPattern svg with
     | Some wm, Some hm =>
         Returned (mkDims (parseFloat (group_text 1 wm)) (parseFloat (group_text 1 hm)))
     | _, _ =>
         match exec viewBoxPattern svg with
         | Some vm =>
             match split separatorPattern (group_text 1 vm) with
             | [p0; p1; p2; p3] =>
                 Returned (mkDims (sub (parseFloat p2) (parseFloat p0))
                                  (sub (parseFloat p3) (parseFloat p1)))
             | _ => throwError dimensionsUnavailable
             end
         | None => throwError dimensionsUnavailable
         end
     end,
     mkState w' (browser s)).
Proof.
  intros Hread. rewrite (parseSVGDimensions_reads _ _ _ _ Hread). f_equal.
  unfold dimensionsOfContent.
  assert (Hvb :
    match exec viewBoxPattern svg with
    | Some vm =>
        let values := List.map parseFloat (split separatorPattern (group_text 1 vm)) in
        if Nat.eqb (length values) 4
        then Returned {| width := sub (nth 2 values NaN) (nth 0 values NaN);
                         height := sub (nth 3 values NaN) (nth 1 values NaN) |}
        else throwError dimensionsUnavailable
    | None => throwError dimensionsUnavailable
    end
    = match exec viewBoxPattern svg with
      | Some vm =>
          match split separatorPattern (group_text 1 vm) with
          | [p0; p1; p2; p3] =>
              Returned (mkDims (sub (parseFloat p2) (parseFloat p0))
                               (sub (parseFloat p3) (parseFloat p1)))
          | _ => throwError dimensionsUnavailable
          end
      | None => throwError dimensionsUnavailable
      end).
  { destruct (exec viewBoxPattern svg) as [vm|]; [|reflexivity].
    destruct (split separatorPattern (group_text 1 vm))
      as [|p0 [|p1 [|p2 [|p3 [|p4 l]]]]]; reflexivity. }
  destruct (exec widthPattern svg) as [wm|];
    destruct (exec heightPattern svg) as [hm|]; try reflexivity; exact Hvb.
Qed.

End ExtractorProperties.

(** Example of the extractor on [<svg viewBox="0 0 200 150">]. *)
Lemma parseSVGDimensions_order_witness :
  parseSVGDimensions textHost (lit "icon.svg")
    (mkState (svgWithViewBox "0 0 200 150") None)
  = (Returned (mkDims (ofZ 200) (ofZ 150)),
     mkState (svgWithViewBox "0 0 200 150") None).
Proof.
  rewrite (parseSVGDimensions_order _ _ _ _ textHost (lit "icon.svg")
             (svgWithViewBox "0 0 200 150")
             (mkState (svgWithViewBox "0 0 200 150") None)
             (svgWithViewBox "0 0 200 150") eq_refl).
  vm_compute. reflexivity.
Defined.

(** The claim of C3 as worded fails: [<svg width="0" height="0">] yields the
    size (0, 0), a viewBox of four words yields (NaN, NaN), and the viewBox
    [10 10 5 5] yields (-5, -5). *)
Lemma parseSVGDimensions_size_not_positive :
  parseSVGDimensions textHost (lit "icon.svg") (mkState (svgWithSize "0" "0") None)
  = (Returned (mkDims zero zero), mkState (svgWithSize "0" "0") None)
  /\ positive_finite zero = false
  /\ parseSVGDimensions textHost (lit "icon.svg")
       (mkState (svgWithViewBox "a b c d") None)
     = (Returned (mkDims NaN NaN), mkState (svgWithViewBox "a b c d") None)
  /\ positive_finite NaN = false
  /\ parseSVGDimensions textHost (lit "icon.svg")
       (mkState (svgWithViewBox "10 10 5 5") None)
     = (Returned (mkDims (ofZ (-5)) (ofZ (-5))),
        mkState (svgWithViewBox "10 10 5 5") None)
  /\ positive_finite (ofZ (-5)) = false.
Proof. repeat split; vm_compute; reflexivity. Qed.

(** The claim of C4 as worded fails on the viewBox step.  The value
    [a b c d] has no numeric token, so the worded extractor fails, while
    [parseSVGDimensions] returns (NaN, NaN); the value [ 0 0 200 150], with a
    leading space, has exactly four numeric tokens, so the worded extractor
    returns (200, 150), while [parseSVGDimensions] fails, the split giving
    five pieces. *)
Lemma parseSVGDimensions_viewBox_pieces :
  parseSVGDimensions textHost (lit "icon.svg")
    (mkState (svgWithViewBox "a b c d") None)
  = (Returned (mkDims NaN NaN), mkState (svgWithViewBox "a b c d") None)
  /\ claimedDimensions (svgWithViewBox "a b c d") = throwError dimensionsUnavailable
  /\ parseSVGDimensions textHost (lit "icon.svg")
       (mkState (svgWithViewBox " 0 0 200 150") None)
     = (throwError dimensionsUnavailable, mkState (svgWithViewBox " 0 0 200 150") None)
  /\ claimedDimensions (svgWithViewBox " 0 0 200 150")
     = Returned (mkDims (ofZ 200) (ofZ 150)).
Proof. repeat split; vm_compute; reflexivity. Qed.

(** ** Binary64 rounding, in real numbers *)

Section BinaryRounding.

Local Open Scope R_scope.

Lemma bpow_pos (e : Z) : 0 < bpow e.
Proof. unfold bpow. apply powerRZ_lt. lra. Qed.

Lemma bpow_add (a b : Z) : bpow (a + b) = bpow a * bpow b.
Proof. unfold bpow. apply powerRZ_add. lra. Qed.

Lemma bpow_IZR (k : Z) : (0 <= k)%Z -> bpow k = IZR (2 ^ k).
Proof.
  intros Hk. unfold bpow. rewrite <- (Z2Nat.id k Hk).
  rewrite <- pow_powerRZ. apply pow_IZR.
Qed.

Lemma bpow_le (a b : Z) : (a <= b)%Z -> bpow a <= bpow b.
Proof.
  intros H. replace b with (a + (b - a))%Z by lia. rewrite bpow_add.
  rewrite (bpow_IZR (b - a)) by lia.
  assert (1 <= IZR (2 ^ (b - a))).
  { apply IZR_le. assert (0 < 2 ^ (b - a))%Z by (apply Z.pow_pos_nonneg; lia). lia. }
  pose proof (bpow_pos a). nra.
Qed.

Lemma bpow_lt (a b : Z) : (a < b)%Z -> bpow a < bpow b.
Proof.
  intros H. replace b with (a + (b - a))%Z by lia. rewrite bpow_add.
  rewrite (bpow_IZR (b - a)) by lia.
  assert (2 <= IZR (2 ^ (b - a))).
  { apply IZR_le. replace (b - a)%Z with (Z.succ (b - a - 1)) by lia.
    rewrite Z.pow_succ_r by lia.
    assert (0 < 2 ^ (b - a - 1))%Z by (apply Z.pow_pos_nonneg; lia). lia. }
  pose proof (bpow_pos a). nra.
Qed.

Lemma bpow_lt_inv (a b : Z) : bpow a < bpow b -> (a < b)%Z.
Proof.
  intros H. destruct (Z.lt_ge_cases a b) as [|Hge]; [assumption|].
  apply bpow_le in Hge. lra.
Qed.

(** ** Digits *)

Lemma digits2_pos_bounds (m : positive) :
  (2 ^ (Z.pos (digits2_pos m) - 1) <= Z.pos m < 2 ^ Z.pos (digits2_pos m))%Z.
Proof.
  induction m as [m IH|m IH|]; cbn [digits2_pos].
  - rewrite Pos2Z.inj_succ.
    replace (Z.succ (Z.pos (digits2_pos m)) - 1)%Z with (Z.succ (Z.pos (digits2_pos m) - 1)) by lia.
    rewrite !Z.pow_succ_r by lia. lia.
  - rewrite Pos2Z.inj_succ.
    replace (Z.succ (Z.pos (digits2_pos m)) - 1)%Z with (Z.succ (Z.pos (digits2_pos m) - 1)) by lia.
    rewrite !Z.pow_succ_r by lia. lia.
  - cbn. lia.
Qed.

Lemma Zdigits2_bounds (m : Z) :
  (0 < m)%Z -> (2 ^ (Zdigits2 m - 1) <= m < 2 ^ Zdigits2 m)%Z.
Proof. destruct m as [|p|p]; try lia. intros _. apply digits2_pos_bounds. Qed.

(** The number of digits is determined by the bounds. *)
Lemma Zdigits2_unique (m d : Z) :
  (2 ^ (d - 1) <= m < 2 ^ d)%Z -> (0 < m)%Z -> Zdigits2 m = d.
Proof.
  intros [Hlo Hhi] Hm. pose proof (Zdigits2_bounds m Hm) as [Hlo' Hhi'].
  assert (Hd : (0 < Zdigits2 m)%Z) by (destruct m; cbn; lia).
  assert (Hd0 : (0 < d)%Z).
  { destruct (Z.lt_ge_cases 0 d); [assumption|].
    assert (2 ^ d <= 2 ^ 0)%Z by (apply Z.pow_le_mono_r; lia). cbn in *. lia. }
  destruct (Z.lt_trichotomy (Zdigits2 m) d) as [Hlt|[Heq|Hgt]]; [|assumption|].
  - assert (2 ^ Zdigits2 m <= 2 ^ (d - 1))%Z by (apply Z.pow_le_mono_r; lia). lia.
  - assert (2 ^ d <= 2 ^ (Zdigits2 m - 1))%Z by (apply Z.pow_le_mono_r; lia). lia.
Qed.

(** ** The exponent function *)

Lemma fexp_ge_emin (k : Z) : (femin <= fexp prec emax k)%Z.
Proof. unfold fexp, femin. lia. Qed.

Lemma fexp_mono (a b : Z) :
  (a <= b)%Z -> (fexp prec emax a <= fexp prec emax b)%Z.
Proof. unfold fexp. lia. Qed.

Lemma fexp_cases (k : Z) :
  (fexp prec emax k = k - prec /\ femin <= k - prec)%Z
  \/ (fexp prec emax k = femin /\ k - prec < femin)%Z.
Proof. unfold fexp, femin. lia. Qed.

(** ** Iterated halving *)

Lemma iter_pos_nat {A : Type} (f : A -> A) (n : positive) (x : A) :
  iter_pos f n x = Nat.iter (Pos.to_nat n) f x.
Proof.
  revert x. induction n as [n IH|n IH|]; intros x; cbn [iter_pos].
  - rewrite !IH. rewrite Pos2Nat.inj_xI.
    replace (S (2 * Pos.to_nat n)) with (Pos.to_nat n + (Pos.to_nat n + 1))%nat by lia.
    rewrite !Nat.iter_add. reflexivity.
  - rewrite !IH. rewrite Pos2Nat.inj_xO.
    replace (2 * Pos.to_nat n)%nat with (Pos.to_nat n + Pos.to_nat n)%nat by lia.
    rewrite Nat.iter_add. reflexivity.
  - reflexivity.
Qed.

Lemma shr_1_spec (mrs : shr_record) :
  (0 <= shr_m mrs)%Z ->
  shr_m (shr_1 mrs) = (shr_m mrs / 2)%Z
  /\ (shr_exact mrs -> (shr_m mrs mod 2 = 0)%Z -> shr_exact (shr_1 mrs)).
Proof.
  destruct mrs as [m r s]. cbn [shr_m]. intros Hm. unfold shr_exact.
  destruct m as [|p|p]; [| |lia].
  - cbn. split; [reflexivity|]. intros [-> ->] _. auto.
  - destruct p as [p|p|]; cbn [shr_1 shr_m shr_r shr_s].
    + split.
      * rewrite Pos2Z.inj_xI. rewrite Z.mul_comm, Z.div_add_l by lia. cbn. lia.
      * intros _ H. rewrite Pos2Z.inj_xI in H.
        rewrite Z.add_comm, Z.mul_comm, Z.mod_add in H by lia. cbn in H. lia.
    + split.
      * rewrite Pos2Z.inj_xO. rewrite Z.mul_comm, Z.div_mul by lia. reflexivity.
      * intros [-> ->] _. auto.
    + split; [reflexivity|]. intros _ H. cbn in H. lia.
Qed.

Lemma shr_nat_spec (k : nat) (mrs : shr_record) :
  (0 <= shr_m mrs)%Z ->
  (0 <= shr_m (Nat.iter k shr_1 mrs))%Z
  /\ shr_m (Nat.iter k shr_1 mrs) = (shr_m mrs / 2 ^ Z.of_nat k)%Z
  /\ (shr_exact mrs -> (shr_m mrs mod 2 ^ Z.of_nat k = 0)%Z ->
      shr_exact (Nat.iter k shr_1 mrs)).
Proof.
  intros Hm. induction k as [|k IH].
  - change (Nat.iter 0 shr_1 mrs) with mrs. cbn [Z.of_nat Z.pow].
    rewrite Z.div_1_r. auto.
  - destruct IH as (IH0 & IHm & IHe).
    change (Nat.iter (S k) shr_1 mrs) with (shr_1 (Nat.iter k shr_1 mrs)).
    destruct (shr_1_spec (Nat.iter k shr_1 mrs) IH0) as [H1 H2].
    rewrite Nat2Z.inj_succ, Z.pow_succ_r by lia.
    assert (Hp : (0 < 2 ^ Z.of_nat k)%Z) by (apply Z.pow_pos_nonneg; lia).
    split; [|split].
    + rewrite H1. apply Z.div_pos; lia.
    + rewrite H1, IHm. rewrite Z.div_div by lia. f_equal. lia.
    + intros Hex Hmod.
      rewrite Z.mul_comm in Hmod. apply Z.mod_divide in Hmod; [|lia].
      destruct Hmod as [c Hc].
      assert (Hc' : shr_m mrs = (c * 2 * 2 ^ Z.of_nat k)%Z) by lia.
      apply H2.
      * apply IHe; [exact Hex|]. rewrite Hc'. apply Z.mod_mul. lia.
      * rewrite IHm, Hc'. rewrite Z.div_mul by lia. apply Z.mod_mul. lia.
Qed.

Lemma shr_fexp_spec (m e : Z) (l : location) :
  (0 <= m)%Z ->
  let n := Z.max 0 (fexp prec emax (Zdigits2 m + e) - e) in
  let mrs := fst (shr_fexp prec emax m e l) in
  snd (shr_fexp prec emax m e l) = (e + n)%Z
  /\ shr_m mrs = (m / 2 ^ n)%Z
  /\ (l = loc_Exact -> (m mod 2 ^ n = 0)%Z -> loc_of_shr_record mrs = loc_Exact).
Proof.
  intros Hm n mrs. subst n mrs. unfold shr_fexp, shr.
  assert (Hrec : shr_m (shr_record_of_loc m l) = m) by (destruct l as [|[]]; reflexivity).
  destruct (fexp prec emax (Zdigits2 m + e) - e)%Z as [|p|p] eqn:En; cbn [fst snd].
  - cbn [Z.max Z.compare Z.pow]. rewrite Z.div_1_r, Z.add_0_r, Hrec.
    repeat split. intros -> _. reflexivity.
  - rewrite Z.max_r by lia. rewrite iter_pos_nat.
    destruct (shr_nat_spec (Pos.to_nat p) (shr_record_of_loc m l)) as (_ & H1 & H2);
      [rewrite Hrec; exact Hm|].
    rewrite positive_nat_Z, Hrec in *. repeat split; [exact H1|].
    intros -> Hmod. specialize (H2 (conj eq_refl eq_refl) Hmod).
    destruct H2 as [Hr Hs].
    destruct (Nat.iter (Pos.to_nat p) shr_1 (shr_record_of_loc m loc_Exact)) as [m' r' s'].
    cbn in Hr, Hs. subst. reflexivity.
  - rewrite Z.max_l by lia. cbn [Z.pow]. rewrite Z.div_1_r, Z.add_0_r, Hrec.
    repeat split. intros -> _. reflexivity.
Qed.

Lemma round_nearest_even_cases (m : Z) (l : location) :
  (round_nearest_even m l = m \/ round_nearest_even m l = (m + 1)%Z)
  /\ (l = loc_Exact -> round_nearest_even m l = m).
Proof.
  destruct l as [|c]; cbn [round_nearest_even]; [auto|].
  split; [|discriminate].
  destruct c; [destruct (Z.even m)| |]; auto.
Qed.

(** The second normalisation: the mantissa may have reached [2^53]. *)
Lemma renormalise_spec (m2 e1 : Z) :
  (0 <= m2 <= 2 ^ 53)%Z -> (femin <= e1)%Z ->
  (e1 = femin \/ 2 ^ 52 <= m2)%Z ->
  let mrs := fst (shr_fexp prec emax m2 e1 loc_Exact) in
  let e2 := snd (shr_fexp prec emax m2 e1 loc_Exact) in
  match shr_m mrs with
  | Z0 => m2 = 0%Z
  | Z.pos p =>
      canonical_mantissa prec emax p e2 = true
      /\ IZR (Z.pos p) * bpow e2 = IZR m2 * bpow e1
      /\ ((emax - prec < e2)%Z -> bpow emax <= IZR m2 * bpow e1)
  | Z.neg _ => False
  end.
Proof.
  intros Hm2 He1 Hgrid mrs e2. subst mrs e2.
  change (2 ^ 53)%Z with 9007199254740992%Z in *.
  change (2 ^ 52)%Z with 4503599627370496%Z in *.
  destruct Hm2 as [Hm2lo Hm2hi].
  destruct (shr_fexp_spec m2 e1 loc_Exact Hm2lo) as (Hsnd & Hfst & _).
  rewrite Hsnd. clear Hsnd.
  destruct (Z.eq_dec m2 0) as [->|Hnz].
  { rewrite Hfst. rewrite Z.div_0_l; [reflexivity|].
    apply Z.pow_nonzero; lia. }
  assert (Hpos : (0 < m2)%Z) by lia.
  pose proof (Zdigits2_bounds m2 Hpos) as Hd.
  destruct (Z.eq_dec m2 (2 ^ 53)) as [Htop|Hntop].
  - (* the mantissa overflowed: one more shift *)
    assert (Hdig : Zdigits2 m2 = 54%Z) by (subst m2; reflexivity).
    assert (Hn : Z.max 0 (fexp prec emax (Zdigits2 m2 + e1) - e1) = 1%Z).
    { rewrite Hdig. unfold fexp, femin, emin, prec, emax in *. lia. }
    rewrite Hn in *. rewrite Hfst. subst m2.
    change (2 ^ 53 / 2 ^ 1)%Z with (Z.pos 4503599627370496).
    repeat split.
    + unfold canonical_mantissa. apply Z.eqb_eq.
      change (Z.pos (digits2_pos 4503599627370496)) with 53%Z.
      unfold fexp, femin, emin, prec, emax in *. lia.
    + rewrite bpow_add, (bpow_IZR 1) by lia. change (2 ^ 1)%Z with 2%Z. lra.
    + intros Hbig. 
      replace emax with (53 + (emax - 53))%Z by lia. rewrite bpow_add.
      rewrite (bpow_IZR 53) by lia.
      assert (bpow (emax - 53) <= bpow e1) by (apply bpow_le; unfold prec in *; lia).
      change (2 ^ 53)%Z with 9007199254740992%Z.
      pose proof (bpow_pos (emax - 53)). nra.
  - (* no shift *)
    assert (Hlt : (m2 < 2 ^ 53)%Z) by lia.
    assert (Hdle : (Zdigits2 m2 <= 53)%Z).
    { destruct (Z.le_gt_cases (Zdigits2 m2) 53); [assumption|].
      assert (2 ^ 53 <= 2 ^ (Zdigits2 m2 - 1))%Z by (apply Z.pow_le_mono_r; lia). lia. }
    assert (Hcanon : fexp prec emax (Zdigits2 m2 + e1) = e1).
    { destruct Hgrid as [->|Hbig].
      - unfold fexp, femin, emin, prec, emax in *. lia.
      - assert (Zdigits2 m2 = 53%Z) by (apply Zdigits2_unique; lia).
        unfold fexp, femin, emin, prec, emax in *. lia. }
    rewrite Hcanon, Z.sub_diag in *. cbn [Z.max Z.compare Z.pow] in *.
    rewrite Z.div_1_r in Hfst. rewrite Hfst, Z.add_0_r.
    destruct m2 as [|p|p]; try lia.
    repeat split.
    + unfold canonical_mantissa. apply Z.eqb_eq. exact Hcanon.
    + intros Hbig. destruct Hgrid as [->|Hge].
      { unfold fexp, femin, emin, prec, emax in *. lia. }
      replace emax with (52 + (emax - 52))%Z by lia. rewrite bpow_add.
      rewrite (bpow_IZR 52) by lia.
      assert (bpow (emax - 52) <= bpow e1) by (apply bpow_le; unfold prec in *; lia).
      assert (IZR (2 ^ 52) <= IZR (Z.pos p)) by (apply IZR_le; lia).
      pose proof (bpow_pos (emax - 52)).
      assert (0 < IZR (2 ^ 52)) by (apply IZR_lt; lia). nra.
Qed.

Ltac unfold_fexp := unfold fexp, femin, emin, prec, emax in *.

Lemma binary_round_aux_spec (m e : Z) (l : location) (v : R) :
  (0 <= m)%Z ->
  (e <= fexp prec emax (Zdigits2 m + e))%Z ->
  located m e l v ->
  exists m1 m2 e1 : Z,
    (0 <= m1 < 2 ^ 53)%Z /\ (femin <= e1)%Z
    /\ (e1 = femin \/ (2 ^ 52 <= m1)%Z)
    /\ IZR m1 * bpow e1 <= v < IZR (m1 + 1) * bpow e1
    /\ (m2 = m1 \/ m2 = (m1 + 1)%Z)
    /\ (v = IZR m1 * bpow e1 -> m2 = m1)
    /\ rounded m2 e1 (binary_round_aux prec emax false m e l).
Proof.
  intros Hm Hn Hv.
  destruct (shr_fexp_spec m e l Hm) as (Hsnd & Hfst & Hex).
  set (e1 := fexp prec emax (Zdigits2 m + e)) in *.
  rewrite Z.max_r in * by lia.
  set (n := (e1 - e)%Z) in *.
  assert (Hn0 : (0 <= n)%Z) by (unfold n; lia).
  assert (Hpow : (0 < 2 ^ n)%Z) by (apply Z.pow_pos_nonneg; lia).
  replace (e + n)%Z with e1 in Hsnd by (unfold n; lia).
  unfold binary_round_aux.
  destruct (shr_fexp prec emax m e l) as [mrs' e'] eqn:E1. cbn [fst snd] in *. subst e'.
  set (m1 := shr_m mrs') in *.
  set (m2 := round_nearest_even m1 (loc_of_shr_record mrs')).
  pose proof (Z.div_mod m (2 ^ n) ltac:(lia)) as Hdm.
  pose proof (Z.mod_pos_bound m (2 ^ n) Hpow) as Hrem.
  rewrite <- Hfst in Hdm.
  assert (Hm1 : (0 <= m1)%Z) by (rewrite Hfst; apply Z.div_pos; lia).
  assert (Hbp : bpow e1 = bpow e * IZR (2 ^ n)).
  { replace e1 with (e + n)%Z by (unfold n; lia). rewrite bpow_add, (bpow_IZR n) by lia.
    reflexivity. }
  pose proof (bpow_pos e) as Hbe.
  assert (Hlow : IZR m1 * bpow e1 <= IZR m * bpow e).
  { rewrite Hbp.
    replace (IZR m1 * (bpow e * IZR (2 ^ n))) with (IZR (m1 * 2 ^ n) * bpow e)
      by (rewrite mult_IZR; ring).
    apply Rmult_le_compat_r; [lra|]. apply IZR_le. lia. }
  assert (Hhigh : IZR (m + 1) * bpow e <= IZR (m1 + 1) * bpow e1).
  { rewrite Hbp.
    replace (IZR (m1 + 1) * (bpow e * IZR (2 ^ n))) with (IZR ((m1 + 1) * 2 ^ n) * bpow e)
      by (rewrite mult_IZR; ring).
    apply Rmult_le_compat_r; [lra|]. apply IZR_le. lia. }
  assert (Hmlt : IZR m * bpow e < IZR (m + 1) * bpow e).
  { apply Rmult_lt_compat_r; [lra|]. apply IZR_lt. lia. }
  assert (Hbounds : IZR m1 * bpow e1 <= v < IZR (m1 + 1) * bpow e1).
  { destruct l as [|c]; cbn [located] in Hv; lra. }
  assert (Hgrid : (0 <= m1 < 2 ^ 53)%Z /\ (e1 = femin \/ (2 ^ 52 <= m1)%Z)).
  { destruct (Z.eq_dec m 0) as [->|Hmnz].
    - assert (m1 = 0%Z) by (rewrite Hfst; apply Z.div_0_l; lia).
      split; [change (2 ^ 53)%Z with 9007199254740992%Z; lia|]. left.
      unfold e1 in *. cbn [Zdigits2] in *. unfold_fexp. lia.
    - assert (Hmpos : (0 < m)%Z) by lia.
      pose proof (Zdigits2_bounds m Hmpos) as [Hlo Hhi].
      destruct (fexp_cases (Zdigits2 m + e)) as [[Hf Hge]|[Hf Hlt]]; fold e1 in Hf.
      + (* the normal range: exactly 53 digits are kept *)
        assert (Hnd : n = (Zdigits2 m - 53)%Z) by (unfold n, prec in *; lia).
        assert (H52 : (2 ^ (Zdigits2 m - 1) = 2 ^ 52 * 2 ^ n)%Z).
        { rewrite <- Z.pow_add_r by lia. f_equal. lia. }
        assert (H53 : (2 ^ Zdigits2 m = 2 ^ 53 * 2 ^ n)%Z).
        { rewrite <- Z.pow_add_r by lia. f_equal. lia. }
        split; [split; [exact Hm1|]|right].
        * rewrite Hfst. apply Z.div_lt_upper_bound; lia.
        * rewrite Hfst. apply Z.div_le_lower_bound; lia.
      + split; [split; [exact Hm1|]|left; exact Hf].
        rewrite Hfst. apply Z.div_lt_upper_bound; [lia|].
        assert (Hle : (2 ^ Zdigits2 m <= 2 ^ (n + 53))%Z).
        { apply Z.pow_le_mono_r; [lia|]. unfold n, prec in *. lia. }
        rewrite Z.pow_add_r in Hle by lia. lia. }
  destruct Hgrid as [Hm1b Hgrid].
  destruct (round_nearest_even_cases m1 (loc_of_shr_record mrs')) as [Hm2 Hm2ex].
  fold m2 in Hm2, Hm2ex.
  assert (He1 : (femin <= e1)%Z) by apply fexp_ge_emin.
  exists m1, m2, e1.
  split; [exact Hm1b|]. split; [exact He1|]. split; [exact Hgrid|].
  split; [exact Hbounds|]. split; [exact Hm2|]. split.
  { (* a value on the grid is left as it is *)
    intros Hveq. apply Hm2ex. apply Hex.
    - destruct l as [|c]; [reflexivity|]. cbn [located] in Hv. lra.
    - assert (Hl : l = loc_Exact) by (destruct l as [|c]; [reflexivity|]; cbn [located] in Hv; lra).
      subst l. cbn [located] in Hv.
      assert (Heq : IZR m = IZR (2 ^ n * m1)).
      { rewrite mult_IZR. rewrite Hveq, Hbp in Hv.
        apply (Rmult_eq_reg_r (bpow e)); [|lra]. rewrite <- Hv. ring. }
      apply eq_IZR in Heq. lia. }
  (* the second normalisation and the overflow test *)
  assert (Hm2b : (0 <= m2 <= 2 ^ 53)%Z) by (destruct Hm2; lia).
  assert (Hgrid2 : (e1 = femin \/ 2 ^ 52 <= m2)%Z) by (destruct Hgrid, Hm2; lia).
  pose proof (renormalise_spec m2 e1 Hm2b He1 Hgrid2) as Hren. cbv zeta in Hren.
  destruct (shr_fexp prec emax m2 e1 loc_Exact) as [mrs'' e''] eqn:E2.
  cbn [fst snd] in Hren. unfold rounded.
  destruct (shr_m mrs'') as [|p|p]; [left; auto | | destruct Hren].
  destruct Hren as (Hcanon & Hval & Hbig).
  assert (Hm2pos : (0 < m2)%Z).
  { destruct (Z.eq_dec m2 0) as [Hz|]; [|lia]. rewrite Hz in Hval.
    pose proof (bpow_pos e''). assert (0 < IZR (Z.pos p)) by (apply IZR_lt; lia). nra. }
  destruct (Z.leb_spec e'' (emax - prec)) as [Hfin|Hinf].
  - right; left. split; [exact Hm2pos|]. split.
    + cbn [positive_finite]. unfold bounded. rewrite Hcanon.
      apply Z.leb_le in Hfin. rewrite Hfin. reflexivity.
    + cbn [B2R cond_Zopp]. exact Hval.
  - right; right. split; [reflexivity|]. apply Hbig. lia.
Qed.

Lemma positive_finite_inv (x : number) :
  positive_finite x = true ->
  exists (m : positive) (e : Z),
    x = S754_finite false m e
    /\ (Z.pos m < 2 ^ 53)%Z /\ (femin <= e <= emax - prec)%Z
    /\ (e = femin \/ (2 ^ 52 <= Z.pos m)%Z).
Proof.
  destruct x as [ | | |[] m e]; try discriminate. cbn [positive_finite].
  unfold bounded, canonical_mantissa. intros H. apply andb_prop in H.
  destruct H as [Hc Hb]. apply Z.eqb_eq in Hc. apply Z.leb_le in Hb.
  exists m, e. split; [reflexivity|].
  pose proof (digits2_pos_bounds m) as [Hlo Hhi].
  pose proof (fexp_ge_emin (Z.pos (digits2_pos m) + e)) as Hge0. rewrite Hc in Hge0.
  destruct (fexp_cases (Z.pos (digits2_pos m) + e)) as [[Hf Hge]|[Hf Hlt]]; rewrite Hc in Hf.
  - assert (Hd : Z.pos (digits2_pos m) = 53%Z) by (unfold prec in *; lia).
    rewrite Hd in *. change (53 - 1)%Z with 52%Z in Hlo.
    split; [lia|]. split; [lia|]. right. lia.
  - assert (Hd : (Z.pos (digits2_pos m) <= 52)%Z) by (unfold prec in *; lia).
    assert (2 ^ Z.pos (digits2_pos m) <= 2 ^ 52)%Z by (apply Z.pow_le_mono_r; lia).
    split; [change (2 ^ 53)%Z with (2 * 2 ^ 52)%Z; lia|]. split; [lia|]. left. exact Hf.
Qed.

Lemma B2R_positive (x : number) : positive_finite x = true -> 0 < B2R x.
Proof.
  intros Hx. destruct (positive_finite_inv x Hx) as (m & e & -> & _).
  cbn [B2R cond_Zopp]. apply Rmult_lt_0_compat; [apply IZR_lt; lia|apply bpow_pos].
Qed.

Lemma bpow_split (a b : Z) : (b <= a)%Z -> bpow a = IZR (2 ^ (a - b)) * bpow b.
Proof.
  intros H. rewrite <- bpow_IZR by lia. rewrite <- bpow_add. f_equal. lia.
Qed.

(** Between two neighbours of the grid there is no binary64 value. *)
Lemma grid_next (m1 e1 k j : Z) :
  (0 <= m1)%Z -> (femin <= e1)%Z -> (e1 = femin \/ 2 ^ 52 <= m1)%Z ->
  (0 <= k <= 2 ^ 53)%Z -> (femin <= j)%Z ->
  IZR m1 * bpow e1 < IZR k * bpow j ->
  IZR (m1 + 1) * bpow e1 <= IZR k * bpow j.
Proof.
  intros Hm1 He1 Hgrid Hk Hj Hlt.
  pose proof (bpow_pos e1) as Hb1. pose proof (bpow_pos j) as Hbj.
  destruct (Z.le_gt_cases e1 j) as [Hle|Hgt].
  - rewrite (bpow_split j e1 Hle) in *. rewrite <- Rmult_assoc, <- mult_IZR in *.
    apply Rmult_lt_reg_r in Hlt; [|exact Hb1]. apply lt_IZR in Hlt.
    apply Rmult_le_compat_r; [lra|]. apply IZR_le. lia.
  - exfalso. destruct Hgrid as [He|H52]; [lia|].
    rewrite (bpow_split e1 j) in Hlt by lia. rewrite <- Rmult_assoc, <- mult_IZR in Hlt.
    apply Rmult_lt_reg_r in Hlt; [|exact Hbj]. apply lt_IZR in Hlt.
    assert (H2 : (2 ^ 1 <= 2 ^ (e1 - j))%Z) by (apply Z.pow_le_mono_r; lia).
    change (2 ^ 1)%Z with 2%Z in H2. change (2 ^ 53)%Z with (2 ^ 52 * 2)%Z in Hk.
    assert (2 ^ 52 * 2 <= m1 * 2 ^ (e1 - j))%Z by (apply Z.mul_le_mono_nonneg; lia).
    lia.
Qed.

(** ** Comparisons *)

Lemma compare_positive_finite (x y : number) :
  positive_finite x = true -> positive_finite y = true ->
  (lt x y = true <-> B2R x < B2R y) /\ (le x y = true <-> B2R x <= B2R y).
Proof.
  intros Hx Hy.
  destruct (positive_finite_inv x Hx) as (mx & ex & -> & Hmx & Hex & Hgx).
  destruct (positive_finite_inv y Hy) as (my & ey & -> & Hmy & Hey & Hgy).
  unfold lt, le, SFltb, SFleb. cbn [SFcompare B2R cond_Zopp].
  pose proof (bpow_pos ex) as Hbx. pose proof (bpow_pos ey) as Hby.
  destruct (Z.compare_spec ex ey) as [Heq|Hlt|Hgt].
  - subst ey. rewrite Pos.compare_cont_spec. cbn [Pos.switch_Eq].
    destruct (Pos.compare_spec mx my) as [Hm|Hm|Hm].
    + subst my. split; split; intros H; try reflexivity; try discriminate; lra.
    + assert (IZR (Z.pos mx) * bpow ex < IZR (Z.pos my) * bpow ex).
      { apply Rmult_lt_compat_r; [lra|]. apply IZR_lt. lia. }
      split; split; intros H'; try reflexivity; lra.
    + assert (IZR (Z.pos my) * bpow ex < IZR (Z.pos mx) * bpow ex).
      { apply Rmult_lt_compat_r; [lra|]. apply IZR_lt. lia. }
      split; split; intros H'; try discriminate; lra.
  - assert (IZR (Z.pos mx) * bpow ex < IZR (Z.pos my) * bpow ey).
    { destruct (Rlt_or_le (IZR (Z.pos mx) * bpow ex) (IZR (Z.pos my) * bpow ey)) as [|Hge];
        [assumption|exfalso].
      destruct Hge as [Hlt'|Heq'].
      - pose proof (grid_next (Z.pos my) ey (Z.pos mx) ex ltac:(lia) ltac:(lia) Hgy
                      ltac:(lia) ltac:(lia) Hlt') as Hn.
        destruct Hgy as [He|H52]; [lia|].
        rewrite (bpow_split ey ex) in Hlt' by lia.
        rewrite <- Rmult_assoc, <- mult_IZR in Hlt'.
        apply Rmult_lt_reg_r in Hlt'; [|exact Hbx]. apply lt_IZR in Hlt'.
        assert (H2 : (2 ^ 1 <= 2 ^ (ey - ex))%Z) by (apply Z.pow_le_mono_r; lia).
        change (2 ^ 1)%Z with 2%Z in H2. change (2 ^ 53)%Z with (2 ^ 52 * 2)%Z in Hmx.
        assert (2 ^ 52 * 2 <= Z.pos my * 2 ^ (ey - ex))%Z by (apply Z.mul_le_mono_nonneg; lia).
        lia.
      - destruct Hgy as [He|H52]; [lia|].
        rewrite (bpow_split ey ex) in Heq' by lia.
        rewrite <- Rmult_assoc, <- mult_IZR in Heq'.
        apply Rmult_eq_reg_r in Heq'; [|lra]. apply eq_IZR in Heq'.
        assert (H2 : (2 ^ 1 <= 2 ^ (ey - ex))%Z) by (apply Z.pow_le_mono_r; lia).
        change (2 ^ 1)%Z with 2%Z in H2. change (2 ^ 53)%Z with (2 ^ 52 * 2)%Z in Hmx.
        assert (2 ^ 52 * 2 <= Z.pos my * 2 ^ (ey - ex))%Z by (apply Z.mul_le_mono_nonneg; lia).
        lia. }
    split; split; intros H'; try reflexivity; lra.
  - assert (IZR (Z.pos my) * bpow ey < IZR (Z.pos mx) * bpow ex).
    { destruct (Rlt_or_le (IZR (Z.pos my) * bpow ey) (IZR (Z.pos mx) * bpow ex)) as [|Hge];
        [assumption|exfalso].
      destruct Hgx as [He|H52]; [lia|].
      rewrite (bpow_split ex ey) in Hge by lia.
      rewrite <- Rmult_assoc, <- mult_IZR in Hge.
      apply Rmult_le_reg_r in Hge; [|exact Hby]. apply le_IZR in Hge.
      assert (H2 : (2 ^ 1 <= 2 ^ (ex - ey))%Z) by (apply Z.pow_le_mono_r; lia).
      change (2 ^ 1)%Z with 2%Z in H2. change (2 ^ 53)%Z with (2 ^ 52 * 2)%Z in Hmy.
      assert (2 ^ 52 * 2 <= Z.pos mx * 2 ^ (ex - ey))%Z by (apply Z.mul_le_mono_nonneg; lia).
      lia. }
    split; split; intros H'; try discriminate; lra.
Qed.

Lemma le_zero_positive (z : number) :
  positive_finite z = true -> le (S754_zero false) z = true.
Proof. destruct z as [ | | |[] m e]; try discriminate. reflexivity. Qed.

Lemma B2R_below_emax (z : number) :
  positive_finite z = true -> B2R z < bpow emax.
Proof.
  intros Hz. destruct (positive_finite_inv z Hz) as (m & e & -> & Hm & He & _).
  cbn [B2R cond_Zopp]. pose proof (bpow_pos e).
  apply Rlt_le_trans with (IZR (2 ^ 53) * bpow e).
  - apply Rmult_lt_compat_r; [lra|]. apply IZR_lt. exact Hm.
  - rewrite <- bpow_IZR by lia. rewrite <- bpow_add. apply bpow_le. unfold prec in *. lia.
Qed.

(** ** Rounding is monotone against the values of the grid *)

(** A value bounded by a dyadic number of at most 53 bits rounds to a
    number bounded by it. *)
Lemma rounds_to_at_most (v : R) (r : number) (k j : Z) :
  rounds_to v r ->
  (0 <= k <= 2 ^ 53)%Z -> (femin <= j)%Z -> IZR k * bpow j < bpow emax ->
  v <= IZR k * bpow j ->
  at_most r (IZR k * bpow j).
Proof.
  intros (m1 & m2 & e1 & Hm1 & He1 & Hgrid & Hv & Hm2 & Hex & Hr) Hk Hj Hmax Hle.
  assert (Hm2le : IZR m2 * bpow e1 <= IZR k * bpow j).
  { destruct Hm2 as [->| ->]; [lra|].
    apply grid_next; try assumption; try lia.
    destruct (Req_dec v (IZR m1 * bpow e1)) as [Heq|Hne].
    - (* an exact value does not move: this branch cannot be the upper end *)
      exfalso. specialize (Hex Heq). lia.
    - lra. }
  destruct Hr as [[_ ->]|[(_ & Hpf & Hval)|[-> Hbig]]].
  - left. reflexivity.
  - right. split; [exact Hpf|]. rewrite Hval. exact Hm2le.
  - exfalso. lra.
Qed.

(** A binary64 value below [v] is below the number [v] rounds to. *)
Lemma rounds_to_at_least (v : R) (r z : number) :
  rounds_to v r -> positive_finite z = true -> B2R z <= v ->
  r = S754_infinity false \/ (positive_finite r = true /\ B2R z <= B2R r).
Proof.
  intros (m1 & m2 & e1 & Hm1 & He1 & Hgrid & Hv & Hm2 & Hex & Hr) Hz Hle.
  pose proof (B2R_positive z Hz) as Hzpos.
  destruct (positive_finite_inv z Hz) as (mz & ez & -> & Hmz & Hez & Hgz).
  cbn [B2R cond_Zopp] in *.
  pose proof (bpow_pos e1) as Hb1.
  assert (Hlow : IZR (Z.pos mz) * bpow ez <= IZR m1 * bpow e1).
  { destruct (Rle_or_lt (IZR (Z.pos mz) * bpow ez) (IZR m1 * bpow e1)) as [|Hlt];
      [assumption|exfalso].
    pose proof (grid_next m1 e1 (Z.pos mz) ez ltac:(lia) He1 Hgrid ltac:(lia) ltac:(lia) Hlt).
    lra. }
  assert (Hm12 : IZR m1 * bpow e1 <= IZR m2 * bpow e1).
  { apply Rmult_le_compat_r; [lra|]. apply IZR_le. lia. }
  destruct Hr as [[Hz2 ->]|[(_ & Hpf & Hval)|[-> Hbig]]].
  - exfalso. rewrite Hz2 in Hm12. lra.
  - right. split; [exact Hpf|]. rewrite Hval. lra.
  - left. reflexivity.
Qed.

(** In the normal range rounding moves a value by less than one part in
    [2^52]. *)
Lemma rounds_to_relative (v : R) (r : number) :
  rounds_to v r -> bpow (-1021) <= v -> v * (1 + bpow (-52)) < bpow emax ->
  positive_finite r = true /\ B2R r <= v * (1 + bpow (-52)).
Proof.
  intros (m1 & m2 & e1 & Hm1 & He1 & Hgrid & Hv & Hm2 & Hex & Hr) Hlo Hhi.
  pose proof (bpow_pos e1) as Hb1.
  assert (H52 : (2 ^ 52 <= m1)%Z).
  { destruct Hgrid as [He|]; [|assumption]. exfalso. subst e1.
    assert (IZR (m1 + 1) * bpow femin <= bpow (-1021)).
    { replace (-1021)%Z with (53 + femin)%Z by reflexivity.
      rewrite bpow_add, (bpow_IZR 53) by lia.
      apply Rmult_le_compat_r; [lra|]. apply IZR_le. lia. }
    lra. }
  assert (Hulp : bpow e1 <= v * bpow (-52)).
  { apply Rle_trans with (IZR m1 * bpow e1 * bpow (-52)).
    - replace (bpow e1) with (IZR (2 ^ 52) * bpow e1 * bpow (-52)) at 1.
      + apply Rmult_le_compat_r; [pose proof (bpow_pos (-52)); lra|].
        apply Rmult_le_compat_r; [lra|]. apply IZR_le. exact H52.
      + rewrite <- (bpow_IZR 52) by lia.
        rewrite (Rmult_comm (bpow 52)), Rmult_assoc, <- bpow_add.
        change (52 + -52)%Z with 0%Z. unfold bpow at 2. cbn [powerRZ]. ring.
    - apply Rmult_le_compat_r; [pose proof (bpow_pos (-52)); lra|]. lra. }
  assert (Hm2le : IZR m2 * bpow e1 <= v * (1 + bpow (-52))).
  { apply Rle_trans with (IZR (m1 + 1) * bpow e1).
    - apply Rmult_le_compat_r; [lra|]. apply IZR_le. lia.
    - rewrite plus_IZR. lra. }
  destruct Hr as [[Hz2 _]|[(_ & Hpf & Hval)|[_ Hbig]]].
  - exfalso. change (2 ^ 52)%Z with 4503599627370496%Z in H52. lia.
  - split; [exact Hpf|]. rewrite Hval. exact Hm2le.
  - exfalso. lra.
Qed.

(** ** The operators *)

Lemma mul_rounds (x y : number) :
  positive_finite x = true -> positive_finite y = true ->
  rounds_to (B2R x * B2R y) (mul x y).
Proof.
  intros Hx Hy.
  destruct (positive_finite_inv x Hx) as (mx & ex & -> & Hmx & Hex & Hgx).
  destruct (positive_finite_inv y Hy) as (my & ey & -> & Hmy & Hey & Hgy).
  unfold mul. cbn [SFmul xorb B2R cond_Zopp].
  apply binary_round_aux_spec; [lia| |].
  - pose proof (Zdigits2_bounds (Z.pos (mx * my)) ltac:(lia)) as [_ Hhi].
    pose proof (fexp_ge_emin (Zdigits2 (Z.pos (mx * my)) + (ex + ey))) as Hfe.
    assert (Hfd : (Zdigits2 (Z.pos (mx * my)) + (ex + ey) - prec
                   <= fexp prec emax (Zdigits2 (Z.pos (mx * my)) + (ex + ey)))%Z)
      by (unfold fexp; lia).
    assert (Hneg : (femin < 0)%Z) by reflexivity.
    assert (Hdig : forall k, (2 ^ k <= Z.pos (mx * my))%Z -> (0 <= k)%Z ->
                   (k < Zdigits2 (Z.pos (mx * my)))%Z).
    { intros k Hk Hk0. apply (Z.pow_lt_mono_r_iff 2); [lia| |lia].
      destruct (Zdigits2 (Z.pos (mx * my))) eqn:E; cbn in E; lia. }
    rewrite Pos2Z.inj_mul in *.
    destruct Hgx as [Hsx|Hnx], Hgy as [Hsy|Hny].
    + lia.
    + assert (2 ^ 52 <= Z.pos mx * Z.pos my)%Z by nia.
      pose proof (Hdig 52%Z ltac:(assumption) ltac:(lia)). unfold prec in *. lia.
    + assert (2 ^ 52 <= Z.pos mx * Z.pos my)%Z by nia.
      pose proof (Hdig 52%Z ltac:(assumption) ltac:(lia)). unfold prec in *. lia.
    + assert (2 ^ 52 <= Z.pos mx * Z.pos my)%Z by nia.
      pose proof (Hdig 52%Z ltac:(assumption) ltac:(lia)). unfold prec in *. lia.
  - cbn [located]. rewrite Pos2Z.inj_mul, mult_IZR, bpow_add. ring.
Qed.

Lemma new_location_exact (n r : Z) :
  match new_location n r with
  | loc_Exact => r = 0%Z
  | loc_Inexact _ => r <> 0%Z
  end.
Proof.
  unfold new_location, new_location_even, new_location_odd.
  destruct (Z.even n); destruct (Z.eqb_spec r 0); assumption.
Qed.

Lemma div_rounds (x y : number) :
  positive_finite x = true -> positive_finite y = true ->
  rounds_to (B2R x / B2R y) (div x y).
Proof.
  intros Hx Hy.
  destruct (positive_finite_inv x Hx) as (mx & ex & -> & Hmx & Hex & Hgx).
  destruct (positive_finite_inv y Hy) as (my & ey & -> & Hmy & Hey & Hgy).
  unfold div. cbn [SFdiv xorb B2R cond_Zopp]. unfold SFdiv_core_binary.
  set (dx := Zdigits2 (Z.pos mx)). set (dy := Zdigits2 (Z.pos my)).
  set (e' := Z.min (fexp prec emax (dx + ex - (dy + ey))) (ex - ey)).
  set (s := (ex - ey - e')%Z).
  assert (Hs : (0 <= s)%Z) by (unfold s, e'; lia).
  set (m' := match s with Z.pos _ => Z.shiftl (Z.pos mx) s | Z0 => Z.pos mx | Z.neg _ => 0%Z end).
  assert (Hm' : m' = (Z.pos mx * 2 ^ s)%Z).
  { unfold m'. destruct s as [|p|p] eqn:Es; [cbn; lia| |lia].
    rewrite Z.shiftl_mul_pow2 by lia. reflexivity. }
  clearbody m'.
  pose proof (Z_div_mod m' (Z.pos my) ltac:(lia)) as Hdm.
  destruct (Z.div_eucl m' (Z.pos my)) as [q r]. destruct Hdm as [Hq Hr].
  assert (Hpow : (0 < 2 ^ s)%Z) by (apply Z.pow_pos_nonneg; lia).
  assert (Hq0 : (0 <= q)%Z) by nia.
  pose proof (bpow_pos ex) as Hbx. pose proof (bpow_pos ey) as Hby.
  pose proof (bpow_pos e') as Hbe.
  assert (Hmy0 : 0 < IZR (Z.pos my)) by (apply IZR_lt; lia).
  assert (Hv : IZR (Z.pos mx) * bpow ex / (IZR (Z.pos my) * bpow ey)
               = (IZR q + IZR r / IZR (Z.pos my)) * bpow e').
  { replace ex with (s + e' + ey)%Z at 1 by (unfold s; lia).
    rewrite !bpow_add, (bpow_IZR s) by lia.
    replace (IZR (Z.pos mx) * (IZR (2 ^ s) * bpow e' * bpow ey))
      with (IZR m' * bpow e' * bpow ey) by (rewrite Hm', mult_IZR; ring).
    rewrite Hq, plus_IZR, mult_IZR. field. lra. }
  rewrite Hv.
  assert (Hfrac : 0 <= IZR r / IZR (Z.pos my) < 1).
  { split.
    - apply Rmult_le_pos; [apply IZR_le; lia|]. apply Rlt_le, Rinv_0_lt_compat. exact Hmy0.
    - apply Rmult_lt_reg_r with (IZR (Z.pos my)); [exact Hmy0|].
      unfold Rdiv. rewrite Rmult_assoc, Rinv_l, Rmult_1_r, Rmult_1_l by lra.
      apply IZR_lt. lia. }
  apply binary_round_aux_spec; [exact Hq0| |].
  - (* the quotient has enough digits *)
    pose proof (fexp_ge_emin (Zdigits2 q + e')) as Hfe.
    destruct (fexp_cases (dx + ex - (dy + ey))) as [[Hf Hge]|[Hf Hlt]].
    + pose proof (Zdigits2_bounds (Z.pos mx) ltac:(lia)) as [Hxl Hxh].
      pose proof (Zdigits2_bounds (Z.pos my) ltac:(lia)) as [Hyl Hyh].
      fold dx in Hxl, Hxh. fold dy in Hyl, Hyh.
      assert (Hdx : (0 < dx <= 53)%Z).
      { split; [unfold dx; cbn; lia|].
        assert (dx - 1 < 53)%Z; [|lia].
        apply (Z.pow_lt_mono_r_iff 2); lia. }
      assert (Hdy : (0 < dy)%Z) by (unfold dy; cbn; lia).
      assert (He' : e' = (dx + ex - (dy + ey) - prec)%Z) by (unfold e', prec in *; lia).
      assert (Hsv : s = (53 + dy - dx)%Z) by (unfold s, prec in *; lia).
      assert (H52 : (2 ^ 52 <= q)%Z).
      { assert (Hbig : (2 ^ 52 * 2 ^ dy <= m')%Z).
        { rewrite Hm', <- Z.pow_add_r by lia.
          replace (52 + dy)%Z with ((dx - 1) + s)%Z by lia.
          rewrite Z.pow_add_r by lia. apply Z.mul_le_mono_nonneg_r; lia. }
        assert (Hlt : (2 ^ 52 * Z.pos my < (q + 1) * Z.pos my)%Z) by nia.
        apply Z.mul_lt_mono_pos_r in Hlt; lia. }
      pose proof (Zdigits2_bounds q ltac:(lia)) as [_ Hqh].
      assert (52 < Zdigits2 q)%Z.
      { apply (Z.pow_lt_mono_r_iff 2); [lia| |lia].
        destruct q; cbn; lia. }
      assert (Zdigits2 q + e' - prec <= fexp prec emax (Zdigits2 q + e'))%Z
        by (unfold fexp; lia).
      unfold prec in *. lia.
    + assert (e' <= femin)%Z by (unfold e'; lia). lia.
  - pose proof (new_location_exact (Z.pos my) r) as Hloc.
    destruct (new_location (Z.pos my) r) as [|c]; cbn [located].
    + subst r. unfold Rdiv. rewrite Rmult_0_l, Rplus_0_r. reflexivity.
    + assert (0 < IZR r / IZR (Z.pos my)).
      { apply Rmult_lt_0_compat; [apply IZR_lt; lia|]. apply Rinv_0_lt_compat. exact Hmy0. }
      rewrite plus_IZR. split; apply Rmult_lt_compat_r; lra.
Qed.

(** A positive integer literal. *)
Lemma ofZ_rounds (n : positive) : rounds_to (IZR (Z.pos n)) (ofZ (Z.pos n)).
Proof.
  unfold ofZ, binary_normalize, binary_round, shl_align.
  set (e1 := fexp prec emax (Z.pos (digits2_pos n) + 0)).
  destruct (e1 - 0)%Z as [|d|d] eqn:Ed.
  - replace (IZR (Z.pos n)) with (IZR (Z.pos n) * bpow 0) by (unfold bpow; cbn; ring).
    apply binary_round_aux_spec; [lia| |reflexivity].
    change (Zdigits2 (Z.pos n)) with (Z.pos (digits2_pos n)). fold e1. lia.
  - replace (IZR (Z.pos n)) with (IZR (Z.pos n) * bpow 0) by (unfold bpow; cbn; ring).
    apply binary_round_aux_spec; [lia| |reflexivity].
    change (Zdigits2 (Z.pos n)) with (Z.pos (digits2_pos n)). fold e1. lia.
  - replace (IZR (Z.pos n)) with (IZR (Z.pos (Pos.iter xO n d)) * bpow e1).
    + apply binary_round_aux_spec; [lia| |reflexivity].
      change (Zdigits2 (Z.pos (Pos.iter xO n d))) with (Z.pos (digits2_pos (Pos.iter xO n d))).
      rewrite iter_xO_digits.
      replace (Z.pos (digits2_pos n) + Z.pos d + e1)%Z with (Z.pos (digits2_pos n) + 0)%Z by lia.
      fold e1. lia.
    + rewrite iter_xO_value, mult_IZR, <- (bpow_IZR (Z.pos d)) by lia.
      rewrite Rmult_assoc, <- bpow_add.
      replace (Z.pos d + e1)%Z with 0%Z by lia. unfold bpow. cbn. ring.
Qed.

Lemma at_most_le (r z : number) :
  positive_finite z = true -> at_most r (B2R z) -> le r z = true.
Proof.
  intros Hz [->|[Hr Hle]].
  - apply le_zero_positive. exact Hz.
  - apply (compare_positive_finite r z Hr Hz). exact Hle.
Qed.

Lemma at_most_wf (r : number) (u : R) : at_most r u -> wf r = true.
Proof. intros [->|[Hr _]]; [reflexivity|apply positive_finite_wf; exact Hr]. Qed.

Lemma at_most_weaken (r : number) (u u' : R) : u <= u' -> at_most r u -> at_most r u'.
Proof. intros Hu [->|[Hr Hle]]; [left; reflexivity|right; split; [assumption|lra]]. Qed.

Lemma bpow_inv (k : Z) : (0 <= k)%Z -> bpow (- k) * IZR (2 ^ k) = 1.
Proof.
  intros Hk. rewrite <- bpow_IZR by lia. rewrite <- bpow_add.
  replace (- k + k)%Z with 0%Z by lia. reflexivity.
Qed.

Lemma bpow_double (e : Z) : bpow e * 2 = bpow (e + 1).
Proof. rewrite bpow_add. change (bpow 1) with (2 * 1). ring. Qed.

Lemma bpow_quarter : bpow (-2) = / 4.
Proof. change (bpow (-2)) with (/ (2 * (2 * 1))). f_equal. ring. Qed.

(** [Math.round] of a value below [W + 1/2] does not exceed the whole
    number [W]. *)
Lemma round_at_most (x z : number) (W : Z) :
  at_most x (IZR W + / 4) -> positive_finite z = true -> B2R z = IZR W ->
  le (round x) z = true.
Proof.
  intros [->|[Hx Hle]] Hz HW; [apply le_zero_positive; exact Hz|].
  destruct (positive_finite_inv x Hx) as (m & e & Ex & Hm & He & Hg).
  rewrite Ex in Hle. cbn [B2R cond_Zopp] in Hle. subst x.
  unfold round. destruct (Z.leb_spec 0 e) as [He0|He0].
  - apply (compare_positive_finite _ z Hx Hz). cbn [B2R cond_Zopp]. rewrite HW.
    rewrite (bpow_IZR e He0), <- mult_IZR in *.
    apply IZR_le. assert (Hlt : IZR (Z.pos m * 2 ^ e) < IZR (W + 1)) by (rewrite plus_IZR; lra).
    apply lt_IZR in Hlt. lia.
  - cbn [cond_Zopp]. rewrite Z.shiftr_div_pow2 by lia.
    set (k := (- e)%Z) in *. assert (Hk : (0 < k)%Z) by (unfold k; lia).
    set (P := (2 ^ (k - 1))%Z).
    assert (HP : (0 < P)%Z) by (apply Z.pow_pos_nonneg; lia).
    assert (H2P : (2 ^ k = 2 * P)%Z).
    { unfold P. rewrite <- Z.pow_succ_r by lia. f_equal. lia. }
    assert (Hint : (4 * Z.pos m <= (4 * W + 1) * 2 ^ k)%Z).
    { apply le_IZR. rewrite !mult_IZR, plus_IZR, mult_IZR.
      pose proof (bpow_inv k ltac:(lia)) as Hinv.
      replace e with (- k)%Z in Hle by (unfold k; lia).
      assert (Hpk : 0 < IZR (2 ^ k)) by (apply IZR_lt; lia).
      assert (IZR (Z.pos m) = IZR (Z.pos m) * bpow (- k) * IZR (2 ^ k))
        by (rewrite Rmult_assoc, Hinv; ring).
      assert (IZR (Z.pos m) * bpow (- k) * IZR (2 ^ k) <= (IZR W + / 4) * IZR (2 ^ k))
        by (apply Rmult_le_compat_r; lra).
      lra. }
    assert (Hn : (0 <= (Z.pos m + P) / 2 ^ k <= W)%Z).
    { split; [apply Z.div_pos; lia|].
      assert ((Z.pos m + P) / 2 ^ k < W + 1)%Z; [|lia].
      apply Z.div_lt_upper_bound; [lia|]. rewrite H2P in *. nia. }
    replace (- e - 1)%Z with (k - 1)%Z by (unfold k; lia). fold P.
    destruct ((Z.pos m + P) / 2 ^ k)%Z as [|n|n] eqn:En; [| |lia].
    + apply le_zero_positive. exact Hz.
    + apply at_most_le; [exact Hz|].
      destruct (positive_finite_inv z Hz) as (mz & ez & Ez & Hmz & Hez & Hgz).
      pose proof (B2R_below_emax z Hz) as Hmax.
      subst z. cbn [B2R cond_Zopp] in *.
      apply (rounds_to_at_most _ _ _ _ (ofZ_rounds n)); [lia|lia|exact Hmax|].
      rewrite HW. apply IZR_le. lia.
Qed.

(** The value of a whole number. *)
Lemma integer_value (z : number) :
  positive_finite z = true -> is_integer z = true ->
  exists W : Z, (0 < W)%Z /\ B2R z = IZR W.
Proof.
  intros Hz Hi. destruct (positive_finite_inv z Hz) as (m & e & -> & _).
  cbn [is_integer B2R cond_Zopp] in *.
  destruct (Z.leb_spec 0 e) as [He|He].
  - exists (Z.pos m * 2 ^ e)%Z. split.
    + apply Z.mul_pos_pos; [lia|]. apply Z.pow_pos_nonneg; lia.
    + rewrite mult_IZR, <- bpow_IZR by lia. reflexivity.
  - cbn [orb] in Hi. apply Z.eqb_eq in Hi.
    assert (Hpow : (0 < 2 ^ (- e))%Z) by (apply Z.pow_pos_nonneg; lia).
    pose proof (Z.div_mod (Z.pos m) (2 ^ (- e)) ltac:(lia)) as Hdm. rewrite Hi in Hdm.
    set (q := (Z.pos m / 2 ^ (- e))%Z) in *.
    exists q. split; [nia|].
    assert (Hm : IZR (Z.pos m) = IZR (2 ^ (- e)) * IZR q)
      by (rewrite <- mult_IZR; f_equal; lia).
    pose proof (bpow_inv (- e) ltac:(lia)) as Hinv. rewrite Z.opp_involutive in Hinv.
    rewrite Hm.
    replace (IZR (2 ^ (- e)) * IZR q * bpow e) with (IZR q * (bpow e * IZR (2 ^ (- e))))
      by ring.
    rewrite Hinv. ring.
Qed.

Lemma rounds_to_cases (v : R) (r : number) :
  rounds_to v r ->
  r = S754_zero false \/ positive_finite r = true \/ r = S754_infinity false.
Proof.
  intros (m1 & m2 & e1 & _ & _ & _ & _ & _ & _ & [[_ ->]|[(_ & H & _)|[-> _]]]); auto.
Qed.

Lemma pixelLimit_value : positive_finite pixelLimit = true /\ B2R pixelLimit = IZR (2 ^ 50).
Proof.
  split; [reflexivity|].
  change pixelLimit with (S754_finite false 4503599627370496 (-2)).
  cbn [B2R cond_Zopp].
  pose proof (bpow_inv 2 ltac:(lia)) as Hinv.
  change (bpow (-2) * IZR (2 ^ 2) = 1) in Hinv.
  replace (IZR 4503599627370496) with (IZR (2 ^ 50) * IZR (2 ^ 2))
    by (rewrite <- mult_IZR; reflexivity).
  rewrite Rmult_assoc, (Rmult_comm (IZR (2 ^ 2))), Hinv. ring.
Qed.

End BinaryRounding.

(** ** calculateDimensions: fitting into the box *)

(** The claim of C2 as worded fails for a target that is not a whole number
    of pixels: the intrinsic size 1 x 1 fitted into the box 1.5 x 3 at scale 1
    (given or absent) is 2 x 2, and 2 exceeds the requested width 1.5. *)
Lemma calculateDimensions_fit_rounds_up :
  positive_finite one = true
  /\ positive_finite (dyadic 3 (-1)) = true
  /\ positive_finite (ofZ 3) = true
  /\ calculateDimensions (mkDims one one)
       (mkSize (Some (dyadic 3 (-1))) (Some (ofZ 3)) None)
     = mkDims (ofZ 2) (ofZ 2)
  /\ calculateDimensions (mkDims one one)
       (mkSize (Some (dyadic 3 (-1))) (Some (ofZ 3)) (Some one))
     = mkDims (ofZ 2) (ofZ 2)
  /\ le (ofZ 2) (dyadic 3 (-1)) = false.
Proof. repeat split. Qed.

(** X2. A whole number of pixels is not enough without a bound: the
    intrinsic size [(2^53 - 1) x 3] fitted into the box of the same size is
    [2^53 x 3].  The aspect [(2^53 - 1) / 3] rounds up to
    [3002399751580330.5], and three times that is half way between
    [2^53 - 1] and [2^53], which rounds to [2^53]. *)
Lemma calculateDimensions_fit_large_whole :
  positive_finite (ofZ (2 ^ 53 - 1)) = true
  /\ is_integer (ofZ (2 ^ 53 - 1)) = true
  /\ div (ofZ (2 ^ 53 - 1)) (ofZ 3) = dyadic 6004799503160661 (-1)
  /\ mul (ofZ 3) (dyadic 6004799503160661 (-1)) = ofZ (2 ^ 53)
  /\ calculateDimensions (mkDims (ofZ (2 ^ 53 - 1)) (ofZ 3))
       (mkSize (Some (ofZ (2 ^ 53 - 1))) (Some (ofZ 3)) None)
     = mkDims (ofZ (2 ^ 53)) (ofZ 3)
  /\ le (ofZ (2 ^ 53)) (ofZ (2 ^ 53 - 1)) = false.
Proof. repeat split; vm_compute; reflexivity. Qed.

(** X1. For a target whose width and height are whole numbers (scale 1 or
    absent) the axis the box is fitted to is returned exactly: the width
    when the intrinsic aspect is greater than the target aspect, the height
    otherwise.  The other axis is the rounded quotient or product. *)
Theorem calculateDimensions_fit_anchor (intrinsic : SVGDimensions) (w h : number)
  (scale : option number) :
  positive_finite w = true ->
  positive_finite h = true ->
  is_integer w = true ->
  is_integer h = true ->
  scale = None \/ scale = Some one ->
  let result := calculateDimensions intrinsic (mkSize (Some w) (Some h) scale) in
  let intrinsicAspect := div (width intrinsic) (height intrinsic) in
  if gt intrinsicAspect (div w h)
  then width result = w /\ le (width result) w = true
       /\ height result = round (mul (div w intrinsicAspect) one)
  else height result = h /\ le (height result) h = true
       /\ width result = round (mul (mul h intrinsicAspect) one).
Proof.
  intros Hw Hh Hiw Hih Hs. cbv zeta.
  assert (Hscale : match truthy scale with Some s => s | None => one end = one)
    by (destruct Hs as [-> | ->]; reflexivity).
  unfold calculateDimensions. cbn [size_width size_height size_scale].
  rewrite (positive_finite_truthy _ Hw), (positive_finite_truthy _ Hh), Hscale.
  destruct (gt (div (width intrinsic) (height intrinsic)) (div w h));
    cbn [width height].
  - rewrite (mul_one_r _ (positive_finite_wf _ Hw)),
      (round_integer _ (positive_finite_wf _ Hw) Hiw).
    repeat split. apply le_refl_finite. exact Hw.
  - rewrite (mul_one_r _ (positive_finite_wf _ Hh)),
      (round_integer _ (positive_finite_wf _ Hh) Hih).
    repeat split. apply le_refl_finite. exact Hh.
Qed.

Lemma calculateDimensions_fit_anchor_witness :
  width (calculateDimensions (mkDims (ofZ 200) (ofZ 100))
           (mkSize (Some (ofZ 400)) (Some (ofZ 400)) None)) = ofZ 400
  /\ le (width (calculateDimensions (mkDims (ofZ 200) (ofZ 100))
                  (mkSize (Some (ofZ 400)) (Some (ofZ 400)) None))) (ofZ 400) = true
  /\ height (calculateDimensions (mkDims (ofZ 200) (ofZ 100))
               (mkSize (Some (ofZ 400)) (Some (ofZ 400)) None))
     = round (mul (div (ofZ 400) (div (ofZ 200) (ofZ 100))) one).
Proof.
  exact (calculateDimensions_fit_anchor (mkDims (ofZ 200) (ofZ 100))
           (ofZ 400) (ofZ 400) None eq_refl eq_refl eq_refl eq_refl
           (or_introl eq_refl)).
Defined.

Section FitsBox.

Local Open Scope R_scope.

(** C2 (amended). For an intrinsic size with positive finite components and
    a target whose width and height are whole numbers of at most [2^50]
    pixels, with scale 1 or absent, the result fits the box on both axes:
    [result.width <= width] and [result.height <= height]. *)
Theorem calculateDimensions_fits_box (intrinsic : SVGDimensions) (w h : number)
  (scale : option number) :
  positive_finite (width intrinsic) = true ->
  positive_finite (height intrinsic) = true ->
  positive_finite w = true -> is_integer w = true -> le w pixelLimit = true ->
  positive_finite h = true -> is_integer h = true -> le h pixelLimit = true ->
  scale = None \/ scale = Some one ->
  le (width (calculateDimensions intrinsic (mkSize (Some w) (Some h) scale))) w = true
  /\ le (height (calculateDimensions intrinsic (mkSize (Some w) (Some h) scale))) h = true.
Proof.
  intros Hiw Hih Hw Hwi Hwb Hh Hhi Hhb Hs.
  assert (Hscale : match truthy scale with Some s => s | None => one end = one)
    by (destruct Hs as [-> | ->]; reflexivity).
  unfold calculateDimensions. cbn [size_width size_height size_scale].
  rewrite (positive_finite_truthy _ Hw), (positive_finite_truthy _ Hh), Hscale.
  set (A := div (width intrinsic) (height intrinsic)).
  set (T := div w h).
  pose proof (div_rounds _ _ Hiw Hih) as HA. fold A in HA.
  pose proof (div_rounds _ _ Hw Hh) as HT. fold T in HT.
  destruct (integer_value w Hw Hwi) as (W & HW0 & HW).
  destruct (integer_value h Hh Hhi) as (H & HH0 & HH).
  destruct pixelLimit_value as [Hlp Hlv].
  assert (HWb : (W <= 2 ^ 50)%Z).
  { apply le_IZR. rewrite <- HW, <- Hlv. apply (compare_positive_finite w _ Hw Hlp). exact Hwb. }
  assert (HHb : (H <= 2 ^ 50)%Z).
  { apply le_IZR. rewrite <- HH, <- Hlv. apply (compare_positive_finite h _ Hh Hlp). exact Hhb. }
  rewrite HW, HH in HT.
  assert (HW1 : 1 <= IZR W) by (apply IZR_le; lia).
  assert (HH1 : 1 <= IZR H) by (apply IZR_le; lia).
  assert (HW50 : IZR W <= bpow 50) by (rewrite (bpow_IZR 50) by lia; apply IZR_le; lia).
  assert (HH50 : IZR H <= bpow 50) by (rewrite (bpow_IZR 50) by lia; apply IZR_le; lia).
  pose proof (bpow_pos 50) as Hb50.
  assert (Hq : bpow (-50) <= IZR W / IZR H <= bpow 50).
  { assert (Hinv : bpow (-50) * bpow 50 = 1)
      by (rewrite <- bpow_add; reflexivity).
    pose proof (bpow_pos (-50)) as Hbm.
    assert (HHi : 0 < / IZR H) by (apply Rinv_0_lt_compat; lra).
    split.
    - apply Rmult_le_reg_r with (IZR H); [lra|].
      unfold Rdiv. rewrite Rmult_assoc, Rinv_l, Rmult_1_r by lra.
      apply Rle_trans with (bpow (-50) * bpow 50); [|lra].
      apply Rmult_le_compat_l; lra.
    - apply Rmult_le_reg_r with (IZR H); [lra|].
      unfold Rdiv. rewrite Rmult_assoc, Rinv_l, Rmult_1_r by lra.
      apply Rle_trans with (bpow 50 * 1); [lra|].
      apply Rmult_le_compat_l; lra. }
  pose proof (bpow_pos (-52)) as Hb52. pose proof (bpow_pos (-50)) as Hbm50.
  assert (Hb52' : bpow (-52) <= 1).
  { change 1 with (bpow 0). apply bpow_le. lia. }
  destruct (rounds_to_relative _ _ HT) as [HTp HTle].
  { apply Rle_trans with (bpow (-50)); [apply bpow_le; lia|apply Hq]. }
  { apply Rle_lt_trans with (bpow 50 * 2).
    - apply Rmult_le_compat; lra.
    - rewrite bpow_double. apply bpow_lt. unfold emax. lia. }
  destruct (gt A T) eqn:Hcmp; unfold gt in Hcmp; fold (lt T A) in Hcmp;
    cbn [width height].
  - (* the intrinsic aspect is the greater one: the width is kept *)
    split.
    + rewrite (mul_one_r _ (positive_finite_wf _ Hw)),
        (round_integer _ (positive_finite_wf _ Hw) Hwi).
      apply le_refl_finite. exact Hw.
    + destruct (rounds_to_cases _ _ HA) as [EA|[HAp|EA]].
      * exfalso. rewrite EA in Hcmp.
        destruct T as [ | | |[] mt et]; discriminate.
      * assert (HTA : B2R T < B2R A) by (apply (compare_positive_finite T A HTp HAp); exact Hcmp).
        assert (Hreal : IZR W / IZR H <= B2R A).
        { destruct (Rle_or_lt (IZR W / IZR H) (B2R A)) as [|Hlt]; [assumption|exfalso].
          destruct (rounds_to_at_least _ _ A HT HAp (Rlt_le _ _ Hlt)) as [ET|[_ Hle]].
          - rewrite ET in HTp. discriminate.
          - lra. }
        pose proof (B2R_positive A HAp) as HA0.
        pose proof (div_rounds _ _ Hw HAp) as Hd. rewrite HW in Hd.
        assert (Hv : IZR W / B2R A <= IZR H).
        { apply Rmult_le_reg_r with (B2R A); [exact HA0|].
          unfold Rdiv. rewrite Rmult_assoc, Rinv_l, Rmult_1_r by lra.
          apply Rmult_le_reg_r with (/ IZR H); [apply Rinv_0_lt_compat; lra|].
          rewrite (Rmult_comm (IZR H)), Rmult_assoc, Rinv_r, Rmult_1_r by lra.
          exact Hreal. }
        assert (Hat : at_most (div w A) (IZR H)).
        { destruct (positive_finite_inv h Hh) as (mh & eh & Eh & Hmh & Heh & Hgh).
          pose proof (B2R_below_emax h Hh) as Hmax.
          rewrite <- HH in Hv |- *. rewrite Eh in *. cbn [B2R cond_Zopp] in *.
          apply (rounds_to_at_most _ _ _ _ Hd); [lia|lia|exact Hmax|exact Hv]. }
        rewrite (mul_one_r _ (at_most_wf _ _ Hat)).
        apply (round_at_most _ h H); [|exact Hh|exact HH].
        apply (at_most_weaken _ (IZR H)); [lra|exact Hat].
      * rewrite EA.
        destruct (positive_finite_inv w Hw) as (mw & ew & -> & _).
        cbn. apply le_zero_positive. exact Hh.
  - (* otherwise the height is kept *)
    split.
    + destruct (rounds_to_cases _ _ HA) as [EA|[HAp|EA]].
      * rewrite EA.
        destruct (positive_finite_inv h Hh) as (mh & eh & Eh & _).
        rewrite Eh at 1. cbn. apply le_zero_positive. exact Hw.
      * assert (HAT : B2R A <= B2R T).
        { destruct (Rle_or_lt (B2R A) (B2R T)) as [|Hlt]; [assumption|exfalso].
          apply (compare_positive_finite T A HTp HAp) in Hlt. congruence. }
        pose proof (B2R_positive A HAp) as HA0.
        pose proof (mul_rounds _ _ Hh HAp) as Hm. rewrite HH in Hm.
        assert (Hv : IZR H * B2R A <= IZR W + / 4).
        { apply Rle_trans with (IZR H * (IZR W / IZR H * (1 + bpow (-52)))).
          - apply Rmult_le_compat_l; lra.
          - replace (IZR H * (IZR W / IZR H * (1 + bpow (-52))))
              with (IZR W + IZR W * bpow (-52)) by (field; lra).
            apply Rplus_le_compat_l.
            apply Rle_trans with (bpow 50 * bpow (-52)).
            + apply Rmult_le_compat_r; lra.
            + rewrite <- bpow_add. change (50 + -52)%Z with (-2)%Z.
              rewrite bpow_quarter. lra. }
        assert (Hquarter : IZR W + / 4 = IZR (4 * W + 1) * bpow (-2)).
        { rewrite plus_IZR, mult_IZR, bpow_quarter. lra. }
        assert (Hat : at_most (mul h A) (IZR W + / 4)).
        { rewrite Hquarter in Hv |- *.
          apply (rounds_to_at_most _ _ _ _ Hm); [ | | |exact Hv].
          - change (2 ^ 53)%Z with (4 * 2 ^ 50 + 4 * 2 ^ 50)%Z.
            change (2 ^ 50)%Z with 1125899906842624%Z in *. lia.
          - unfold femin, emin, prec, emax. lia.
          - rewrite <- Hquarter.
            apply Rle_lt_trans with (bpow 50 + bpow 50).
            + apply Rplus_le_compat; [exact HW50|].
              apply Rle_trans with 1; [lra|]. change 1 with (bpow 0). apply bpow_le. lia.
            + replace (bpow 50 + bpow 50) with (bpow 50 * 2) by ring.
              rewrite bpow_double. apply bpow_lt. unfold emax. lia. }
        rewrite (mul_one_r _ (at_most_wf _ _ Hat)).
        apply (round_at_most _ w W); [exact Hat|exact Hw|exact HW].
      * exfalso. rewrite EA in Hcmp.
        destruct (positive_finite_inv T HTp) as (mt & et & ET & _).
        rewrite ET in Hcmp. discriminate.
    + rewrite (mul_one_r _ (positive_finite_wf _ Hh)),
        (round_integer _ (positive_finite_wf _ Hh) Hhi).
      apply le_refl_finite. exact Hh.
Qed.

End FitsBox.

Lemma calculateDimensions_fits_box_witness :
  le (width (calculateDimensions (mkDims (ofZ 200) (ofZ 100))
                (mkSize (Some (ofZ 400)) (Some (ofZ 400)) None))) (ofZ 400) = true
  /\ le (height (calculateDimensions (mkDims (ofZ 200) (ofZ 100))
                   (mkSize (Some (ofZ 400)) (Some (ofZ 400)) None))) (ofZ 400) = true.
Proof.
  exact (calculateDimensions_fits_box (mkDims (ofZ 200) (ofZ 100))
           (ofZ 400) (ofZ 400) None eq_refl eq_refl eq_refl eq_refl eq_refl
           eq_refl eq_refl eq_refl (or_introl eq_refl)).
Defined.

(* ================================================================== *)
(** * Properties of the rest of the code *)
(* ================================================================== *)

Ltac logic_cases :=
  repeat match goal with
         | |- _ /\ _ => split
         | |- _ <-> _ => split
         | |- forall _, _ => intro
         | H : _ /\ _ |- _ => destruct H
         end;
  try congruence; try reflexivity.

Section HostProperties.

Variables world Browser Page Buffer : Type.
Variable host : Host world Browser Page Buffer.

(** ** findChrome *)

(** X3. [findChrome] only looks: it leaves the state as it was.  It returns
    the first candidate that exists -- a non-empty [CHROME_PATH] before the
    known places of the platform, these in the order listed -- and throws,
    with the not-found message, exactly when no candidate exists.  A path
    it returns exists. *)
Theorem findChrome_first_existing (s : state world Browser) :
  findChrome host s
  = (match find (fun path => existsSync host path (outside s))
             (chromeCandidates host (outside s)) with
     | Some path => Returned (mkChrome path)
     | None => Threw (ErrorObject chromeNotFound)
     end, s)
  /\ (forall cfg, fst (findChrome host s) = Returned cfg ->
        existsSync host (executablePath cfg) (outside s) = true).
Proof.
  assert (Heq : findChrome host s
                = (match find (fun path => existsSync host path (outside s))
                           (chromeCandidates host (outside s)) with
                   | Some path => Returned (mkChrome path)
                   | None => Threw (ErrorObject chromeNotFound)
                   end, s)).
  { unfold findChrome, chromeCandidates, bind, observe, ret, throw.
    destruct (env_CHROME_PATH host (outside s)) as [[|c p]|]; cbv beta iota zeta;
      cbn [app find].
    - destruct (find _ _); reflexivity.
    - destruct (existsSync host (c :: p) (outside s)); cbv beta iota zeta; [reflexivity|].
      destruct (find _ _); reflexivity.
    - destruct (find _ _); reflexivity. }
  split; [exact Heq|].
  intros cfg. rewrite Heq. cbn [fst].
  destruct (find _ _) as [path|] eqn:Hfind; [|discriminate].
  intros [= <-]. apply find_some in Hfind. apply Hfind.
Qed.

(** ** validateInputFile *)

(** X4. [validateInputFile] checks existence, then readability, then the
    extension, and reports the first check that fails; whatever
    [accessSync] throws is replaced by the not-readable error.  It returns
    exactly when the file exists, is readable and its name ends in [.svg]
    in any letter case. *)
Theorem validateInputFile_checks (filePath : jsstring) (s : state world Browser) :
  let w := outside s in
  let after_access := mkState (snd (accessSync host filePath w)) (browser s) in
  (existsSync host filePath w = false ->
     validateInputFile host filePath s = (Threw (inputNotFound filePath), s))
  /\ (existsSync host filePath w = true ->
      (forall e, fst (accessSync host filePath w) = Threw e ->
         validateInputFile host filePath s
         = (Threw (inputNotReadable filePath), after_access))
      /\ (fst (accessSync host filePath w) = Returned tt ->
          validateInputFile host filePath s
          = (if endsWith (toLowerCase filePath) (lit ".svg")
             then Returned tt else Threw (inputNotSvg filePath), after_access)))
  /\ (fst (validateInputFile host filePath s) = Returned tt <->
      existsSync host filePath w = true
      /\ fst (accessSync host filePath w) = Returned tt
      /\ endsWith (toLowerCase filePath) (lit ".svg") = true).
Proof.
  cbv zeta.
  unfold validateInputFile, bind, observe, try_catch, io, throw, ret,
    inputNotFound, inputNotReadable, inputNotSvg.
  destruct (existsSync host filePath (outside s)) eqn:Hex; cbn [negb].
  - destruct (accessSync host filePath (outside s)) as [[[]|e] w'] eqn:Hacc; cbn [fst snd].
    + destruct (endsWith (toLowerCase filePath) (lit ".svg")) eqn:Hext; cbn [negb fst];
        logic_cases.
    + logic_cases.
  - cbn [fst]. logic_cases.
Qed.

End HostProperties.

(** Reduce what is left after a case analysis on a host operation. *)
Ltac reduce_in H := cbv beta iota zeta in H; cbn [fst snd outside browser] in H.
Ltac reduce_goal := cbv beta iota zeta; cbn [fst snd outside browser].

Section ConverterProperties.

Variables world Browser Page Buffer : Type.
Variable host : Host world Browser Page Buffer.

Lemma findChrome_state (s : state world Browser) : snd (findChrome host s) = s.
Proof.
  unfold findChrome, bind, observe, ret, throw.
  destruct (env_CHROME_PATH host (outside s)) as [[|c p]|]; cbv beta iota zeta;
    try destruct (existsSync host (c :: p) (outside s)); cbv beta iota zeta;
    try reflexivity;
    destruct (find _ _); reflexivity.
Qed.

(** ** getBrowser *)

Lemma getBrowser_returned (s s1 : state world Browser) (b : Browser) :
  getBrowser host s = (Returned b, s1) -> browser s1 = Some b.
Proof.
  unfold getBrowser, bind, get_browser, observe, io, set_browser, ret.
  pose proof (findChrome_state s) as Hfc.
  destruct (browser s) as [b0|] eqn:Hb; cbv beta iota zeta.
  - destruct (connected host b0 (outside s)); cbv beta iota zeta.
    + intros [= <- <-]. exact Hb.
    + destruct (findChrome host s) as [[cfg|e] s0]; cbn [snd] in Hfc; subst s0;
        [|discriminate].
      destruct (launch host (executablePath cfg) (outside s)) as [[b1|e] w'];
        reduce_goal; [|discriminate].
      intros [= <- <-]. reflexivity.
  - destruct (findChrome host s) as [[cfg|e] s0]; cbn [snd] in Hfc; subst s0;
      [|discriminate].
    destruct (launch host (executablePath cfg) (outside s)) as [[b1|e] w'];
      reduce_goal; [|discriminate].
    intros [= <- <-]. reflexivity.
Qed.

(** X5. After [getBrowser] returns, [this.browser] is the browser it
    returned; a connected browser already held is returned as it is, with
    nothing launched and nothing changed.  When it throws, [this.browser]
    is what it was. *)
Theorem getBrowser_holds (s : state world Browser) :
  match getBrowser host s with
  | (Returned b, s') =>
      browser s' = Some b
      /\ (forall b0, browser s = Some b0 -> connected host b0 (outside s) = true ->
            b = b0 /\ s' = s)
  | (Threw _, s') => browser s' = browser s
  end.
Proof.
  destruct (getBrowser host s) as [[b|e] s'] eqn:Hg.
  - split; [exact (getBrowser_returned _ _ _ Hg)|].
    intros b0 Hb Hc. revert Hg.
    unfold getBrowser, bind, get_browser, observe, ret.
    rewrite Hb. cbv beta iota zeta. rewrite Hc. intros [= <- <-]. split; reflexivity.
  - revert Hg. unfold getBrowser, bind, get_browser, observe, io, set_browser, ret.
    pose proof (findChrome_state s) as Hfc.
    destruct (browser s) as [b0|] eqn:Hb; cbv beta iota zeta.
    + destruct (connected host b0 (outside s)); cbv beta iota zeta; [discriminate|].
      destruct (findChrome host s) as [[cfg|e0] s0]; cbn [snd] in Hfc; subst s0.
      * destruct (launch host (executablePath cfg) (outside s)) as [[b1|e1] w'];
          reduce_goal; [discriminate|].
        intros [= _ <-]. exact Hb.
      * intros [= _ <-]. exact Hb.
    + destruct (findChrome host s) as [[cfg|e0] s0]; cbn [snd] in Hfc; subst s0.
      * destruct (launch host (executablePath cfg) (outside s)) as [[b1|e1] w'];
          reduce_goal; [discriminate|].
        intros [= _ <-]. exact Hb.
      * intros [= _ <-]. exact Hb.
Qed.

(** ** getDimensionsFromBrowser *)

Lemma orElse_truthy (a b : number) :
  ToBoolean b = true -> ToBoolean (orElse a b) = true.
Proof. intros Hb. unfold orElse. destruct (ToBoolean a) eqn:Ha; assumption. Qed.

(** X6. The size the browser measures is never [0] and never [NaN] on
    either axis: a missing or zero bounding box falls back to the client
    box and then to 300. *)
Theorem getDimensionsFromBrowser_truthy (svgPath : jsstring)
  (s s' : state world Browser) (d : SVGDimensions) :
  getDimensionsFromBrowser host svgPath s = (Returned d, s') ->
  ToBoolean (width d) = true /\ ToBoolean (height d) = true.
Proof.
  unfold getDimensionsFromBrowser, bind, try_finally, io, throw, ret. intros H.
  destruct (getBrowser host s) as [[b|e] s1]; [|discriminate].
  destruct (newPage host b (outside s1)) as [[page|e] w2]; reduce_in H; [|discriminate].
  destruct (readFile host svgPath w2) as [[content|e] w3]; reduce_in H.
  - destruct (setContent host page (measurePage content) w3) as [[[]|e] w4]; reduce_in H.
    + destruct (measureSvg host page w4) as [[[bx|]|e] w5]; reduce_in H.
      * destruct (closePage host page w5) as [[[]|e] w6]; reduce_in H; [|discriminate].
        injection H as <- _. cbn [width height].
        split; apply orElse_truthy; reflexivity.
      * destruct (closePage host page w5) as [[[]|e] w6]; discriminate.
      * destruct (closePage host page w5) as [[[]|e0] w6]; discriminate.
    + destruct (closePage host page w4) as [[[]|e0] w6]; discriminate.
  - destruct (closePage host page w3) as [[[]|e0] w6]; discriminate.
Qed.

(** ** The page is closed on every path *)

(** X7. Once [newPage] has handed out a page, [convertWithPuppeteer] ends
    by closing it, whether the rendering steps returned or one of them
    threw; an exception of [page.close()] replaces the outcome. *)
Theorem convertWithPuppeteer_closes_page (svgPath outPath : jsstring)
  (dims : SVGDimensions) (backgroundColor : jsstring) (quality_ : option number)
  (s s1 : state world Browser) (b : Browser) (page : Page) (w2 : world) :
  getBrowser host s = (Returned b, s1) ->
  newPage host b (outside s1) = (Returned page, w2) ->
  exists w3,
    snd (convertWithPuppeteer host svgPath outPath dims backgroundColor quality_ s)
    = mkState (snd (closePage host page w3)) (Some b)
    /\ forall e, fst (closePage host page w3) = Threw e ->
         fst (convertWithPuppeteer host svgPath outPath dims backgroundColor quality_ s)
         = Threw e.
Proof.
  intros Hg Hp. pose proof (getBrowser_returned _ _ _ Hg) as Hb.
  unfold convertWithPuppeteer, bind, try_finally, io, ret. rewrite Hg.
  reduce_goal. rewrite Hp. reduce_goal. rewrite Hb.
  destruct (setViewport host page dims w2) as [[[]|e] w3]; reduce_goal.
  - destruct (readFile host svgPath w3) as [[content|e] w4]; reduce_goal.
    + destruct (setContent host page (renderPage content dims backgroundColor) w4)
        as [[[]|e] w5]; reduce_goal.
      * destruct (screenshot host page (jsstring_eqb backgroundColor transparent) dims w5)
          as [[shot|e] w6]; reduce_goal.
        -- destruct (writeFile host outPath shot w6) as [[[]|e] w7]; reduce_goal;
             exists w7; destruct (closePage host page w7) as [[[]|e'] w8]; reduce_goal;
             (split; [reflexivity | congruence]).
        -- exists w6; destruct (closePage host page w6) as [[[]|e'] w8]; reduce_goal;
             (split; [reflexivity | congruence]).
      * exists w5; destruct (closePage host page w5) as [[[]|e'] w8]; reduce_goal;
          (split; [reflexivity | congruence]).
    + exists w4; destruct (closePage host page w4) as [[[]|e'] w8]; reduce_goal;
        (split; [reflexivity | congruence]).
  - exists w3; destruct (closePage host page w3) as [[[]|e'] w8]; reduce_goal;
      (split; [reflexivity | congruence]).
Qed.

(** X8. The same holds for [getDimensionsFromBrowser]: the page it opened
    is closed last, also when no [svg] element is found. *)
Theorem getDimensionsFromBrowser_closes_page (svgPath : jsstring)
  (s s1 : state world Browser) (b : Browser) (page : Page) (w2 : world) :
  getBrowser host s = (Returned b, s1) ->
  newPage host b (outside s1) = (Returned page, w2) ->
  exists w3,
    snd (getDimensionsFromBrowser host svgPath s)
    = mkState (snd (closePage host page w3)) (Some b)
    /\ forall e, fst (closePage host page w3) = Threw e ->
         fst (getDimensionsFromBrowser host svgPath s) = Threw e.
Proof.
  intros Hg Hp. pose proof (getBrowser_returned _ _ _ Hg) as Hb.
  unfold getDimensionsFromBrowser, bind, try_finally, io, throw, ret. rewrite Hg.
  reduce_goal. rewrite Hp. reduce_goal. rewrite Hb.
  destruct (readFile host svgPath w2) as [[content|e] w3]; reduce_goal.
  - destruct (setContent host page (measurePage content) w3) as [[[]|e] w4]; reduce_goal.
    + destruct (measureSvg host page w4) as [[[bx|]|e] w5]; reduce_goal;
        exists w5; destruct (closePage host page w5) as [[[]|e'] w8]; reduce_goal;
        (split; [reflexivity | congruence]).
    + exists w4; destruct (closePage host page w4) as [[[]|e'] w8]; reduce_goal;
        (split; [reflexivity | congruence]).
  - exists w3; destruct (closePage host page w3) as [[[]|e'] w8]; reduce_goal;
      (split; [reflexivity | congruence]).
Qed.

End ConverterProperties.

Section PipelineProperties.

Variables world Browser Page Buffer : Type.
Variable host : Host world Browser Page Buffer.

Lemma validateInputFile_returned (filePath : jsstring) (s s1 : state world Browser)
  (u : unit) :
  validateInputFile host filePath s = (Returned u, s1) ->
  existsSync host filePath (outside s) = true
  /\ endsWith (toLowerCase filePath) (lit ".svg") = true
  /\ browser s1 = browser s.
Proof.
  unfold validateInputFile, bind, observe, try_catch, io, throw, ret.
  destruct (existsSync host filePath (outside s)); cbn [negb]; [|discriminate].
  destruct (accessSync host filePath (outside s)) as [[[]|e] w']; reduce_goal;
    [|discriminate].
  destruct (endsWith (toLowerCase filePath) (lit ".svg")); cbn [negb]; [|discriminate].
  intros [= _ <-]. repeat split.
Qed.

Lemma validateInputFile_browser (filePath : jsstring) (s : state world Browser) :
  browser (snd (validateInputFile host filePath s)) = browser s.
Proof.
  unfold validateInputFile, bind, observe, try_catch, io, throw, ret.
  destruct (existsSync host filePath (outside s)); cbn [negb]; [|reflexivity].
  destruct (accessSync host filePath (outside s)) as [[[]|e] w']; cbv beta iota zeta.
  - destruct (endsWith (toLowerCase filePath) (lit ".svg")); reflexivity.
  - reflexivity.
Qed.

(** X9. [convert] reports success only for a request that passed every
    check: the input exists and is named [*.svg], the numeric options and
    the background are valid; the result then carries the output path of
    [generateOutputPath] and no error. *)
Theorem convert_success_checked (options : ConversionOptions)
  (s s' : state world Browser) (r : ConversionResult) :
  convert host options s = (Returned r, s') ->
  success r = true ->
  existsSync host (inputPath options) (outside s) = true
  /\ endsWith (toLowerCase (inputPath options)) (lit ".svg") = true
  /\ validateOptions (numericOptions options) = Returned tt
  /\ (exists color, normalizeBackgroundColor (background options) = Returned color)
  /\ res_outputPath r = generateOutputPath (inputPath options) (outputPath options)
  /\ error r = None.
Proof.
  unfold convert, try_catch. intros H Hs.
  destruct (convertSteps host options s) as [[r0|e] s0] eqn:Hsteps.
  - injection H as <- <-. unfold convertSteps in Hsteps.
    apply bind_returned in Hsteps. destruct Hsteps as (u & s1 & Hv & Hsteps).
    apply bind_returned in Hsteps. destruct Hsteps as (u' & s2 & Ho & Hsteps).
    apply bind_returned in Hsteps. destruct Hsteps as (intrinsic & s3 & _ & Hsteps).
    apply bind_returned in Hsteps. destruct Hsteps as (bg & s4 & Hb & Hsteps).
    apply bind_returned in Hsteps. destruct Hsteps as (u'' & s5 & _ & Hsteps).
    unfold ret in Hsteps. injection Hsteps as <- _.
    destruct (validateInputFile_returned _ _ _ _ Hv) as (Hex & Hext & _).
    unfold pure in Ho, Hb. injection Ho as Ho _. injection Hb as Hb _.
    destruct u'. unfold numericOptions.
    repeat split; try assumption. exists bg. exact Hb.
  - unfold ret in H. injection H as <- _. discriminate.
Qed.

(** X10. Options are checked before anything is read, launched or
    written: when [validateOptions] refuses them the only host operations
    are those of [validateInputFile], whose error, if any, comes first, and
    the result is the failure record.  [convertSVGtoPNG] then returns that
    record without having held a browser. *)
Theorem convert_invalid_options (options : ConversionOptions)
  (s : state world Browser) (w : world) (e : thrown) :
  validateOptions (numericOptions options) = Threw e ->
  convert host options s
  = (let '(r, s1) := validateInputFile host (inputPath options) s in
     (Returned (failureResult options
                  match r with Returned _ => e | Threw e' => e' end), s1))
  /\ convertSVGtoPNG host options w
     = (let '(r, s1) := validateInputFile host (inputPath options) (mkState w None) in
        (Returned (failureResult options
                     match r with Returned _ => e | Threw e' => e' end), outside s1)).
Proof.
  unfold numericOptions. intros Ho.
  assert (Hc : forall s0,
    convert host options s0
    = (let '(r, s1) := validateInputFile host (inputPath options) s0 in
       (Returned (failureResult options
                    match r with Returned _ => e | Threw e' => e' end), s1))).
  { intros s0. unfold convert, try_catch, convertSteps, bind. unfold pure at 1. rewrite Ho.
    destruct (validateInputFile host (inputPath options) s0) as [[u|e0] s1]; reflexivity. }
  split; [apply Hc|].
  unfold convertSVGtoPNG, try_finally. rewrite Hc.
  pose proof (validateInputFile_browser (inputPath options) (mkState w None)) as Hb.
  cbn [browser] in Hb.
  destruct (validateInputFile host (inputPath options) (mkState w None)) as [r s1].
  cbn [snd] in Hb. cbv beta iota zeta.
  unfold cleanup, bind, get_browser, ret. rewrite Hb. reflexivity.
Qed.

(** ** cleanup *)

(** X11. After [cleanup] returns no browser is held, and a second
    [cleanup] does nothing.  When closing throws, the exception leaves
    [cleanup] and the browser is still held. *)
Theorem cleanup_clears (s : state world Browser) :
  match cleanup host s with
  | (Returned _, s') =>
      browser s' = None /\ cleanup host s' = (Returned tt, s')
  | (Threw e, s') =>
      browser s' = browser s
      /\ exists b, browser s = Some b
                   /\ closeBrowser host b (outside s) = (Threw e, outside s')
  end.
Proof.
  unfold cleanup, bind, get_browser, io, set_browser, ret.
  destruct (browser s) as [b|] eqn:Hb; cbv beta iota zeta.
  - destruct (closeBrowser host b (outside s)) as [[[]|e] w'] eqn:Hc; reduce_goal.
    + split; reflexivity.
    + split; [exact Hb|]. exists b. split; [reflexivity|]. exact Hc.
  - split; [exact Hb | rewrite Hb; reflexivity].
Qed.

(** ** convertSVGtoPNG *)

(** X12. [convertSVGtoPNG] starts without a browser and returns what
    [convert] returns, after closing the browser [convert] left, if any.
    It is no longer exception free: when closing that browser throws, the
    result of the conversion is lost and the exception of [close] leaves
    [convertSVGtoPNG]. *)
Theorem convertSVGtoPNG_outcome (options : ConversionOptions) (w : world) :
  exists r s1,
    convert host options (mkState w None) = (Returned r, s1)
    /\ convertSVGtoPNG host options w =
       match browser s1 with
       | None => (Returned r, outside s1)
       | Some b =>
           match closeBrowser host b (outside s1) with
           | (Returned _, w') => (Returned r, w')
           | (Threw e, w') => (Threw e, w')
           end
       end.
Proof.
  unfold convertSVGtoPNG, try_finally.
  assert (Hc : exists r s1, convert host options (mkState w None) = (Returned r, s1)).
  { unfold convert, try_catch.
    destruct (convertSteps host options (mkState w None)) as [[r|e] s1].
    - exists r, s1. reflexivity.
    - exists (failureResult options e), s1. reflexivity. }
  destruct Hc as (r & s1 & Hc). exists r, s1. split; [exact Hc|]. rewrite Hc.
  unfold cleanup, bind, get_browser, io, set_browser, ret.
  destruct (browser s1) as [b|]; cbv beta iota zeta.
  - destruct (closeBrowser host b (outside s1)) as [[[]|e] w']; reflexivity.
  - reflexivity.
Qed.

End PipelineProperties.

(** ** generateOutputPath *)

Lemma svgExtension_length (s : jsstring) : svgExtension s = true -> length s = 4.
Proof.
  destruct s as [|d [|a [|b [|c [|x s]]]]]; cbn [svgExtension]; try discriminate.
  reflexivity.
Qed.

(** The pattern matches the four characters of an extension that end the
    subject, and nothing else. *)
Lemma svgExtensionPattern_at (input s : jsstring) :
  match_at true input (source svgExtensionPattern) s
  = if svgExtension s then Some ([], []) else None.
Proof.
  unfold match_at, svgExtensionPattern, Lit. cbn [source Seqs fold_right lit
    list_ascii_of_string List.map].
  change (N_of_ascii "s") with 115%N. change (N_of_ascii "v") with 118%N.
  change (N_of_ascii "g") with 103%N.
  destruct s as [|d [|a [|b [|c [|x s]]]]]; cbn [run svgExtension];
    rewrite ?(same_char_plain true 46) by reflexivity;
    rewrite ?(N.eqb_sym 46);
    rewrite ?(same_char_letter 115), ?(same_char_letter 118), ?(same_char_letter 103)
      by reflexivity;
    try reflexivity.
  - destruct (d =? 46)%N; reflexivity.
  - destruct (d =? 46)%N; [|reflexivity]. destruct (letter_is 115 a); reflexivity.
  - destruct (d =? 46)%N; [|reflexivity]. destruct (letter_is 115 a); [|reflexivity].
    destruct (letter_is 118 b); reflexivity.
  - destruct (d =? 46)%N; [|reflexivity]. destruct (letter_is 115 a); [|reflexivity].
    destruct (letter_is 118 b); [|reflexivity]. destruct (letter_is 103 c); reflexivity.
  - destruct (d =? 46)%N; [|reflexivity]. destruct (letter_is 115 a); [|reflexivity].
    destruct (letter_is 118 b); [|reflexivity]. destruct (letter_is 103 c); reflexivity.
Qed.

Lemma svgExtensionPattern_search (input s : jsstring) (i : nat) :
  search true input (source svgExtensionPattern) i s
  = if (4 <=? length s)%nat && svgExtension (skipn (length s - 4) s)
    then Some (mkMatch (i + (length s - 4)) (skipn (length s - 4) s) [] [])
    else None.
Proof.
  revert i. induction s as [|c s IH]; intros i.
  - cbn [search]. rewrite svgExtensionPattern_at. reflexivity.
  - cbn [search]. rewrite svgExtensionPattern_at.
    destruct (svgExtension (c :: s)) eqn:Hext.
    + pose proof (svgExtension_length _ Hext) as Hlen. rewrite Hlen.
      cbn [length Nat.leb Nat.sub skipn andb]. rewrite Hext, Nat.add_0_r.
      rewrite firstn_all2 by (rewrite Hlen; lia).
      reflexivity.
    + rewrite IH. cbn [length].
      destruct (Nat.leb_spec 4 (length s)) as [Hge|Hlt].
      * replace (4 <=? S (length s))%nat with true by (symmetry; apply Nat.leb_le; lia).
        replace (S (length s) - 4)%nat with (S (length s - 4)) by lia.
        cbn [skipn andb]. replace (i + S (length s - 4))%nat with (S i + (length s - 4))%nat by lia.
        reflexivity.
      * cbn [andb]. destruct (Nat.leb_spec 4 (S (length s))) as [Hge'|Hlt']; [|reflexivity].
        assert (Hl : length s = 3) by lia. rewrite Hl. cbn [Nat.sub skipn andb].
        rewrite Hext. reflexivity.
Qed.

Lemma last_four {A : Type} (s : list A) :
  4 <= length s ->
  exists pre d a b c, s = pre ++ [d; a; b; c] /\ skipn (length s - 4) s = [d; a; b; c].
Proof.
  intros Hlen.
  pose proof (firstn_skipn (length s - 4) s) as Hs.
  assert (Hl : length (skipn (length s - 4) s) = 4) by (rewrite length_skipn; lia).
  destruct (skipn (length s - 4) s) as [|d [|a [|b [|c [|x t]]]]]; try discriminate.
  exists (firstn (length s - 4) s), d, a, b, c. split; [symmetry; exact Hs | reflexivity].
Qed.

Lemma toLowerCase1_is (lower c : N) :
  is_lower lower = true -> (lower =? toLowerCase1 c)%N = letter_is lower c.
Proof.
  unfold toLowerCase1, letter_is, is_lower, is_upper. intros Hl. crunchN.
Qed.

Lemma toLowerCase1_point (c : N) : (46 =? toLowerCase1 c)%N = (c =? 46)%N.
Proof. unfold toLowerCase1, is_upper. crunchN. Qed.

(** The test of [validateInputFile] and the pattern of [generateOutputPath]
    accept the same names. *)
Lemma endsWith_svgExtension (s : jsstring) :
  endsWith (toLowerCase s) (lit ".svg")
  = (4 <=? length s)%nat && svgExtension (skipn (length s - 4) s).
Proof.
  unfold endsWith, toLowerCase.
  change (rev (lit ".svg")) with [103; 118; 115; 46]%N.
  destruct (Nat.leb_spec 4 (length s)) as [Hge|Hlt]; cbn [andb].
  - destruct (last_four s Hge) as (pre & d & a & b & c & Hs & Hskip).
    rewrite Hskip. rewrite Hs at 1. rewrite map_app, rev_app_distr.
    cbn [List.map rev app startsWith svgExtension].
    rewrite !toLowerCase1_is by reflexivity. rewrite toLowerCase1_point.
    destruct (letter_is 103 c), (letter_is 118 b), (letter_is 115 a), (d =? 46)%N;
      reflexivity.
  - destruct s as [|c1 [|c2 [|c3 [|c4 t]]]]; cbn [length] in Hlt; try lia;
      cbn [List.map rev app startsWith]; rewrite ?andb_false_r; reflexivity.
Qed.

(** X13. A non-empty output path is returned as it is.  Without one (or
    with the empty string) only a final [.svg], in any letter case, is
    replaced by [.png]; a name that does not end in [.svg] is returned
    unchanged.  The names changed are exactly those whose lower-case form
    ends with [.svg], the test of [validateInputFile] (no character outside
    ASCII has a lower-case form among the four characters of [.svg], so the
    lower-case form of the embedding decides that test). *)
Theorem generateOutputPath_extension (inputPath : jsstring) (outputPath : option jsstring) :
  generateOutputPath inputPath outputPath =
  match outputPath with
  | Some (c :: p) => c :: p
  | _ =>
      if endsWith (toLowerCase inputPath) (lit ".svg")
      then firstn (length inputPath - 4) inputPath ++ lit ".png"
      else inputPath
  end.
Proof.
  assert (Hgen : replace svgExtensionPattern (lit ".png") inputPath
                 = if endsWith (toLowerCase inputPath) (lit ".svg")
                   then firstn (length inputPath - 4) inputPath ++ lit ".png"
                   else inputPath).
  { unfold replace, exec. change (flag_i svgExtensionPattern) with true.
    rewrite svgExtensionPattern_search, endsWith_svgExtension.
    destruct ((4 <=? length inputPath)%nat
              && svgExtension (skipn (length inputPath - 4) inputPath)); [|reflexivity].
    cbn [index after Nat.add]. rewrite app_nil_r. reflexivity. }
  unfold generateOutputPath. destruct outputPath as [[|c p]|]; [exact Hgen|reflexivity|exact Hgen].
Qed.

(** X14. For an input whose name passed [validateInputFile], the generated
    path ends in [.png] and is never the input path itself: the conversion
    does not overwrite its source. *)
Theorem generateOutputPath_fresh (inputPath : jsstring) :
  endsWith (toLowerCase inputPath) (lit ".svg") = true ->
  endsWith (generateOutputPath inputPath None) (lit ".png") = true
  /\ generateOutputPath inputPath None <> inputPath
  /\ length (generateOutputPath inputPath None) = length inputPath.
Proof.
  intros Hext.
  assert (Hgen : generateOutputPath inputPath None
                 = firstn (length inputPath - 4) inputPath ++ lit ".png").
  { unfold generateOutputPath, replace, exec. change (flag_i svgExtensionPattern) with true.
    rewrite svgExtensionPattern_search. rewrite endsWith_svgExtension in Hext. rewrite Hext.
    cbn [index after Nat.add]. rewrite app_nil_r. reflexivity. }
  rewrite Hgen. rewrite endsWith_svgExtension in Hext.
  apply andb_prop in Hext. destruct Hext as [Hlen Hsvg]. apply Nat.leb_le in Hlen.
  destruct (last_four inputPath Hlen) as (pre & d & a & b & c & Hs & Hskip).
  rewrite Hskip in Hsvg.
  assert (Hpre : firstn (length inputPath - 4) inputPath = pre).
  { rewrite Hs at 2. rewrite Hs at 1. rewrite length_app. cbn [length].
    replace (length pre + 4 - 4) with (length pre + 0) by lia.
    rewrite firstn_app_2. cbn [firstn]. apply app_nil_r. }
  rewrite Hpre. split; [|split].
  - unfold endsWith. rewrite rev_app_distr.
    change (rev (lit ".png")) with [103; 110; 112; 46]%N. reflexivity.
  - rewrite Hs. intros Heq. apply app_inv_head in Heq.
    change (lit ".png") with [46; 112; 110; 103]%N in Heq.
    injection Heq as _ Ha _ _. subst a.
    cbn [svgExtension] in Hsvg. rewrite andb_false_r in Hsvg. discriminate.
  - rewrite Hs, !length_app. reflexivity.
Qed.

(** ** validateOptions and calculateDimensions together *)

(** X15. What [validateOptions] lets through is what [calculateDimensions]
    expects: a width, height or scale that is present (and a well-formed
    double) is positive and finite, hence truthy, so the branch
    [calculateDimensions] takes depends only on which fields are present. *)
Theorem validateOptions_positive (w h s q : option number) (x : number) :
  validateOptions (mkNumeric w h s q) = Returned tt ->
  w = Some x \/ h = Some x \/ s = Some x ->
  wf x = true ->
  positive_finite x = true /\ truthy (Some x) = Some x.
Proof.
  intros Hv Hx Hwf.
  assert (Hacc : notPositiveFinite (Some x) = None).
  { unfold validateOptions in Hv. cbn [num_width num_height num_scale num_quality] in Hv.
    destruct (notPositiveFinite w) eqn:Ew; [discriminate|].
    destruct (notPositiveFinite h) eqn:Eh; [discriminate|].
    destruct (notPositiveFinite s) eqn:Es; [discriminate|].
    destruct Hx as [->|[->| ->]]; assumption. }
  assert (Hp : positive_finite x = true).
  { unfold notPositiveFinite in Hacc.
    destruct x as [[]|[]| |[] m e]; try discriminate. exact Hwf. }
  split; [exact Hp | apply positive_finite_truthy; exact Hp].
Qed.

(** X16. A width, height or scale that is [0], [-0] or [NaN] counts as
    absent in [calculateDimensions]: nothing is computed from it and no
    error is raised. *)
Theorem calculateDimensions_falsy_absent (intrinsic : SVGDimensions)
  (w h s : option number) :
  calculateDimensions intrinsic (mkSize w h s)
  = calculateDimensions intrinsic (mkSize (truthy w) (truthy h) (truthy s))
  /\ (forall x, ToBoolean x = false ->
        calculateDimensions intrinsic (mkSize (Some x) h s)
        = calculateDimensions intrinsic (mkSize None h s)
        /\ calculateDimensions intrinsic (mkSize w (Some x) s)
           = calculateDimensions intrinsic (mkSize w None s)
        /\ calculateDimensions intrinsic (mkSize w h (Some x))
           = calculateDimensions intrinsic (mkSize w h None)).
Proof.
  assert (Hidem : forall o, truthy (truthy o) = truthy o).
  { intros [x|]; [|reflexivity]. cbn [truthy]. destruct (ToBoolean x) eqn:Hx; [|reflexivity].
    cbn [truthy]. rewrite Hx. reflexivity. }
  split.
  - unfold calculateDimensions. cbn [size_width size_height size_scale].
    rewrite !Hidem. reflexivity.
  - intros x Hx. unfold calculateDimensions. cbn [size_width size_height size_scale truthy].
    rewrite Hx. repeat split.
Qed.

Section WholeResults.

Local Open Scope R_scope.

(** ** The operators on numbers that are not negative *)

Lemma rounds_to_nonnegative (v : R) (r : number) : rounds_to v r -> nonnegative r.
Proof. intros H. exact (rounds_to_cases _ _ H). Qed.

Lemma positive_finite_shape (x : number) :
  positive_finite x = true -> exists m e, x = S754_finite false m e.
Proof. destruct x as [ | | |[] m e]; try discriminate. intros _. exists m, e. reflexivity. Qed.

Lemma div_nonnegative (x y : number) :
  positive_finite x = true -> nonnegative y -> nonnegative (div x y).
Proof.
  intros Hx [->|[Hy| ->]].
  - destruct (positive_finite_shape x Hx) as (m & e & ->). right; right. reflexivity.
  - apply (rounds_to_nonnegative _ _ (div_rounds x y Hx Hy)).
  - destruct (positive_finite_shape x Hx) as (m & e & ->). left. reflexivity.
Qed.

Lemma mul_nonnegative_l (x y : number) :
  positive_finite x = true -> nonnegative y -> nonnegative (mul x y).
Proof.
  intros Hx [->|[Hy| ->]].
  - destruct (positive_finite_shape x Hx) as (m & e & ->). left. reflexivity.
  - apply (rounds_to_nonnegative _ _ (mul_rounds x y Hx Hy)).
  - destruct (positive_finite_shape x Hx) as (m & e & ->). right; right. reflexivity.
Qed.

Lemma mul_nonnegative_r (x y : number) :
  nonnegative x -> positive_finite y = true -> nonnegative (mul x y).
Proof.
  intros [->|[Hx| ->]] Hy.
  - destruct (positive_finite_shape y Hy) as (m & e & ->). left. reflexivity.
  - apply (rounds_to_nonnegative _ _ (mul_rounds x y Hx Hy)).
  - destruct (positive_finite_shape y Hy) as (m & e & ->). right; right. reflexivity.
Qed.

(** ** Whole numbers *)

(** A positive finite number whose value is an integer is a whole number. *)
Lemma integer_of_value (r : number) (n : Z) :
  positive_finite r = true -> B2R r = IZR n -> is_integer r = true.
Proof.
  intros Hr Hv. destruct (positive_finite_inv r Hr) as (m & e & -> & _).
  cbn [B2R cond_Zopp is_integer] in *.
  destruct (Z.leb_spec 0 e) as [He|He]; [reflexivity|]. cbn [orb].
  apply Z.eqb_eq.
  assert (Hm : Z.pos m = (n * 2 ^ (- e))%Z).
  { apply eq_IZR. rewrite mult_IZR, <- Hv, Rmult_assoc.
    pose proof (bpow_inv (- e) ltac:(lia)) as Hinv. rewrite Z.opp_involutive in Hinv.
    rewrite Hinv. ring. }
  rewrite Hm. apply Z.mod_mul. apply Z.pow_nonzero; lia.
Qed.

(** An integer rounds to a whole number. *)
Lemma rounds_to_integer (n : Z) (r : number) :
  rounds_to (IZR n) r -> positive_finite r = true -> is_integer r = true.
Proof.
  intros (m1 & m2 & e1 & Hm1 & He1 & Hgrid & Hv & Hm2 & Hex & Hr) Hpf.
  assert (Hval : B2R r = IZR m2 * bpow e1).
  { destruct Hr as [[_ ->]|[(_ & _ & H)|[-> _]]]; [discriminate|exact H|discriminate]. }
  destruct (Z.le_gt_cases 0 e1) as [He|He].
  - apply (integer_of_value r (m2 * 2 ^ e1)); [exact Hpf|].
    rewrite Hval, mult_IZR, <- bpow_IZR by lia. reflexivity.
  - (* the grid is finer than the integers: the integer is on it *)
    pose proof (bpow_pos e1) as Hb.
    pose proof (bpow_inv (- e1) ltac:(lia)) as Hinv. rewrite Z.opp_involutive in Hinv.
    assert (Hn : IZR n = IZR (n * 2 ^ (- e1)) * bpow e1).
    { rewrite mult_IZR, Rmult_assoc, (Rmult_comm (IZR (2 ^ (- e1)))), Hinv. ring. }
    rewrite Hn in Hv. destruct Hv as [Hlo Hhi].
    apply Rmult_le_reg_r in Hlo; [|exact Hb]. apply Rmult_lt_reg_r in Hhi; [|exact Hb].
    apply le_IZR in Hlo. apply lt_IZR in Hhi.
    assert (Hk : (n * 2 ^ (- e1))%Z = m1) by lia.
    assert (Hm21 : m2 = m1) by (apply Hex; rewrite Hn, Hk; reflexivity).
    apply (integer_of_value r n); [exact Hpf|].
    rewrite Hval, Hm21, Hn, Hk. reflexivity.
Qed.

(** [Math.round] of a number that is not negative is a whole number, [+0]
    or [+Infinity]. *)
Lemma round_whole (x : number) : nonnegative x -> whole_or_infinite (round x).
Proof.
  intros [->|[Hx| ->]]; [left; reflexivity| |right; right; reflexivity].
  destruct (positive_finite_inv x Hx) as (m & e & Ex & _). subst x.
  unfold round. destruct (Z.leb_spec 0 e) as [He|He].
  - right; left. split; [exact Hx|]. cbn [is_integer].
    apply Z.leb_le in He. rewrite He. reflexivity.
  - cbn [cond_Zopp]. rewrite Z.shiftr_div_pow2 by lia.
    assert (Hpow : (0 < 2 ^ (- e))%Z) by (apply Z.pow_pos_nonneg; lia).
    assert (Hhalf : (0 <= 2 ^ (- e - 1))%Z) by (apply Z.pow_nonneg; lia).
    assert (Hn : (0 <= (Z.pos m + 2 ^ (- e - 1)) / 2 ^ (- e))%Z)
      by (apply Z.div_pos; lia).
    destruct ((Z.pos m + 2 ^ (- e - 1)) / 2 ^ (- e))%Z as [|n|n]; [left; reflexivity| |lia].
    pose proof (ofZ_rounds n) as Hr.
    destruct (rounds_to_cases _ _ Hr) as [E|[Hp|E]].
    + left. exact E.
    + right; left. split; [exact Hp | exact (rounds_to_integer _ _ Hr Hp)].
    + right; right. exact E.
Qed.

(** X17. For an intrinsic size with positive finite components and
    positive finite options (each present or absent), both components of
    the result are whole numbers that are not negative, or [+Infinity]:
    a result is never [NaN], never negative and never fractional.  It can
    be [0]. *)
Theorem calculateDimensions_whole (intrinsic : SVGDimensions) (w h s : option number) :
  positive_finite (width intrinsic) = true ->
  positive_finite (height intrinsic) = true ->
  optional_positive w -> optional_positive h -> optional_positive s ->
  whole_or_infinite (width (calculateDimensions intrinsic (mkSize w h s)))
  /\ whole_or_infinite (height (calculateDimensions intrinsic (mkSize w h s))).
Proof.
  intros Hiw Hih Hw Hh Hs.
  unfold calculateDimensions. cbn [size_width size_height size_scale].
  set (scale := match truthy s with Some x => x | None => one end).
  assert (Hscale : positive_finite scale = true).
  { unfold scale. destruct s as [x|]; [|reflexivity]. cbn [optional_positive] in Hs.
    rewrite (positive_finite_truthy _ Hs). exact Hs. }
  assert (Hone : forall x, nonnegative x -> whole_or_infinite (round (mul x scale))).
  { intros x Hx. apply round_whole. apply mul_nonnegative_r; assumption. }
  assert (Hpos : forall x, positive_finite x = true -> nonnegative x)
    by (intros x Hx; right; left; exact Hx).
  assert (Hwh : nonnegative (div (width intrinsic) (height intrinsic)))
    by (apply div_nonnegative; auto).
  assert (Hhw : nonnegative (div (height intrinsic) (width intrinsic)))
    by (apply div_nonnegative; auto).
  destruct w as [w|], h as [h|]; cbn [optional_positive] in Hw, Hh;
    rewrite ?(positive_finite_truthy _ Hw), ?(positive_finite_truthy _ Hh);
    cbn [truthy].
  - destruct (gt (div (width intrinsic) (height intrinsic)) (div w h));
      cbn [width height]; split; apply Hone; auto.
    + apply div_nonnegative; auto.
    + apply mul_nonnegative_l; auto.
  - cbn [width height]. split; apply Hone; auto. apply mul_nonnegative_l; auto.
  - cbn [width height]. split; apply Hone; auto. apply mul_nonnegative_l; auto.
  - cbn [width height]. split; apply Hone; auto.
Qed.

End WholeResults.

Section SameAspect.

Local Open Scope R_scope.

(** A dyadic number of at most 53 bits below [v] is below the number [v]
    rounds to. *)
Lemma rounds_to_above (v : R) (r : number) (k j : Z) :
  rounds_to v r ->
  (0 < k <= 2 ^ 53)%Z -> (femin <= j)%Z -> IZR k * bpow j <= v ->
  r = Infinity \/ (positive_finite r = true /\ IZR k * bpow j <= B2R r).
Proof.
  intros (m1 & m2 & e1 & Hm1 & He1 & Hgrid & Hv & Hm2 & Hex & Hr) Hk Hj Hle.
  pose proof (bpow_pos e1) as Hb1. pose proof (bpow_pos j) as Hbj.
  assert (Hkpos : 0 < IZR k * bpow j).
  { apply Rmult_lt_0_compat; [apply IZR_lt; lia | exact Hbj]. }
  assert (Hlow : IZR k * bpow j <= IZR m1 * bpow e1).
  { destruct (Rle_or_lt (IZR k * bpow j) (IZR m1 * bpow e1)) as [|Hlt];
      [assumption|exfalso].
    pose proof (grid_next m1 e1 k j ltac:(lia) He1 Hgrid ltac:(lia) Hj Hlt). lra. }
  assert (Hm12 : IZR m1 * bpow e1 <= IZR m2 * bpow e1).
  { apply Rmult_le_compat_r; [lra|]. apply IZR_le. lia. }
  destruct Hr as [[Hz2 ->]|[(_ & Hpf & Hval)|[-> Hbig]]].
  - exfalso. rewrite Hz2 in Hm12. lra.
  - right. split; [exact Hpf|]. rewrite Hval. lra.
  - left. reflexivity.
Qed.

(** In the normal range rounding does not lower a value by more than one
    part in [2^52]. *)
Lemma rounds_to_relative_low (v : R) (r : number) :
  rounds_to v r -> bpow (-1021) <= v -> positive_finite r = true ->
  v * (1 - bpow (-52)) <= B2R r.
Proof.
  intros (m1 & m2 & e1 & Hm1 & He1 & Hgrid & Hv & Hm2 & Hex & Hr) Hlo Hpf.
  pose proof (bpow_pos e1) as Hb1. pose proof (bpow_pos (-52)) as Hb52.
  assert (H52 : (2 ^ 52 <= m1)%Z).
  { destruct Hgrid as [He|]; [|assumption]. exfalso. subst e1.
    assert (IZR (m1 + 1) * bpow femin <= bpow (-1021)).
    { replace (-1021)%Z with (53 + femin)%Z by reflexivity.
      rewrite bpow_add, (bpow_IZR 53) by lia.
      apply Rmult_le_compat_r; [lra|]. apply IZR_le. lia. }
    lra. }
  assert (Hulp : bpow e1 <= IZR m1 * bpow e1 * bpow (-52)).
  { replace (bpow e1) with (IZR (2 ^ 52) * bpow e1 * bpow (-52)) at 1.
    - apply Rmult_le_compat_r; [lra|].
      apply Rmult_le_compat_r; [lra|]. apply IZR_le. exact H52.
    - rewrite <- (bpow_IZR 52) by lia.
      rewrite (Rmult_comm (bpow 52)), Rmult_assoc, <- bpow_add.
      change (52 + -52)%Z with 0%Z. unfold bpow at 2. cbn [powerRZ]. ring. }
  assert (Hval : B2R r = IZR m2 * bpow e1).
  { destruct Hr as [[_ ->]|[(_ & _ & H)|[-> _]]]; [discriminate|exact H|discriminate]. }
  assert (Hm12 : IZR m1 * bpow e1 <= IZR m2 * bpow e1).
  { apply Rmult_le_compat_r; [lra|]. apply IZR_le. lia. }
  rewrite Hval. rewrite plus_IZR in Hv.
  assert (Hx : v * (1 - bpow (-52)) <= IZR m1 * bpow e1).
  { assert (Hb : bpow (-52) <= 1) by (change 1 with (bpow 0); apply bpow_le; lia).
    assert (Hm1pos : 0 <= IZR m1 * bpow e1).
    { apply Rmult_le_pos; [apply IZR_le; lia | lra]. }
    assert (H1 : v * (1 - bpow (-52))
                 <= (IZR m1 * bpow e1 + bpow e1) * (1 - bpow (-52))).
    { apply Rmult_le_compat_r; lra. }
    assert (H2 : (IZR m1 * bpow e1 + bpow e1) * (1 - bpow (-52))
                 = IZR m1 * bpow e1 + (bpow e1 - IZR m1 * bpow e1 * bpow (-52))
                   - bpow e1 * bpow (-52)) by ring.
    assert (H3 : 0 <= bpow e1 * bpow (-52)) by (apply Rmult_le_pos; lra).
    lra. }
  lra.
Qed.

(** A positive finite number is determined by its value. *)
Lemma B2R_inj (x y : number) :
  positive_finite x = true -> positive_finite y = true -> B2R x = B2R y -> x = y.
Proof.
  intros Hx Hy Hv.
  destruct (compare_positive_finite x y Hx Hy) as [Hlt _].
  destruct (compare_positive_finite y x Hy Hx) as [Hgt _].
  assert (Hnlt : lt x y = false).
  { destruct (lt x y); [|reflexivity]. assert (B2R x < B2R y) by (apply Hlt; reflexivity). lra. }
  assert (Hngt : lt y x = false).
  { destruct (lt y x); [|reflexivity]. assert (B2R y < B2R x) by (apply Hgt; reflexivity). lra. }
  destruct (positive_finite_shape x Hx) as (mx & ex & ->).
  destruct (positive_finite_shape y Hy) as (my & ey & ->).
  unfold lt, SFltb in Hnlt, Hngt. cbn [SFcompare] in Hnlt, Hngt.
  rewrite (Z.compare_antisym ex ey) in Hngt.
  destruct (Z.compare_spec ex ey) as [He|He|He]; cbn [CompOpp] in Hngt; try discriminate.
  subst ey. rewrite Pos.compare_cont_spec in Hnlt, Hngt. cbn [Pos.switch_Eq] in Hnlt, Hngt.
  rewrite (Pos.compare_antisym mx my) in Hngt.
  destruct (Pos.compare_spec mx my) as [Hm|Hm|Hm]; cbn [CompOpp] in Hngt; try discriminate.
  subst my. reflexivity.
Qed.

(** The literal of the value of a whole number is that number. *)
Lemma ofZ_of_value (z : number) (n : Z) :
  positive_finite z = true -> B2R z = IZR n -> ofZ n = z.
Proof.
  intros Hz Hv.
  pose proof (B2R_positive z Hz) as Hpos. rewrite Hv in Hpos. apply lt_IZR in Hpos.
  destruct n as [|n|n]; try lia.
  pose proof (ofZ_rounds n) as Hr.
  destruct (positive_finite_inv z Hz) as (mz & ez & Ez & Hmz & Hez & Hgz).
  pose proof (B2R_below_emax z Hz) as Hmax.
  assert (Hzv : B2R z = IZR (Z.pos mz) * bpow ez) by (rewrite Ez; reflexivity).
  rewrite Hzv in Hmax.
  assert (Hup : at_most (ofZ (Z.pos n)) (IZR (Z.pos mz) * bpow ez)).
  { apply (rounds_to_at_most _ _ _ _ Hr); [lia|lia|exact Hmax|]. rewrite <- Hzv, Hv. lra. }
  assert (Hdown : ofZ (Z.pos n) = Infinity
                  \/ (positive_finite (ofZ (Z.pos n)) = true
                      /\ IZR (Z.pos mz) * bpow ez <= B2R (ofZ (Z.pos n)))).
  { apply (rounds_to_above _ _ _ _ Hr); [lia|lia|]. rewrite <- Hzv, Hv. lra. }
  destruct Hup as [E|[Hp Hle]].
  - rewrite E in Hdown. destruct Hdown as [H|[H _]]; discriminate.
  - destruct Hdown as [E|[_ Hge]]; [rewrite E in Hp; discriminate|].
    apply B2R_inj; [exact Hp | exact Hz |]. rewrite Hzv. lra.
Qed.

(** [Math.round] of a value within a quarter of the whole number [W] is
    [W]. *)
Lemma round_exact (x z : number) (W : Z) :
  positive_finite x = true -> IZR W - / 4 <= B2R x <= IZR W + / 4 ->
  positive_finite z = true -> B2R z = IZR W ->
  round x = z.
Proof.
  intros Hx [Hlo Hhi] Hz HW.
  destruct (positive_finite_inv x Hx) as (m & e & Ex & Hm & He & Hg).
  assert (Hxv : B2R x = IZR (Z.pos m) * bpow e) by (rewrite Ex; reflexivity).
  rewrite Hxv in Hlo, Hhi.
  rewrite Ex. unfold round. destruct (Z.leb_spec 0 e) as [He0|He0].
  - rewrite <- Ex. apply B2R_inj; [exact Hx | exact Hz |].
    rewrite Hxv, HW. rewrite (bpow_IZR e He0), <- mult_IZR in *.
    f_equal.
    assert (H1 : IZR (Z.pos m * 2 ^ e) < IZR (W + 1)) by (rewrite plus_IZR; lra).
    assert (H2 : IZR (W - 1) < IZR (Z.pos m * 2 ^ e)) by (rewrite minus_IZR; lra).
    apply lt_IZR in H1, H2. lia.
  - cbn [cond_Zopp]. rewrite Z.shiftr_div_pow2 by lia.
    set (k := (- e)%Z) in *. assert (Hk : (0 < k)%Z) by (unfold k; lia).
    set (P := (2 ^ (k - 1))%Z).
    assert (HP : (0 < P)%Z) by (apply Z.pow_pos_nonneg; lia).
    assert (H2P : (2 ^ k = 2 * P)%Z).
    { unfold P. rewrite <- Z.pow_succ_r by lia. f_equal. lia. }
    pose proof (bpow_inv k ltac:(lia)) as Hinv.
    replace e with (- k)%Z in Hlo, Hhi by (unfold k; lia).
    assert (Hpk : 0 < IZR (2 ^ k)) by (apply IZR_lt; lia).
    assert (Hmk : IZR (Z.pos m) = IZR (Z.pos m) * bpow (- k) * IZR (2 ^ k))
      by (rewrite Rmult_assoc, Hinv; ring).
    assert (Hup : (4 * Z.pos m <= (4 * W + 1) * 2 ^ k)%Z).
    { apply le_IZR. rewrite !mult_IZR, plus_IZR, mult_IZR.
      assert (IZR (Z.pos m) * bpow (- k) * IZR (2 ^ k) <= (IZR W + / 4) * IZR (2 ^ k))
        by (apply Rmult_le_compat_r; lra).
      lra. }
    assert (Hdn : ((4 * W - 1) * 2 ^ k <= 4 * Z.pos m)%Z).
    { apply le_IZR. rewrite !mult_IZR, minus_IZR, mult_IZR.
      assert ((IZR W - / 4) * IZR (2 ^ k) <= IZR (Z.pos m) * bpow (- k) * IZR (2 ^ k))
        by (apply Rmult_le_compat_r; lra).
      lra. }
    replace (- e - 1)%Z with (k - 1)%Z by (unfold k; lia). fold P.
    assert (Hn : ((Z.pos m + P) / 2 ^ k = W)%Z).
    { assert (Hlt : ((Z.pos m + P) / 2 ^ k < W + 1)%Z).
      { apply Z.div_lt_upper_bound; [lia|]. rewrite H2P in *. nia. }
      assert (Hge : (W <= (Z.pos m + P) / 2 ^ k)%Z).
      { apply Z.div_le_lower_bound; [lia|]. rewrite H2P in *. nia. }
      lia. }
    rewrite Hn.
    pose proof (B2R_positive z Hz) as Hpos. rewrite HW in Hpos. apply lt_IZR in Hpos.
    destruct W as [|W'|W'] eqn:EW; try lia.
    apply ofZ_of_value; assumption.
Qed.

(** X18. When the intrinsic aspect is the target aspect, as the quotients
    the program computes, a target of whole numbers of at most [2^50]
    pixels (scale 1 or absent) is returned exactly: the image fills the
    box. *)
Theorem calculateDimensions_same_aspect (intrinsic : SVGDimensions) (w h : number)
  (scale : option number) :
  positive_finite (width intrinsic) = true ->
  positive_finite (height intrinsic) = true ->
  positive_finite w = true -> is_integer w = true -> le w pixelLimit = true ->
  positive_finite h = true -> is_integer h = true -> le h pixelLimit = true ->
  scale = None \/ scale = Some one ->
  div (width intrinsic) (height intrinsic) = div w h ->
  calculateDimensions intrinsic (mkSize (Some w) (Some h) scale) = mkDims w h.
Proof.
  intros Hiw Hih Hw Hwi Hwb Hh Hhi Hhb Hs Hsame.
  assert (Hscale : match truthy scale with Some s => s | None => one end = one)
    by (destruct Hs as [-> | ->]; reflexivity).
  unfold calculateDimensions. cbn [size_width size_height size_scale].
  rewrite (positive_finite_truthy _ Hw), (positive_finite_truthy _ Hh), Hscale, Hsame.
  set (T := div w h).
  pose proof (div_rounds _ _ Hw Hh) as HT. fold T in HT.
  destruct (integer_value w Hw Hwi) as (W & HW0 & HW).
  destruct (integer_value h Hh Hhi) as (H & HH0 & HH).
  destruct pixelLimit_value as [Hlp Hlv].
  assert (HWb : (W <= 2 ^ 50)%Z).
  { apply le_IZR. rewrite <- HW, <- Hlv. apply (compare_positive_finite w _ Hw Hlp). exact Hwb. }
  assert (HHb : (H <= 2 ^ 50)%Z).
  { apply le_IZR. rewrite <- HH, <- Hlv. apply (compare_positive_finite h _ Hh Hlp). exact Hhb. }
  rewrite HW, HH in HT.
  assert (HW1 : 1 <= IZR W) by (apply IZR_le; lia).
  assert (HH1 : 1 <= IZR H) by (apply IZR_le; lia).
  assert (HW50 : IZR W <= bpow 50) by (rewrite (bpow_IZR 50) by lia; apply IZR_le; lia).
  assert (HH50 : IZR H <= bpow 50) by (rewrite (bpow_IZR 50) by lia; apply IZR_le; lia).
  pose proof (bpow_pos 50) as Hb50.
  pose proof (bpow_pos (-52)) as Hb52. pose proof (bpow_pos (-50)) as Hbm50.
  assert (Hq : bpow (-50) <= IZR W / IZR H <= bpow 50).
  { assert (Hinv : bpow (-50) * bpow 50 = 1) by (rewrite <- bpow_add; reflexivity).
    assert (HHi : 0 < / IZR H) by (apply Rinv_0_lt_compat; lra).
    split.
    - apply Rmult_le_reg_r with (IZR H); [lra|].
      unfold Rdiv. rewrite Rmult_assoc, Rinv_l, Rmult_1_r by lra.
      apply Rle_trans with (bpow (-50) * bpow 50); [|lra].
      apply Rmult_le_compat_l; lra.
    - apply Rmult_le_reg_r with (IZR H); [lra|].
      unfold Rdiv. rewrite Rmult_assoc, Rinv_l, Rmult_1_r by lra.
      apply Rle_trans with (bpow 50 * 1); [lra|].
      apply Rmult_le_compat_l; lra. }
  assert (Hb52' : bpow (-52) <= 1) by (change 1 with (bpow 0); apply bpow_le; lia).
  assert (Hnormal : bpow (-1021) <= IZR W / IZR H).
  { apply Rle_trans with (bpow (-50)); [apply bpow_le; lia | apply Hq]. }
  destruct (rounds_to_relative _ _ HT Hnormal) as [HTp HTle].
  { apply Rle_lt_trans with (bpow 50 * 2).
    - apply Rmult_le_compat; lra.
    - rewrite bpow_double. apply bpow_lt. unfold emax. lia. }
  pose proof (rounds_to_relative_low _ _ HT Hnormal HTp) as HTge.
  assert (Hnot : gt T T = false).
  { unfold gt. fold (lt T T). destruct (lt T T) eqn:E; [|reflexivity].
    apply (compare_positive_finite T T HTp HTp) in E. lra. }
  rewrite Hnot. cbn [width height].
  rewrite (mul_one_r h (positive_finite_wf _ Hh)),
    (round_integer _ (positive_finite_wf _ Hh) Hhi).
  f_equal.
  (* the width: [h * (w / h)] is within a quarter of [w] *)
  pose proof (mul_rounds _ _ Hh HTp) as Hm. rewrite HH in Hm.
  assert (Hquarter : bpow 50 * bpow (-52) = / 4).
  { rewrite <- bpow_add. change (50 + -52)%Z with (-2)%Z. apply bpow_quarter. }
  assert (Hslack : IZR W * bpow (-52) <= / 4).
  { rewrite <- Hquarter. apply Rmult_le_compat_r; lra. }
  assert (Hhi' : IZR H * B2R T <= IZR W + / 4).
  { apply Rle_trans with (IZR H * (IZR W / IZR H * (1 + bpow (-52)))).
    - apply Rmult_le_compat_l; lra.
    - replace (IZR H * (IZR W / IZR H * (1 + bpow (-52))))
        with (IZR W + IZR W * bpow (-52)) by (field; lra).
      lra. }
  assert (Hlo' : IZR W - / 4 <= IZR H * B2R T).
  { apply Rle_trans with (IZR H * (IZR W / IZR H * (1 - bpow (-52)))).
    - replace (IZR H * (IZR W / IZR H * (1 - bpow (-52))))
        with (IZR W - IZR W * bpow (-52)) by (field; lra).
      lra.
    - apply Rmult_le_compat_l; lra. }
  assert (Hup : IZR W + / 4 = IZR (4 * W + 1) * bpow (-2))
    by (rewrite plus_IZR, mult_IZR, bpow_quarter; lra).
  assert (Hdn : IZR W - / 4 = IZR (4 * W - 1) * bpow (-2))
    by (rewrite minus_IZR, mult_IZR, bpow_quarter; lra).
  assert (H53 : (4 * W + 1 <= 2 ^ 53)%Z).
  { change (2 ^ 53)%Z with (4 * 2 ^ 50 + 4 * 2 ^ 50)%Z.
    change (2 ^ 50)%Z with 1125899906842624%Z in *. lia. }
  assert (Hfe : (femin <= -2)%Z) by (unfold femin, emin, prec, emax; lia).
  assert (Hat : at_most (mul h T) (IZR W + / 4)).
  { rewrite Hup in Hhi' |- *.
    apply (rounds_to_at_most _ _ _ _ Hm); [lia|exact Hfe| |exact Hhi'].
    rewrite <- Hup.
    apply Rle_lt_trans with (bpow 50 + bpow 50).
    - apply Rplus_le_compat; [exact HW50|].
      apply Rle_trans with 1; [lra|]. change 1 with (bpow 0). apply bpow_le. lia.
    - replace (bpow 50 + bpow 50) with (bpow 50 * 2) by ring.
      rewrite bpow_double. apply bpow_lt. unfold emax. lia. }
  assert (Hab : mul h T = Infinity
                \/ (positive_finite (mul h T) = true /\ IZR W - / 4 <= B2R (mul h T))).
  { rewrite Hdn in Hlo' |- *.
    apply (rounds_to_above _ _ _ _ Hm); [lia|exact Hfe|exact Hlo']. }
  assert (Hp : positive_finite (mul h T) = true
               /\ IZR W - / 4 <= B2R (mul h T) <= IZR W + / 4).
  { destruct Hat as [E|[Hp Hle]].
    - rewrite E in Hab. destruct Hab as [Hab|[Hab _]]; discriminate.
    - destruct Hab as [E|[_ Hge]]; [rewrite E in Hp; discriminate|].
      split; [exact Hp | split; assumption]. }
  destruct Hp as [Hp Hbounds].
  rewrite (mul_one_r _ (positive_finite_wf _ Hp)).
  apply (round_exact _ w W Hp Hbounds Hw HW).
Qed.

End SameAspect.

Section QualityProperties.

Variables world Browser Page Buffer : Type.
Variable host : Host world Browser Page Buffer.

(** X19. The quality is checked and then ignored: two requests that differ
    only in a quality [validateOptions] accepts are converted in the same
    way, with the same result and the same effects. *)
Theorem convert_ignores_quality (options : ConversionOptions) (q : option number)
  (s : state world Browser) :
  validateOptions (numericOptions options) = Returned tt ->
  validateOptions (numericOptions (withQuality options q)) = Returned tt ->
  convert host (withQuality options q) s = convert host options s.
Proof.
  unfold numericOptions, withQuality. cbn [opt_width opt_height opt_scale quality].
  intros Ho Hq.
  unfold convert, convertSteps, failureResult, convertWithPuppeteer.
  cbn [inputPath outputPath opt_width opt_height opt_scale background quality].
  rewrite Ho, Hq. reflexivity.
Qed.

End QualityProperties.

(** ** normalizeBackgroundColor, once more *)

(** X20. What [normalizeBackgroundColor] returns is never empty, has one of
    the accepted shapes, and is left as it is by a second normalisation. *)
Theorem normalizeBackgroundColor_idempotent (background : option jsstring)
  (c : jsstring) :
  normalizeBackgroundColor background = Returned c ->
  c <> []
  /\ test validColorPattern c = true
  /\ normalizeBackgroundColor (Some c) = Returned c.
Proof.
  assert (Ht : [] <> transparent /\ test validColorPattern transparent = true
               /\ normalizeBackgroundColor (Some transparent) = Returned transparent).
  { split; [discriminate|]. split; vm_compute; reflexivity. }
  unfold normalizeBackgroundColor at 1.
  destruct background as [[|x b]|].
  - intros [= <-]. destruct Ht as (H1 & H2 & H3). repeat split; auto.
  - destruct (jsstring_eqb (x :: b) transparent) eqn:Eq.
    + intros [= <-]. destruct Ht as (H1 & H2 & H3). repeat split; auto.
    + destruct (test validColorPattern (x :: b)) eqn:Et; cbn [negb]; [|discriminate].
      intros [= <-]. split; [discriminate|]. split; [exact Et|].
      unfold normalizeBackgroundColor. rewrite Eq, Et. reflexivity.
  - intros [= <-]. destruct Ht as (H1 & H2 & H3). repeat split; auto.
Qed.

(** ** calculateDimensions: a size of whole numbers is kept *)

(** X21. Without a target, and with the scale 1 or absent, an intrinsic
    size of whole numbers is returned as it is. *)
Theorem calculateDimensions_identity (intrinsic : SVGDimensions) (scale : option number) :
  positive_finite (width intrinsic) = true -> is_integer (width intrinsic) = true ->
  positive_finite (height intrinsic) = true -> is_integer (height intrinsic) = true ->
  scale = None \/ scale = Some one ->
  calculateDimensions intrinsic (mkSize None None scale) = intrinsic.
Proof.
  intros Hw Hwi Hh Hhi Hs.
  assert (Hscale : match truthy scale with Some s => s | None => one end = one)
    by (destruct Hs as [-> | ->]; reflexivity).
  unfold calculateDimensions. cbn [size_width size_height size_scale truthy].
  rewrite Hscale.
  rewrite !mul_one_r by (apply positive_finite_wf; assumption).
  rewrite !round_integer by (try apply positive_finite_wf; assumption).
  destruct intrinsic. reflexivity.
Qed.

Lemma getDimensionsFromBrowser_truthy_witness :
  ToBoolean (width (mkDims (ofZ 300) (ofZ 40))) = true
  /\ ToBoolean (height (mkDims (ofZ 300) (ofZ 40))) = true.
Proof.
  apply (getDimensionsFromBrowser_truthy _ _ _ _
           (measuringHost (mkBoxes zero (ofZ 40) NaN zero)) (lit "icon.svg")
           (mkState (lit "<svg/>") None) (mkState (lit "<svg/>") (Some tt))).
  vm_compute. reflexivity.
Defined.

Lemma convertWithPuppeteer_closes_page_witness :
  exists w3,
    snd (convertWithPuppeteer textHost (lit "icon.svg") (lit "icon.png")
           (mkDims (ofZ 100) (ofZ 50)) transparent None
           (mkState (svgWithSize "100" "50") None))
    = mkState (snd (closePage textHost tt w3)) (Some tt)
    /\ forall e, fst (closePage textHost tt w3) = Threw e ->
         fst (convertWithPuppeteer textHost (lit "icon.svg") (lit "icon.png")
                (mkDims (ofZ 100) (ofZ 50)) transparent None
                (mkState (svgWithSize "100" "50") None))
         = Threw e.
Proof.
  apply (convertWithPuppeteer_closes_page _ _ _ _ textHost (lit "icon.svg")
           (lit "icon.png") (mkDims (ofZ 100) (ofZ 50)) transparent None
           (mkState (svgWithSize "100" "50") None)
           (mkState (svgWithSize "100" "50") (Some tt)) tt tt
           (svgWithSize "100" "50"));
    vm_compute; reflexivity.
Defined.

Lemma getDimensionsFromBrowser_closes_page_witness :
  exists w3,
    snd (getDimensionsFromBrowser textHost (lit "icon.svg") (mkState (lit "<svg/>") None))
    = mkState (snd (closePage textHost tt w3)) (Some tt)
    /\ forall e, fst (closePage textHost tt w3) = Threw e ->
         fst (getDimensionsFromBrowser textHost (lit "icon.svg")
                (mkState (lit "<svg/>") None))
         = Threw e.
Proof.
  apply (getDimensionsFromBrowser_closes_page _ _ _ _ textHost (lit "icon.svg")
           (mkState (lit "<svg/>") None) (mkState (lit "<svg/>") (Some tt)) tt tt
           (lit "<svg/>"));
    vm_compute; reflexivity.
Defined.

Lemma convert_success_checked_witness :
  existsSync textHost (lit "icon.svg") (svgWithSize "100" "50") = true
  /\ endsWith (toLowerCase (lit "icon.svg")) (lit ".svg") = true
  /\ validateOptions (numericOptions iconRequest) = Returned tt
  /\ (exists color, normalizeBackgroundColor None = Returned color)
  /\ lit "icon.png" = generateOutputPath (lit "icon.svg") None
  /\ @None text = None.
Proof.
  apply (convert_success_checked _ _ _ _ textHost iconRequest
           (mkState (svgWithSize "100" "50") None)
           (mkState (svgWithSize "100" "50") (Some tt))
           (mkResult true (lit "icon.png") (mkDims (ofZ 100) (ofZ 50)) None));
    vm_compute; reflexivity.
Defined.

Lemma convert_invalid_options_witness :
  convert textHost (iconRequestWidth zero) (mkState (svgWithSize "100" "50") None)
  = (Returned (failureResult (iconRequestWidth zero)
                 (ErrorObject (invalidPositive "width" zero))),
     mkState (svgWithSize "100" "50") None)
  /\ convertSVGtoPNG textHost (iconRequestWidth zero) (svgWithSize "100" "50")
     = (Returned (failureResult (iconRequestWidth zero)
                    (ErrorObject (invalidPositive "width" zero))),
        svgWithSize "100" "50").
Proof.
  exact (convert_invalid_options _ _ _ _ textHost (iconRequestWidth zero)
           (mkState (svgWithSize "100" "50") None) (svgWithSize "100" "50")
           (ErrorObject (invalidPositive "width" zero)) eq_refl).
Defined.

Lemma generateOutputPath_fresh_witness :
  endsWith (generateOutputPath (lit "Logo.SVG") None) (lit ".png") = true
  /\ generateOutputPath (lit "Logo.SVG") None <> lit "Logo.SVG"
  /\ length (generateOutputPath (lit "Logo.SVG") None) = length (lit "Logo.SVG").
Proof. exact (generateOutputPath_fresh (lit "Logo.SVG") eq_refl). Defined.

Lemma validateOptions_positive_witness :
  positive_finite (ofZ 10) = true /\ truthy (Some (ofZ 10)) = Some (ofZ 10).
Proof.
  exact (validateOptions_positive (Some (ofZ 10)) (Some (ofZ 20)) (Some (ofZ 2))
           (Some (ofZ 80)) (ofZ 10) eq_refl (or_introl eq_refl) eq_refl).
Defined.

Lemma calculateDimensions_whole_witness :
  whole_or_infinite
    (width (calculateDimensions (mkDims (ofZ 1000) (ofZ 1))
              (mkSize (Some (ofZ 100)) None None)))
  /\ whole_or_infinite
       (height (calculateDimensions (mkDims (ofZ 1000) (ofZ 1))
                  (mkSize (Some (ofZ 100)) None None))).
Proof.
  exact (calculateDimensions_whole (mkDims (ofZ 1000) (ofZ 1))
           (Some (ofZ 100)) None None eq_refl eq_refl eq_refl I I).
Defined.

Lemma calculateDimensions_same_aspect_witness :
  calculateDimensions (mkDims (ofZ 200) (ofZ 100))
    (mkSize (Some (ofZ 400)) (Some (ofZ 200)) None)
  = mkDims (ofZ 400) (ofZ 200).
Proof.
  exact (calculateDimensions_same_aspect (mkDims (ofZ 200) (ofZ 100))
           (ofZ 400) (ofZ 200) None eq_refl eq_refl eq_refl eq_refl eq_refl
           eq_refl eq_refl eq_refl (or_introl eq_refl) eq_refl).
Defined.

Lemma convert_ignores_quality_witness :
  convert textHost (withQuality iconRequest (Some (ofZ 80)))
    (mkState (svgWithSize "100" "50") None)
  = convert textHost iconRequest (mkState (svgWithSize "100" "50") None).
Proof.
  exact (convert_ignores_quality _ _ _ _ textHost iconRequest (Some (ofZ 80))
           (mkState (svgWithSize "100" "50") None) eq_refl eq_refl).
Defined.

Lemma normalizeBackgroundColor_idempotent_witness :
  lit "#fff" <> []
  /\ test validColorPattern (lit "#fff") = true
  /\ normalizeBackgroundColor (Some (lit "#fff")) = Returned (lit "#fff").
Proof.
  exact (normalizeBackgroundColor_idempotent (Some (lit "#fff")) (lit "#fff") eq_refl).
Defined.

Lemma calculateDimensions_identity_witness :
  calculateDimensions (mkDims (ofZ 100) (ofZ 50)) (mkSize None None None)
  = mkDims (ofZ 100) (ofZ 50).
Proof.
  exact (calculateDimensions_identity (mkDims (ofZ 100) (ofZ 50)) None
           eq_refl eq_refl eq_refl eq_refl (or_introl eq_refl)).
Defined.

Section SquareImages.

Local Open Scope R_scope.

(** The value of a binary64 number rounds to that number. *)
Lemma rounds_to_exact (r z : number) :
  rounds_to (B2R z) r -> positive_finite z = true -> r = z.
Proof.
  intros Hr Hz.
  destruct (positive_finite_inv z Hz) as (mz & ez & Ez & Hmz & Hez & Hgz).
  pose proof (B2R_below_emax z Hz) as Hmax.
  assert (Hzv : B2R z = IZR (Z.pos mz) * bpow ez) by (rewrite Ez; reflexivity).
  rewrite Hzv in Hmax, Hr.
  assert (Hup : at_most r (IZR (Z.pos mz) * bpow ez))
    by (apply (rounds_to_at_most _ _ _ _ Hr); [lia|lia|exact Hmax|lra]).
  assert (Hdown : r = Infinity
                  \/ (positive_finite r = true /\ IZR (Z.pos mz) * bpow ez <= B2R r))
    by (apply (rounds_to_above _ _ _ _ Hr); [lia|lia|lra]).
  destruct Hup as [E|[Hp Hle]].
  - rewrite E in Hdown. destruct Hdown as [H|[H _]]; discriminate.
  - destruct Hdown as [E|[_ Hge]]; [rewrite E in Hp; discriminate|].
    apply B2R_inj; [exact Hp | exact Hz |]. rewrite Hzv. lra.
Qed.

Lemma B2R_one : B2R one = 1.
Proof.
  change one with (S754_finite false 4503599627370496 (-52)). cbn [B2R cond_Zopp].
  pose proof (bpow_inv 52 ltac:(lia)) as Hinv.
  change (bpow (-52) * IZR (2 ^ 52) = 1) in Hinv.
  change (IZR 4503599627370496) with (IZR (2 ^ 52)). lra.
Qed.

(** [x / x] is [1] and [x / 1] is [x], exactly. *)
Lemma div_self (x : number) : positive_finite x = true -> div x x = one.
Proof.
  intros Hx. apply rounds_to_exact; [|reflexivity].
  pose proof (div_rounds x x Hx Hx) as Hr. pose proof (B2R_positive x Hx) as Hpos.
  replace (B2R x / B2R x) with (B2R one) in Hr; [exact Hr|].
  rewrite B2R_one. field. lra.
Qed.

Lemma div_one_r (x : number) : positive_finite x = true -> div x one = x.
Proof.
  intros Hx. apply rounds_to_exact; [|exact Hx].
  pose proof (div_rounds x one Hx eq_refl) as Hr.
  replace (B2R x / B2R one) with (B2R x) in Hr; [exact Hr|].
  rewrite B2R_one. field.
Qed.

(** X22. A square image gives a square result, whatever the (positive
    finite) target and scale: both components of the result are the same
    number. *)
Theorem calculateDimensions_square (intrinsic : SVGDimensions) (w h s : option number) :
  positive_finite (width intrinsic) = true ->
  height intrinsic = width intrinsic ->
  optional_positive w -> optional_positive h -> optional_positive s ->
  width (calculateDimensions intrinsic (mkSize w h s))
  = height (calculateDimensions intrinsic (mkSize w h s)).
Proof.
  intros Hiw Hsq Hw Hh Hs.
  unfold calculateDimensions. cbn [size_width size_height size_scale].
  rewrite Hsq, (div_self _ Hiw).
  destruct w as [w|], h as [h|]; cbn [optional_positive] in Hw, Hh;
    rewrite ?(positive_finite_truthy _ Hw), ?(positive_finite_truthy _ Hh);
    cbn [truthy].
  - destruct (gt one (div w h)); cbn [width height].
    + rewrite (div_one_r _ Hw). reflexivity.
    + rewrite (mul_one_r _ (positive_finite_wf _ Hh)). reflexivity.
  - cbn [width height]. rewrite (mul_one_r _ (positive_finite_wf _ Hw)). reflexivity.
  - cbn [width height]. rewrite (mul_one_r _ (positive_finite_wf _ Hh)). reflexivity.
  - reflexivity.
Qed.

End SquareImages.

Lemma calculateDimensions_square_witness :
  width (calculateDimensions (mkDims (ofZ 64) (ofZ 64))
           (mkSize (Some (ofZ 300)) (Some (ofZ 200)) (Some (ofZ 2))))
  = height (calculateDimensions (mkDims (ofZ 64) (ofZ 64))
              (mkSize (Some (ofZ 300)) (Some (ofZ 200)) (Some (ofZ 2)))).
Proof.
  exact (calculateDimensions_square (mkDims (ofZ 64) (ofZ 64))
           (Some (ofZ 300)) (Some (ofZ 200)) (Some (ofZ 2))
           eq_refl eq_refl eq_refl eq_refl eq_refl).
Defined.

(** ** The extractor reads back what was written *)

Lemma spaceClass_has (ic : bool) (c : N) : class_has ic spaceClass c = is_space c.
Proof. unfold class_has, spaceClass. cbn. apply orb_false_r. Qed.

Lemma quoteClass_quote (ic : bool) : class_has ic quoteClass 34 = true.
Proof. destruct ic; reflexivity. Qed.

(** A literal matches itself. *)
Lemma run_literal {R : Type} (ic : bool) (input l s : jsstring) (c : capture_list)
  (k : jsstring -> capture_list -> option R) :
  run ic input (Seqs (List.map Char l)) (l ++ s) c k = k s c.
Proof.
  revert c. induction l as [|a l IH]; intros c; cbn [List.map Seqs fold_right app run].
  - reflexivity.
  - unfold same_char. rewrite N.eqb_refl. cbn [orb]. apply IH.
Qed.

(** Greedy repetition takes the whole run of characters of the class when
    the rest of the pattern accepts what follows. *)
Lemma rep_greedy {R : Type} (ic : bool) (cc : charclass) (k : jsstring -> option R)
  (d : jsstring) (t : N) (rest : jsstring) (res : R) :
  forallb (class_has ic cc) d = true ->
  class_has ic cc t = false ->
  k (t :: rest) = Some res ->
  forall min, min <= length d ->
  rep ic cc min None (d ++ t :: rest) k = Some res.
Proof.
  intros Hd Ht Hk. induction d as [|x d IH]; intros min Hmin.
  - cbn [length] in Hmin. assert (min = 0) by lia. subst min.
    cbn [app rep]. rewrite Ht. exact Hk.
  - cbn [forallb] in Hd. apply andb_prop in Hd. destruct Hd as [Hx Hd].
    cbn [app rep option_map]. rewrite Hx.
    rewrite (IH Hd (pred min)) by (cbn [length] in Hmin; lia). reflexivity.
Qed.

(** The attribute [ name="digits"] at the start of the subject. *)
Lemma attribute_match (name : string) (input wi rest : jsstring) :
  wi <> [] -> forallb is_digit wi = true ->
  match_at true input (source (attributePattern name))
    ([32%N] ++ lit name ++ [61; 34]%N ++ wi ++ [34%N] ++ rest)
  = Some (rest, [(1, wi)]).
Proof.
  intros Hne Hd. unfold match_at, attributePattern. cbn [source].
  unfold Seqs at 1. cbn [fold_right].
  rewrite run_Seq. cbn [app]. cbn [run]. rewrite spaceClass_has.
  change (is_space 32) with true. cbv iota.
  unfold Lit. rewrite run_literal.
  change (same_char true 61 61) with true. rewrite quoteClass_quote. cbv iota.
  unfold Plus at 1. cbn [run].
  apply rep_greedy.
  - rewrite forallb_digitClass. exact Hd.
  - reflexivity.
  - cbv beta. rewrite !(firstn_prefix (wi ++ 34%N :: rest) wi (34%N :: rest) eq_refl).
    reflexivity.
  - destruct wi; [congruence|]. cbn [length]. lia.
Qed.

Lemma search_here (ic : bool) (input : jsstring) (r : regex) (i : nat)
  (s s1 : jsstring) (c1 : capture_list) :
  match_at ic input r s = Some (s1, c1) ->
  search ic input r i s = Some (mkMatch i (firstn (length s - length s1) s) c1 s1).
Proof. intros H. destruct s; cbn [search]; rewrite H; reflexivity. Qed.

(** No attribute starts at a character that is not white space. *)
Lemma attribute_skip (name : string) (input l s : jsstring) (i : nat) :
  forallb (fun c => negb (is_space c)) l = true ->
  search true input (source (attributePattern name)) i (l ++ s)
  = search true input (source (attributePattern name)) (length l + i) s.
Proof.
  revert i. induction l as [|c l IH]; intros i Hl; [reflexivity|].
  cbn [forallb] in Hl. apply andb_prop in Hl. destruct Hl as [Hc Hl].
  apply negb_true_iff in Hc.
  cbn [app search].
  assert (Hnone : match_at true input (source (attributePattern name)) (c :: l ++ s) = None).
  { unfold match_at, attributePattern. cbn [source]. unfold Seqs at 1. cbn [fold_right].
    rewrite run_Seq. cbn [run]. rewrite spaceClass_has, Hc. reflexivity. }
  rewrite Hnone, (IH (S i) Hl). cbn [length]. f_equal. lia.
Qed.

Lemma digits_not_space (d : jsstring) :
  forallb is_digit d = true -> forallb (fun c => negb (is_space c)) d = true.
Proof.
  induction d as [|c d IH]; cbn [forallb]; [reflexivity|]. intros H.
  apply andb_prop in H. destruct H as [Hc Hd].
  rewrite (is_digit_not_space _ Hc), (IH Hd). reflexivity.
Qed.

Lemma height_not_at_width (input s : jsstring) :
  match_at true input (source (attributePattern "height")) (32%N :: lit "width" ++ s)
  = None.
Proof. reflexivity. Qed.

Lemma decimal_whole (d : jsstring) :
  forallb is_digit d = true -> decimalValue d [] = ofZ (digits_value d).
Proof.
  intros Hd. unfold decimalValue, decimal. rewrite app_nil_r. cbn [length Z.of_nat Z.opp].
  pose proof (digits_value_nonneg d Hd) as Hn.
  destruct (digits_value d) as [|p|p]; [reflexivity| |lia].
  cbn [Z.leb Z.compare Z.pow Z.to_pos]. rewrite Pos.mul_1_r. reflexivity.
Qed.

(** The body of the extractor on such a document. *)
Lemma dimensionsOfContent_sized (wi hi rest : jsstring) :
  wi <> [] -> forallb is_digit wi = true ->
  hi <> [] -> forallb is_digit hi = true ->
  dimensionsOfContent (svgDocument wi hi rest)
  = Returned (mkDims (ofZ (digits_value wi)) (ofZ (digits_value hi))).
Proof.
  intros Hwn Hw Hhn Hh.
  assert (Ewidth : exists m, exec widthPattern (svgDocument wi hi rest) = Some m
                             /\ groups m = [(1, wi)]).
  { unfold exec, widthPattern, svgDocument. cbn [flag_i attributePattern].
    rewrite (attribute_skip "width" _ (lit "<svg")) by reflexivity.
    erewrite search_here by (apply attribute_match; assumption).
    eexists. split; reflexivity. }
  assert (Eheight : exists m, exec heightPattern (svgDocument wi hi rest) = Some m
                              /\ groups m = [(1, hi)]).
  { unfold exec, svgDocument, heightPattern. cbn [flag_i attributePattern].
    rewrite (attribute_skip "height" _ (lit "<svg")) by reflexivity.
    change ([32%N] ++ lit "width" ++ [61; 34]%N ++ wi ++ [34%N]
            ++ [32%N] ++ lit "height" ++ [61; 34]%N ++ hi ++ [34%N] ++ rest)
      with (32%N :: (lit "width" ++ [61; 34]%N ++ wi ++ [34%N]
            ++ [32%N] ++ lit "height" ++ [61; 34]%N ++ hi ++ [34%N] ++ rest)).
    cbn [search].
    rewrite (height_not_at_width _ ([61; 34]%N ++ wi ++ [34%N]
            ++ [32%N] ++ lit "height" ++ [61; 34]%N ++ hi ++ [34%N] ++ rest)).
    rewrite (attribute_skip "height" _ (lit "width")) by reflexivity.
    rewrite (attribute_skip "height" _ [61; 34]%N) by reflexivity.
    rewrite (attribute_skip "height" _ wi) by (apply digits_not_space; exact Hw).
    rewrite (attribute_skip "height" _ [34%N]) by reflexivity.
    erewrite search_here by (apply attribute_match; assumption).
    eexists. split; reflexivity. }
  destruct Ewidth as (wm & Ew & Hwg). destruct Eheight as (hm & Eh & Hhg).
  unfold dimensionsOfContent. rewrite Ew, Eh.
  unfold group_text. rewrite Hwg, Hhg. cbn [capture find fst snd Nat.eqb option_map].
  rewrite <- (app_nil_r wi) at 1. rewrite <- (app_nil_r hi) at 1.
  change [] with (fraction []) at 1 2.
  rewrite !parseFloat_decimal by (try assumption; reflexivity).
  fold (decimalValue wi []). fold (decimalValue hi []).
  rewrite !decimal_whole by assumption. reflexivity.
Qed.

Section ReadBack.

Variables world Browser Page Buffer : Type.
Variable host : Host world Browser Page Buffer.

(** X23. A file that opens with [<svg width="W" height="H"], the two sizes
    written as whole numbers in decimal digits, is read back as exactly
    those numbers, whatever follows in the file (a viewBox included); the
    extractor reads the file once and does not touch the browser. *)
Theorem parseSVGDimensions_reads_back (svgPath wi hi rest : jsstring)
  (s : state world Browser) (w' : world) :
  wi <> [] -> forallb is_digit wi = true ->
  hi <> [] -> forallb is_digit hi = true ->
  readFile host svgPath (outside s) = (Returned (svgDocument wi hi rest), w') ->
  parseSVGDimensions host svgPath s
  = (Returned (mkDims (ofZ (digits_value wi)) (ofZ (digits_value hi))),
     mkState w' (browser s)).
Proof.
  intros Hwn Hw Hhn Hh Hread.
  rewrite (parseSVGDimensions_reads _ _ _ _ host svgPath _ s w' Hread).
  rewrite dimensionsOfContent_sized by assumption. reflexivity.
Qed.

End ReadBack.

Lemma parseSVGDimensions_reads_back_witness :
  parseSVGDimensions textHost (lit "icon.svg")
    (mkState (svgDocument (lit "640") (lit "480") (lit " viewBox='0 0 4 3'>")) None)
  = (Returned (mkDims (ofZ 640) (ofZ 480)),
     mkState (svgDocument (lit "640") (lit "480") (lit " viewBox='0 0 4 3'>")) None).
Proof.
  apply (parseSVGDimensions_reads_back _ _ _ _ textHost (lit "icon.svg")
           (lit "640") (lit "480") (lit " viewBox='0 0 4 3'>")
           (mkState (svgDocument (lit "640") (lit "480") (lit " viewBox='0 0 4 3'>")) None));
    (discriminate || reflexivity).
Defined.

(** ** The viewBox step *)

Lemma separatorClass_has (ic : bool) (c : N) :
  class_has ic (mkClass false [ISpace; IChar 44]) c = is_separator c.
Proof.
  unfold class_has, is_separator. cbn [negated items existsb item_has xorb].
  rewrite (same_char_plain ic 44) by reflexivity. rewrite orb_false_r.
  rewrite (N.eqb_sym 44). reflexivity.
Qed.

Lemma is_digit_not_separator (c : N) : is_digit c = true -> is_separator c = false.
Proof. unfold is_digit, is_separator, is_space. intros H. crunchN. Qed.

Lemma noQuoteClass_has (ic : bool) (c : N) :
  class_has ic noQuoteClass c = negb ((c =? 34) || (c =? 39))%N.
Proof.
  unfold class_has, noQuoteClass. cbn [negated items existsb item_has xorb].
  rewrite (same_char_plain ic 34), (same_char_plain ic 39) by reflexivity.
  rewrite orb_false_r, (N.eqb_sym 34), (N.eqb_sym 39). reflexivity.
Qed.

Lemma is_digit_not_quote (c : N) :
  is_digit c = true -> negb ((c =? 34) || (c =? 39))%N = true.
Proof. unfold is_digit. intros H. crunchN. Qed.

(** A separator inside a viewBox value is not a quote: the white space
    characters and the comma are other characters. *)
Lemma is_separator_not_quote (c : N) :
  is_separator c = true -> negb ((c =? 34) || (c =? 39))%N = true.
Proof. unfold is_separator, is_space. intros H. crunchN. Qed.

(** *** split *)

Lemma split_go_skip (ic : bool) (input : jsstring) (r : regex) (l s piece : jsstring) :
  split_go ic input r (l ++ s) piece (length l) = split_go ic input r s piece 0.
Proof. induction l as [|c l IH]; [reflexivity|]. cbn [app length split_go]. exact IH. Qed.

(** Digits are collected into the current piece. *)
Lemma split_go_digits (input d s piece : jsstring) :
  forallb is_digit d = true ->
  split_go false input (source separatorPattern) (d ++ s) piece 0
  = split_go false input (source separatorPattern) s (rev d ++ piece) 0.
Proof.
  revert piece. induction d as [|c d IH]; intros piece Hd; [reflexivity|].
  cbn [forallb] in Hd. apply andb_prop in Hd. destruct Hd as [Hc Hd].
  cbn [app split_go].
  assert (Hnone : match_at false input (source separatorPattern) (c :: d ++ s) = None).
  { unfold match_at, separatorPattern, Plus. cbn [source run rep].
    rewrite separatorClass_has, (is_digit_not_separator _ Hc). reflexivity. }
  rewrite Hnone, (IH (c :: piece) Hd). cbn [rev]. rewrite <- app_assoc. reflexivity.
Qed.

(** A run of separators ends the piece. *)
Lemma split_go_separators (input sp s piece : jsstring) (t : N) :
  sp <> [] -> forallb is_separator sp = true -> is_separator t = false ->
  split_go false input (source separatorPattern) (sp ++ t :: s) piece 0
  = rev piece :: split_go false input (source separatorPattern) (t :: s) [] 0.
Proof.
  intros Hne Hsp Ht. destruct sp as [|c sp]; [congruence|].
  assert (Hm : match_at false input (source separatorPattern) ((c :: sp) ++ t :: s)
               = Some (t :: s, [])).
  { unfold match_at, separatorPattern, Plus. cbn [source run].
    apply rep_greedy.
    - rewrite (forallb_ext_eq _ is_separator); [exact Hsp|].
      intros x. apply separatorClass_has.
    - rewrite separatorClass_has. exact Ht.
    - reflexivity.
    - cbn [length]. lia. }
  cbn [app] in Hm |- *. cbn [split_go]. rewrite Hm.
  replace (length (c :: sp ++ t :: s) - length (t :: s)) with (S (length sp))
    by (cbn [length]; rewrite length_app; cbn [length]; lia).
  rewrite split_go_skip. reflexivity.
Qed.

Lemma split_viewBoxValue (a s1 b s2 c s3 d : jsstring) :
  a <> [] -> b <> [] -> c <> [] -> d <> [] ->
  forallb is_digit (a ++ b ++ c ++ d) = true ->
  s1 <> [] -> s2 <> [] -> s3 <> [] ->
  forallb is_separator (s1 ++ s2 ++ s3) = true ->
  split separatorPattern (viewBoxValue a s1 b s2 c s3 d) = [a; b; c; d].
Proof.
  intros Ha Hb Hc Hd Hdig H1 H2 H3 Hsep.
  rewrite forallb_app in Hdig. apply andb_prop in Hdig. destruct Hdig as [Hda Hdig].
  rewrite forallb_app in Hdig. apply andb_prop in Hdig. destruct Hdig as [Hdb Hdig].
  rewrite forallb_app in Hdig. apply andb_prop in Hdig. destruct Hdig as [Hdc Hdd].
  rewrite forallb_app in Hsep. apply andb_prop in Hsep. destruct Hsep as [Hs1 Hsep].
  rewrite forallb_app in Hsep. apply andb_prop in Hsep. destruct Hsep as [Hs2 Hs3].
  assert (Hhead : forall x, x <> [] -> forallb is_digit x = true ->
            exists t x', x = t :: x' /\ is_separator t = false).
  { intros [|t x'] Hx Hxd; [congruence|]. exists t, x'. split; [reflexivity|].
    cbn [forallb] in Hxd. apply andb_prop in Hxd.
    apply is_digit_not_separator. apply Hxd. }
  destruct (Hhead b Hb ltac:(assumption)) as (tb & b' & Eb & Htb).
  destruct (Hhead c Hc ltac:(assumption)) as (tc & c' & Ec & Htc).
  destruct (Hhead d Hd ltac:(assumption)) as (td & d' & Ed & Htd).
  unfold split, viewBoxValue. change (flag_i separatorPattern) with false.
  destruct a as [|ta a']; [congruence|].
  change ((ta :: a') ++ s1 ++ b ++ s2 ++ c ++ s3 ++ d)
    with (ta :: (a' ++ s1 ++ b ++ s2 ++ c ++ s3 ++ d)).
  cbv iota.
  change (ta :: (a' ++ s1 ++ b ++ s2 ++ c ++ s3 ++ d))
    with ((ta :: a') ++ s1 ++ b ++ s2 ++ c ++ s3 ++ d).
  set (whole := (ta :: a') ++ s1 ++ b ++ s2 ++ c ++ s3 ++ d) at 1.
  rewrite split_go_digits by assumption. rewrite app_nil_r.
  rewrite Eb at 1.
  change ((tb :: b') ++ s2 ++ c ++ s3 ++ d) with (tb :: (b' ++ s2 ++ c ++ s3 ++ d)).
  rewrite (split_go_separators whole s1) by assumption.
  rewrite rev_involutive. f_equal.
  change (tb :: (b' ++ s2 ++ c ++ s3 ++ d)) with ((tb :: b') ++ s2 ++ c ++ s3 ++ d).
  rewrite <- Eb.
  rewrite split_go_digits by assumption. rewrite app_nil_r.
  rewrite Ec at 1.
  change ((tc :: c') ++ s3 ++ d) with (tc :: (c' ++ s3 ++ d)).
  rewrite (split_go_separators whole s2) by assumption.
  rewrite rev_involutive. f_equal.
  change (tc :: (c' ++ s3 ++ d)) with ((tc :: c') ++ s3 ++ d).
  rewrite <- Ec.
  rewrite split_go_digits by assumption. rewrite app_nil_r.
  rewrite Ed at 1.
  rewrite (split_go_separators whole s3) by assumption.
  rewrite rev_involutive. f_equal.
  rewrite <- Ed. rewrite <- (app_nil_r d) at 1.
  rewrite split_go_digits by assumption. cbn [split_go]. rewrite app_nil_r, rev_involutive.
  reflexivity.
Qed.

Lemma viewBox_match (input value rest : jsstring) :
  value <> [] ->
  forallb (fun c => negb ((c =? 34) || (c =? 39))%N) value = true ->
  match_at true input (source viewBoxPattern)
    (lit "viewBox=" ++ [34%N] ++ value ++ [34%N] ++ rest)
  = Some (rest, [(1, value)]).
Proof.
  intros Hne Hv. unfold match_at, viewBoxPattern. cbn [source].
  unfold Seqs at 1. cbn [fold_right].
  rewrite run_Seq. unfold Lit. rewrite run_literal.
  cbn [app]. cbn [run]. rewrite quoteClass_quote.
  apply rep_greedy.
  - rewrite (forallb_ext_eq _ (fun c => negb ((c =? 34) || (c =? 39))%N)); [exact Hv|].
    intros x. apply noQuoteClass_has.
  - reflexivity.
  - cbv beta. rewrite (firstn_prefix (value ++ 34%N :: rest) value (34%N :: rest) eq_refl).
    reflexivity.
  - destruct value; [congruence|]. cbn [length]. lia.
Qed.

Lemma viewBox_skip_prefix (input s : jsstring) (i : nat) :
  search true input (source viewBoxPattern) i (lit "<svg " ++ s)
  = search true input (source viewBoxPattern) (5 + i) s.
Proof. reflexivity. Qed.

Lemma parseFloat_digits (d : jsstring) :
  d <> [] -> forallb is_digit d = true -> parseFloat d = ofZ (digits_value d).
Proof.
  intros Hne Hd. rewrite <- (decimal_whole d Hd). unfold decimalValue.
  rewrite <- (parseFloat_decimal d [] Hne Hd eq_refl). cbn [fraction].
  rewrite app_nil_r. reflexivity.
Qed.

Lemma sub_zero_r (x : number) : sub x zero = x.
Proof. destruct x as [[]|[]| |s m e]; reflexivity. Qed.

Lemma viewBoxValue_no_quote (a s1 b s2 c s3 d : jsstring) :
  forallb is_digit (a ++ b ++ c ++ d) = true ->
  forallb is_separator (s1 ++ s2 ++ s3) = true ->
  forallb (fun x => negb ((x =? 34) || (x =? 39))%N) (viewBoxValue a s1 b s2 c s3 d) = true.
Proof.
  intros Hdig Hsep. unfold viewBoxValue.
  rewrite !forallb_app in *.
  assert (Hd : forall l, forallb is_digit l = true ->
                 forallb (fun x => negb ((x =? 34) || (x =? 39))%N) l = true).
  { intros l Hl. apply forallb_forall. intros x Hx.
    apply is_digit_not_quote. apply (proj1 (forallb_forall _ _) Hl x Hx). }
  assert (Hs : forall l, forallb is_separator l = true ->
                 forallb (fun x => negb ((x =? 34) || (x =? 39))%N) l = true).
  { intros l Hl. apply forallb_forall. intros x Hx.
    apply is_separator_not_quote. apply (proj1 (forallb_forall _ _) Hl x Hx). }
  repeat match goal with
         | H : _ && _ = true |- _ => apply andb_prop in H; destruct H
         end.
  repeat (apply andb_true_intro; split); auto.
Qed.

(** The body of the extractor on a document with a viewBox, when the
    attribute step does not apply. *)
Lemma dimensionsOfContent_viewBox (a s1 b s2 c s3 d rest : jsstring) :
  let doc := svgViewBoxDocument (viewBoxValue a s1 b s2 c s3 d) rest in
  a <> [] -> b <> [] -> c <> [] -> d <> [] ->
  forallb is_digit (a ++ b ++ c ++ d) = true ->
  s1 <> [] -> s2 <> [] -> s3 <> [] ->
  forallb is_separator (s1 ++ s2 ++ s3) = true ->
  exec widthPattern doc = None \/ exec heightPattern doc = None ->
  dimensionsOfContent doc
  = Returned (mkDims (sub (ofZ (digits_value c)) (ofZ (digits_value a)))
                     (sub (ofZ (digits_value d)) (ofZ (digits_value b)))).
Proof.
  intros doc Ha Hb Hc Hd Hdig H1 H2 H3 Hsep Hmiss.
  assert (Hvb : exists m, exec viewBoxPattern doc = Some m
                          /\ groups m = [(1, viewBoxValue a s1 b s2 c s3 d)]).
  { unfold exec, doc, svgViewBoxDocument. change (flag_i viewBoxPattern) with true.
    rewrite viewBox_skip_prefix.
    erewrite search_here.
    - eexists. split; reflexivity.
    - apply viewBox_match.
      + unfold viewBoxValue. destruct a; [congruence|discriminate].
      + apply viewBoxValue_no_quote; assumption. }
  destruct Hvb as (vm & Evb & Hg).
  assert (Hfall : dimensionsOfContent doc
                  = let values := List.map parseFloat
                                    (split separatorPattern (group_text 1 vm)) in
                    if Nat.eqb (length values) 4
                    then Returned {| width := sub (nth 2 values NaN) (nth 0 values NaN);
                                     height := sub (nth 3 values NaN) (nth 1 values NaN) |}
                    else throwError dimensionsUnavailable).
  { unfold dimensionsOfContent. rewrite Evb.
    destruct Hmiss as [-> | ->]; [reflexivity|].
    destruct (exec widthPattern doc); reflexivity. }
  rewrite Hfall. unfold group_text. rewrite Hg.
  cbn [capture find fst snd Nat.eqb option_map].
  rewrite split_viewBoxValue by assumption.
  rewrite forallb_app in Hdig. apply andb_prop in Hdig. destruct Hdig as [Hda Hdig].
  rewrite forallb_app in Hdig. apply andb_prop in Hdig. destruct Hdig as [Hdb Hdig].
  rewrite forallb_app in Hdig. apply andb_prop in Hdig. destruct Hdig as [Hdc Hdd].
  cbv zeta. cbn [List.map length Nat.eqb nth].
  rewrite !parseFloat_digits by assumption. reflexivity.
Qed.

Section ViewBox.

Variables world Browser Page Buffer : Type.
Variable host : Host world Browser Page Buffer.

(** X24. A file that opens with [<svg viewBox="a b c d"], the four numbers
    written as whole numbers in decimal digits and separated by white space
    or commas, and that does not carry both a width and a height attribute,
    is given the size [(c - a, d - b)]: the size [(c, d)] for the usual
    viewBox that starts at [0 0]. *)
Theorem parseSVGDimensions_viewBox (svgPath a s1 b s2 c s3 d rest : jsstring)
  (s : state world Browser) (w' : world) :
  let doc := svgViewBoxDocument (viewBoxValue a s1 b s2 c s3 d) rest in
  a <> [] -> b <> [] -> c <> [] -> d <> [] ->
  forallb is_digit (a ++ b ++ c ++ d) = true ->
  s1 <> [] -> s2 <> [] -> s3 <> [] ->
  forallb is_separator (s1 ++ s2 ++ s3) = true ->
  exec widthPattern doc = None \/ exec heightPattern doc = None ->
  readFile host svgPath (outside s) = (Returned doc, w') ->
  parseSVGDimensions host svgPath s
  = (Returned (mkDims (sub (ofZ (digits_value c)) (ofZ (digits_value a)))
                      (sub (ofZ (digits_value d)) (ofZ (digits_value b)))),
     mkState w' (browser s))
  /\ (digits_value a = 0%Z -> digits_value b = 0%Z ->
      parseSVGDimensions host svgPath s
      = (Returned (mkDims (ofZ (digits_value c)) (ofZ (digits_value d))),
         mkState w' (browser s))).
Proof.
  intros doc Ha Hb Hc Hd Hdig H1 H2 H3 Hsep Hmiss Hread.
  assert (Hrun : parseSVGDimensions host svgPath s
                 = (Returned (mkDims (sub (ofZ (digits_value c)) (ofZ (digits_value a)))
                                     (sub (ofZ (digits_value d)) (ofZ (digits_value b)))),
                    mkState w' (browser s))).
  { rewrite (parseSVGDimensions_reads _ _ _ _ host svgPath _ s w' Hread).
    unfold doc. rewrite dimensionsOfContent_viewBox by assumption. reflexivity. }
  split; [exact Hrun|].
  intros Ea Eb. rewrite Hrun, Ea, Eb.
  change (ofZ 0) with zero. rewrite !sub_zero_r. reflexivity.
Qed.

End ViewBox.

Lemma parseSVGDimensions_viewBox_witness :
  parseSVGDimensions textHost (lit "icon.svg")
    (mkState (svgViewBoxDocument (lit "0 0 640,480") (lit ">")) None)
  = (Returned (mkDims (sub (ofZ 640) (ofZ 0)) (sub (ofZ 480) (ofZ 0))),
     mkState (svgViewBoxDocument (lit "0 0 640,480") (lit ">")) None)
  /\ (0%Z = 0%Z -> 0%Z = 0%Z ->
      parseSVGDimensions textHost (lit "icon.svg")
        (mkState (svgViewBoxDocument (lit "0 0 640,480") (lit ">")) None)
      = (Returned (mkDims (ofZ 640) (ofZ 480)),
         mkState (svgViewBoxDocument (lit "0 0 640,480") (lit ">")) None)).
Proof.
  apply (parseSVGDimensions_viewBox _ _ _ _ textHost (lit "icon.svg")
           (lit "0") (lit " ") (lit "0") (lit " ") (lit "640") (lit ",") (lit "480")
           (lit ">")
           (mkState (svgViewBoxDocument (lit "0 0 640,480") (lit ">")) None));
    try discriminate; try reflexivity.
  left. vm_compute. reflexivity.
Defined.

(** ** The pipeline when nothing fails *)

Section SuccessPath.

Variables world Browser Page Buffer : Type.
Variable host : Host world Browser Page Buffer.
Variables path content : jsstring.
Hypothesis coop : Cooperative host path content.

Lemma findChrome_returns (s : state world Browser) :
  exists cfg, findChrome host s = (Returned cfg, s).
Proof.
  destruct (coop_chrome _ _ _ coop (outside s)) as (p & Hin & Hex).
  unfold chromeCandidates in Hin.
  unfold findChrome, bind, observe, ret, throw.
  assert (Hplat : In p (platformPaths (platform host (outside s))) ->
            exists q, find (fun path => existsSync host path (outside s))
                        (platformPaths (platform host (outside s))) = Some q).
  { intros Hp.
    destruct (find (fun path => existsSync host path (outside s))
                (platformPaths (platform host (outside s)))) as [q|] eqn:Hf.
    - exists q. reflexivity.
    - pose proof (find_none _ _ Hf p Hp) as Hno. cbv beta in Hno. congruence. }
  destruct (env_CHROME_PATH host (outside s)) as [[|c e]|]; cbv beta iota zeta.
  - destruct (Hplat Hin) as (q & ->). exists (mkChrome q). reflexivity.
  - destruct (existsSync host (c :: e) (outside s)) eqn:Hce; cbv beta iota zeta.
    + exists (mkChrome (c :: e)). reflexivity.
    + destruct Hin as [<-|Hin]; [congruence|].
      destruct (Hplat Hin) as (q & ->). exists (mkChrome q). reflexivity.
  - destruct (Hplat Hin) as (q & ->). exists (mkChrome q). reflexivity.
Qed.

Lemma getBrowser_returns (s : state world Browser) :
  exists b s1, getBrowser host s = (Returned b, s1).
Proof.
  unfold getBrowser, bind, get_browser, observe, io, set_browser, ret.
  assert (Hstart : exists b s1,
            (let (o, s1) := findChrome host s in
             match o with
             | Returned a =>
                 let (o0, s2) :=
                   let '(r, w) := launch host (executablePath a) (outside s1) in
                   (r, mkState w (browser s1)) in
                 match o0 with
                 | Returned a0 => (Returned a0, mkState (outside s2) (Some a0))
                 | Threw e => (Threw e, s2)
                 end
             | Threw e => (Threw e, s1)
             end) = (Returned b, s1)).
  { destruct (findChrome_returns s) as (cfg & ->).
    destruct (coop_launch _ _ _ coop (executablePath cfg) (outside s)) as (b & Hb).
    destruct (launch host (executablePath cfg) (outside s)) as [r w]. cbn [fst] in Hb.
    subst r. eexists. eexists. reflexivity. }
  destruct (browser s) as [b0|]; cbv beta iota zeta.
  - destruct (connected host b0 (outside s)); cbv beta iota zeta.
    + exists b0, s. reflexivity.
    + exact Hstart.
  - exact Hstart.
Qed.

Lemma convertWithPuppeteer_returns (outPath : jsstring) (dims : SVGDimensions)
  (backgroundColor : jsstring) (quality_ : option number) (s : state world Browser) :
  exists s',
    convertWithPuppeteer host path outPath dims backgroundColor quality_ s
    = (Returned tt, s').
Proof.
  unfold convertWithPuppeteer, bind, try_finally, io, ret.
  destruct (getBrowser_returns s) as (b & s1 & ->). cbv beta iota zeta.
  destruct (coop_page _ _ _ coop b (outside s1)) as (page & Hp).
  destruct (newPage host b (outside s1)) as [r w2]. cbn [fst] in Hp. subst r.
  cbv beta iota zeta. cbn [outside browser].
  pose proof (coop_viewport _ _ _ coop page dims w2) as Hv.
  destruct (setViewport host page dims w2) as [r w3]. cbn [fst] in Hv. subst r.
  cbv beta iota zeta. cbn [outside browser].
  pose proof (coop_read _ _ _ coop w3) as Hr.
  destruct (readFile host path w3) as [r w4]. cbn [fst] in Hr. subst r.
  cbv beta iota zeta. cbn [outside browser].
  pose proof (coop_content _ _ _ coop page (renderPage content dims backgroundColor) w4) as Hc.
  destruct (setContent host page (renderPage content dims backgroundColor) w4) as [r w5].
  cbn [fst] in Hc. subst r. cbv beta iota zeta. cbn [outside browser].
  destruct (coop_screenshot _ _ _ coop page (jsstring_eqb backgroundColor transparent)
              dims w5) as (shot & Hs).
  destruct (screenshot host page (jsstring_eqb backgroundColor transparent) dims w5)
    as [r w6]. cbn [fst] in Hs. subst r. cbv beta iota zeta. cbn [outside browser].
  pose proof (coop_write _ _ _ coop outPath shot w6) as Hw.
  destruct (writeFile host outPath shot w6) as [r w7]. cbn [fst] in Hw. subst r.
  cbv beta iota zeta. cbn [outside browser].
  pose proof (coop_close _ _ _ coop page w7) as Hcl.
  destruct (closePage host page w7) as [r w8]. cbn [fst] in Hcl. subst r.
  eexists. reflexivity.
Qed.

(** X25. When nothing fails on the host, a request that passes the checks
    is converted: for a file named [*.svg] whose text gives a size, with
    valid options and background, [convert] returns success, the path of
    [generateOutputPath], the size [calculateDimensions] resolves from the
    size in the file, and no error. *)
Theorem convert_succeeds (options : ConversionOptions) (s : state world Browser)
  (intrinsic : SVGDimensions) (color : jsstring) :
  inputPath options = path ->
  endsWith (toLowerCase path) (lit ".svg") = true ->
  validateOptions (numericOptions options) = Returned tt ->
  dimensionsOfContent content = Returned intrinsic ->
  normalizeBackgroundColor (background options) = Returned color ->
  exists s',
    convert host options s
    = (Returned {| success := true;
                   res_outputPath := generateOutputPath path (outputPath options);
                   dimensions :=
                     calculateDimensions intrinsic
                       (mkSize (opt_width options) (opt_height options)
                          (opt_scale options));
                   error := None |}, s').
Proof.
  unfold numericOptions. intros Hpath Hext Hopt Hdims Hbg.
  unfold convert, try_catch, convertSteps. rewrite Hpath.
  unfold bind at 1.
  assert (Hv : exists s1, validateInputFile host path s = (Returned tt, s1)).
  { unfold validateInputFile, bind, observe, try_catch, io, throw, ret.
    rewrite (coop_exists _ _ _ coop). cbn [negb].
    pose proof (coop_access _ _ _ coop (outside s)) as Ha.
    destruct (accessSync host path (outside s)) as [r w1]. cbn [fst] in Ha. subst r.
    cbv beta iota zeta. rewrite Hext. cbn [negb]. eexists. reflexivity. }
  destruct Hv as (s1 & ->).
  unfold bind at 1. unfold pure at 1. rewrite Hopt.
  unfold bind at 1.
  assert (Hp : exists s2, try_catch (parseSVGDimensions host path)
                            (fun _ => getDimensionsFromBrowser host path) s1
                          = (Returned intrinsic, s2)).
  { unfold try_catch, parseSVGDimensions, bind, io, pure.
    pose proof (coop_read _ _ _ coop (outside s1)) as Hr.
    destruct (readFile host path (outside s1)) as [r w2]. cbn [fst] in Hr. subst r.
    cbv beta iota zeta. rewrite Hdims. eexists. reflexivity. }
  destruct Hp as (s2 & ->).
  unfold bind at 1. unfold pure at 1. rewrite Hbg.
  unfold bind at 1.
  destruct (convertWithPuppeteer_returns
              (generateOutputPath path (outputPath options))
              (calculateDimensions intrinsic
                 (mkSize (opt_width options) (opt_height options) (opt_scale options)))
              color (quality options) s2) as (s3 & ->).
  exists s3. reflexivity.
Qed.

(** *** The size measured by the browser *)

Variable boxes : option Boxes.
Hypothesis measured : forall page w, fst (measureSvg host page w) = Returned boxes.

Lemma getDimensionsFromBrowser_measured (s : state world Browser) :
  exists s',
    getDimensionsFromBrowser host path s
    = (match boxes with
       | Some bx => Returned (measuredSize bx)
       | None => Threw noSvgElement
       end, s').
Proof.
  unfold getDimensionsFromBrowser, bind, try_finally, io, throw, ret.
  destruct (getBrowser_returns s) as (b & s1 & ->). cbv beta iota zeta.
  destruct (coop_page _ _ _ coop b (outside s1)) as (page & Hp).
  destruct (newPage host b (outside s1)) as [r w2]. cbn [fst] in Hp. subst r.
  cbv beta iota zeta. cbn [outside browser].
  pose proof (coop_read _ _ _ coop w2) as Hr.
  destruct (readFile host path w2) as [r w3]. cbn [fst] in Hr. subst r.
  cbv beta iota zeta. cbn [outside browser].
  pose proof (coop_content _ _ _ coop page (measurePage content) w3) as Hc.
  destruct (setContent host page (measurePage content) w3) as [r w4].
  cbn [fst] in Hc. subst r. cbv beta iota zeta. cbn [outside browser].
  pose proof (measured page w4) as Hm.
  destruct (measureSvg host page w4) as [r w5]. cbn [fst] in Hm. subst r.
  cbv beta iota zeta. cbn [outside browser].
  destruct boxes as [bx|]; cbv beta iota zeta; cbn [outside browser].
  - pose proof (coop_close _ _ _ coop page w5) as Hcl.
    destruct (closePage host page w5) as [r w6]. cbn [fst] in Hcl. subst r.
    eexists. reflexivity.
  - pose proof (coop_close _ _ _ coop page w5) as Hcl.
    destruct (closePage host page w5) as [r w6]. cbn [fst] in Hcl. subst r.
    eexists. reflexivity.
Qed.

(** X26. A file whose text gives no size is converted at the size the
    browser measures: the bounding box, else the client box, else 300, on
    each axis.  What the extractor threw is dropped; when the page has no
    [svg] element the conversion fails with that message instead. *)
Theorem convert_falls_back (options : ConversionOptions) (s : state world Browser)
  (e : thrown) (color : jsstring) :
  inputPath options = path ->
  endsWith (toLowerCase path) (lit ".svg") = true ->
  validateOptions (numericOptions options) = Returned tt ->
  dimensionsOfContent content = Threw e ->
  normalizeBackgroundColor (background options) = Returned color ->
  exists s',
    convert host options s
    = (Returned
         match boxes with
         | Some bx =>
             {| success := true;
                res_outputPath := generateOutputPath path (outputPath options);
                dimensions :=
                  calculateDimensions (measuredSize bx)
                    (mkSize (opt_width options) (opt_height options)
                       (opt_scale options));
                error := None |}
         | None => failureResult options noSvgElement
         end, s').
Proof.
  unfold numericOptions. intros Hpath Hext Hopt Hdims Hbg.
  unfold convert, try_catch at 1, convertSteps. rewrite Hpath.
  unfold bind at 1.
  assert (Hv : exists s1, validateInputFile host path s = (Returned tt, s1)).
  { unfold validateInputFile, bind, observe, try_catch, io, throw, ret.
    rewrite (coop_exists _ _ _ coop). cbn [negb].
    pose proof (coop_access _ _ _ coop (outside s)) as Ha.
    destruct (accessSync host path (outside s)) as [r w1]. cbn [fst] in Ha. subst r.
    cbv beta iota zeta. rewrite Hext. cbn [negb]. eexists. reflexivity. }
  destruct Hv as (s1 & ->).
  unfold bind at 1. unfold pure at 1. rewrite Hopt.
  unfold bind at 1.
  assert (Hp : exists s2, try_catch (parseSVGDimensions host path)
                            (fun _ => getDimensionsFromBrowser host path) s1
                          = (match boxes with
                             | Some bx => Returned (measuredSize bx)
                             | None => Threw noSvgElement
                             end, s2)).
  { unfold try_catch, parseSVGDimensions, bind, io, pure.
    pose proof (coop_read _ _ _ coop (outside s1)) as Hr.
    destruct (readFile host path (outside s1)) as [r w2]. cbn [fst] in Hr. subst r.
    cbv beta iota zeta. rewrite Hdims.
    apply getDimensionsFromBrowser_measured. }
  destruct Hp as (s2 & ->).
  destruct boxes as [bx|].
  - unfold bind at 1. unfold pure at 1. rewrite Hbg.
    unfold bind at 1.
    destruct (convertWithPuppeteer_returns
                (generateOutputPath path (outputPath options))
                (calculateDimensions (measuredSize bx)
                   (mkSize (opt_width options) (opt_height options) (opt_scale options)))
                color (quality options) s2) as (s3 & ->).
    exists s3. reflexivity.
  - exists s2. reflexivity.
Qed.

End SuccessPath.

Lemma servingHost_cooperative (path content : jsstring) (boxes : option Boxes) :
  Cooperative (servingHost content boxes) path content.
Proof.
  constructor; intros; try reflexivity; try (exists tt; reflexivity).
  exists (lit "/usr/bin/google-chrome"). split; [left; reflexivity | reflexivity].
Qed.

Lemma convert_succeeds_witness :
  exists s',
    convert (servingHost (svgWithSize "100" "50") None)
      {| inputPath := lit "icon.svg"; outputPath := None; opt_width := Some (ofZ 200);
         opt_height := None; opt_scale := None; background := None; quality := None |}
      (mkState tt None)
    = (Returned {| success := true;
                   res_outputPath := generateOutputPath (lit "icon.svg") None;
                   dimensions :=
                     calculateDimensions (mkDims (ofZ 100) (ofZ 50))
                       (mkSize (Some (ofZ 200)) None None);
                   error := None |}, s').
Proof.
  apply (convert_succeeds _ _ _ _ (servingHost (svgWithSize "100" "50") None)
           (lit "icon.svg") (svgWithSize "100" "50")
           (servingHost_cooperative _ _ _)
           {| inputPath := lit "icon.svg"; outputPath := None;
              opt_width := Some (ofZ 200); opt_height := None; opt_scale := None;
              background := None; quality := None |}
           (mkState tt None) (mkDims (ofZ 100) (ofZ 50)) transparent);
    vm_compute; reflexivity.
Defined.

Lemma convert_falls_back_witness :
  exists s',
    convert (servingHost (lit "<svg><circle r='4'/></svg>")
               (Some (mkBoxes (ofZ 8) (ofZ 8) zero zero)))
      iconRequest (mkState tt None)
    = (Returned {| success := true;
                   res_outputPath := generateOutputPath (lit "icon.svg") None;
                   dimensions :=
                     calculateDimensions
                       (measuredSize (mkBoxes (ofZ 8) (ofZ 8) zero zero))
                       (mkSize None None None);
                   error := None |}, s').
Proof.
  apply (convert_falls_back _ _ _ _
           (servingHost (lit "<svg><circle r='4'/></svg>")
              (Some (mkBoxes (ofZ 8) (ofZ 8) zero zero)))
           (lit "icon.svg") (lit "<svg><circle r='4'/></svg>")
           (servingHost_cooperative _ _ _)
           (Some (mkBoxes (ofZ 8) (ofZ 8) zero zero)) (fun _ _ => eq_refl)
           iconRequest (mkState tt None) (ErrorObject dimensionsUnavailable) transparent);
    vm_compute; reflexivity.
Defined.

(* ================================================================== *)
(** * The sizes read from the width and height attributes *)
(* ================================================================== *)

(** ** Regular expressions: a match that exists is found *)

Section MatcherCompleteness.
Variable ic : bool.
Variable input : jsstring.

Lemma rep_complete {R : Type} (cc : charclass) (k : jsstring -> option R)
  (s : jsstring) :
  k s <> None ->
  forall (taken : jsstring) (min : nat) (max : option nat),
    forallb (class_has ic cc) taken = true ->
    min <= length taken ->
    match max with Some n => length taken <= n | None => True end ->
    rep ic cc min max (taken ++ s) k <> None.
Proof.
  intros Hk. induction taken as [|x taken IH]; intros min max Hall Hmin Hmax.
  - cbn [length] in Hmin. assert (min = 0) by lia. subst min. cbn [app].
    destruct s as [|c s']; cbn [rep]; destruct max as [[|n]|]; try exact Hk;
      destruct (class_has ic cc c); try exact Hk;
      match goal with
      | |- match ?X with _ => _ end <> None => destruct X; [discriminate | exact Hk]
      end.
  - cbn [forallb] in Hall. apply andb_prop in Hall. destruct Hall as [Hx Hall].
    cbn [length] in Hmin, Hmax. cbn [app rep].
    destruct max as [[|n]|]; [lia| |]; rewrite Hx.
    + assert (Hrec : rep ic cc (pred min) (option_map pred (Some (S n))) (taken ++ s) k
                     <> None) by (apply IH; cbn [option_map pred]; auto; lia).
      destruct (rep ic cc (pred min) (option_map pred (Some (S n))) (taken ++ s) k);
        [discriminate | congruence].
    + assert (Hrec : rep ic cc (pred min) (option_map pred None) (taken ++ s) k <> None)
        by (apply IH; cbn [option_map]; auto; lia).
      destruct (rep ic cc (pred min) (option_map pred None) (taken ++ s) k);
        [discriminate | congruence].
Qed.

(** The matcher finds a match whenever the pattern has one that the rest of
    the pattern accepts. *)
Theorem run_complete (r : regex) (s : jsstring) (c : capture_list)
  (s' : jsstring) (c' : capture_list) :
  matches ic input r s c s' c' ->
  forall (R : Type) (k : jsstring -> capture_list -> option R),
    k s' c' <> None -> run ic input r s c k <> None.
Proof.
  induction 1 as [s c|a x s c Hx|cc x s c Hx|r1 r2 s c s1 c1 s2 c2 _ IH1 _ IH2
                 |r1 r2 s c s1 c1 _ IH|r1 r2 s c s1 c1 _ IH
                 |r s c s1 c1 _ IH Hlen|r s c|cc min max taken s c Hall Hmin Hmax
                 |n r s c s1 c1 _ IH|s c Hlen|c];
    intros R k Hk; cbn [run].
  - exact Hk.
  - rewrite Hx. exact Hk.
  - rewrite Hx. exact Hk.
  - apply IH1. apply IH2. exact Hk.
  - specialize (IH R k Hk). destruct (run ic input r1 s c k); [discriminate | congruence].
  - destruct (run ic input r1 s c k); [discriminate | apply IH; exact Hk].
  - match goal with
    | |- match ?X with _ => _ end <> None =>
        assert (Hin : X <> None);
        [apply IH; rewrite (proj2 (Nat.eqb_neq _ _) Hlen); exact Hk
        | destruct X; [discriminate | congruence]]
    end.
  - match goal with
    | |- match ?X with _ => _ end <> None => destruct X; [discriminate | exact Hk]
    end.
  - apply rep_complete; auto.
  - apply IH. exact Hk.
  - rewrite Hlen, Nat.eqb_refl. exact Hk.
  - exact Hk.
Qed.

Lemma match_at_complete (r : regex) (s s' : jsstring) (c' : capture_list) :
  matches ic input r s [] s' c' -> match_at ic input r s <> None.
Proof. intros H. unfold match_at. apply (run_complete _ _ _ _ _ H). discriminate. Qed.

(** [search] returns the leftmost match. *)
Lemma search_first (r : regex) :
  forall (s : jsstring) (i : nat) (m : match_result),
    search ic input r i s = Some m ->
    forall pre rest s' c',
      s = pre ++ rest -> matches ic input r rest [] s' c' -> index m <= i + length pre.
Proof.
  induction s as [|x s IH]; intros i m H pre rest s' c' Hs Hm; cbn [search] in H.
  - destruct (match_at ic input r []) as [[s1 c1]|]; [|discriminate].
    injection H as <-. cbn [index]. lia.
  - destruct (match_at ic input r (x :: s)) as [[s1 c1]|] eqn:E.
    + injection H as <-. cbn [index]. lia.
    + destruct pre as [|y pre].
      * cbn [app] in Hs. subst rest. apply match_at_complete in Hm. congruence.
      * cbn [app] in Hs. injection Hs as -> ->.
        specialize (IH _ _ H pre rest s' c' eq_refl Hm). cbn [length]. lia.
Qed.

(** [search] finds a match when there is one. *)
Lemma search_complete (r : regex) (rest s' : jsstring) (c' : capture_list) :
  matches ic input r rest [] s' c' ->
  forall (pre : jsstring) (i : nat), search ic input r i (pre ++ rest) <> None.
Proof.
  intros Hm. apply match_at_complete in Hm.
  induction pre as [|x pre IH]; intros i.
  - cbn [app]. destruct rest as [|y rest]; cbn [search];
      destruct (match_at ic input r _) as [[s1 c1]|]; congruence.
  - cbn [app search].
    destruct (match_at ic input r (x :: pre ++ rest)) as [[s1 c1]|]; [discriminate|].
    apply IH.
Qed.

End MatcherCompleteness.

(** ** The shape of a width or height attribute *)

Lemma same_char_fold (a x : N) :
  same_char true a x = (toLowerCase1 x =? toLowerCase1 a)%N.
Proof.
  unfold same_char, swapcase, toLowerCase1, is_lower, is_upper. cbn [andb].
  crunchN.
Qed.

Lemma quoteClass_has (c : N) : class_has true quoteClass c = is_quote c.
Proof.
  unfold class_has, quoteClass, is_quote. cbn [negated items existsb item_has xorb].
  rewrite !same_char_plain by reflexivity. crunchN.
Qed.

Lemma same_letters_length (a b : jsstring) :
  same_letters a b = true -> length a = length b.
Proof.
  revert b. induction a as [|x a IH]; intros [|y b] H; cbn in H; try discriminate.
  - reflexivity.
  - apply andb_prop in H. destruct H as [_ H]. cbn [length]. f_equal. apply IH, H.
Qed.

(** What a literal matches under the [i] flag. *)
Lemma matches_literal_inv (input l : jsstring) :
  forall s c s' c',
    matches true input (Seqs (List.map Char l)) s c s' c' ->
    exists nm, s = nm ++ s' /\ c' = c /\ same_letters nm l = true.
Proof.
  induction l as [|a l IH]; intros s c s' c' H; cbn [List.map Seqs fold_right] in H.
  - apply matches_Empty_inv in H. destruct H as [-> ->]. exists []. auto.
  - apply matches_Seq_inv in H. destruct H as (s1 & c1 & Ha & H).
    apply matches_Char_inv in Ha. destruct Ha as (x & -> & -> & Hx).
    apply IH in H. destruct H as (nm & -> & -> & Hnm).
    exists (x :: nm). cbn [app same_letters]. rewrite same_char_fold in Hx.
    rewrite Hx, Hnm. auto.
Qed.

Lemma matches_literal (input l : jsstring) :
  forall nm s c,
    same_letters nm l = true ->
    matches true input (Seqs (List.map Char l)) (nm ++ s) c s c.
Proof.
  induction l as [|a l IH]; intros [|x nm] s c H; cbn in H; try discriminate.
  - constructor.
  - apply andb_prop in H. destruct H as [Hx H].
    cbn [List.map Seqs fold_right app]. econstructor.
    + constructor. rewrite same_char_fold. exact Hx.
    + apply IH. exact H.
Qed.

(** What follows the number of an attribute is neither a digit nor a
    point. *)
Lemma unit_first (unit : jsstring) (q : N) (post : jsstring) :
  is_unit unit = true -> is_quote q = true ->
  exists c t, unit ++ q :: post = c :: t /\ is_digit c = false /\ (c =? 46)%N = false.
Proof.
  intros Hu Hq. destruct unit as [|x unit].
  - exists q, post. split; [reflexivity|]. unfold is_quote in Hq. unfold is_digit.
    split; crunchN.
  - exists x, (unit ++ q :: post). split; [reflexivity|].
    unfold is_unit in Hu. cbn [is_nil orb existsb] in Hu.
    assert (Hx : (toLowerCase1 x =? 112)%N || (toLowerCase1 x =? 105)%N
                 || (toLowerCase1 x =? 99)%N || (toLowerCase1 x =? 109)%N = true).
    { repeat (apply orb_prop in Hu; destruct Hu as [Hu|Hu]); try discriminate;
        cbn [same_letters lit List.map list_ascii_of_string] in Hu;
        apply andb_prop in Hu; destruct Hu as [Hu _];
        apply N.eqb_eq in Hu; rewrite Hu; reflexivity. }
    unfold toLowerCase1, is_upper in Hx. unfold is_digit. split; crunchN.
Qed.

Lemma fraction_first (fp unit : jsstring) (q : N) (post : jsstring) :
  is_unit unit = true -> is_quote q = true ->
  match fraction fp ++ unit ++ q :: post with
  | c :: _ => is_digit c = false
  | [] => True
  end.
Proof.
  intros Hu Hq. destruct fp as [|f fp]; cbn [fraction app]; [|reflexivity].
  destruct (unit_first unit q post Hu Hq) as (c & t & -> & Hc & _). exact Hc.
Qed.

(** The parts of a match of the attribute pattern. *)
Lemma attribute_shape (name : string) (input s0 s' : jsstring) (c' : capture_list) :
  matches true input (source (attributePattern name)) s0 [] s' c' ->
  exists ws nm q1 ip fp unit q2,
    s0 = ws :: nm ++ 61%N :: q1 :: ip ++ fraction fp ++ unit ++ q2 :: s'
    /\ is_space ws = true /\ same_letters nm (lit name) = true
    /\ is_quote q1 = true /\ is_quote q2 = true /\ is_unit unit = true
    /\ ip <> [] /\ forallb is_digit ip = true /\ forallb is_digit fp = true
    /\ capture 1 c' = Some (ip ++ fraction fp).
Proof.
  intros Hm.
  unfold attributePattern, Seqs, Plus in Hm. cbn [source fold_right] in Hm.
  apply matches_Seq_inv in Hm. destruct Hm as (s1 & c1 & Hws & Hm).
  apply matches_Seq_inv in Hm. destruct Hm as (s2 & c2 & Hname & Hm).
  apply matches_Seq_inv in Hm. destruct Hm as (s3 & c3 & Heq & Hm).
  apply matches_Seq_inv in Hm. destruct Hm as (s4 & c4 & Hq1 & Hm).
  apply matches_Seq_inv in Hm. destruct Hm as (s5 & c5 & Hnum & Hm).
  apply matches_Seq_inv in Hm. destruct Hm as (s6 & c6 & Hunit & Hm).
  apply matches_Seq_inv in Hm. destruct Hm as (s7 & c7 & Hq2 & Hm).
  apply matches_Empty_inv in Hm. destruct Hm as [<- <-].
  apply matches_Class_inv in Hws. destruct Hws as (ws & -> & -> & Hws).
  rewrite spaceClass_has in Hws.
  apply matches_literal_inv in Hname. destruct Hname as (nm & -> & -> & Hnm).
  apply matches_Char_inv in Heq. destruct Heq as (x & -> & -> & Hx).
  rewrite same_char_plain in Hx by reflexivity. apply N.eqb_eq in Hx. subst x.
  apply matches_Class_inv in Hq1. destruct Hq1 as (q1 & -> & -> & Hq1).
  rewrite quoteClass_has in Hq1.
  apply matches_Class_inv in Hq2. destruct Hq2 as (q2 & -> & -> & Hq2).
  rewrite quoteClass_has in Hq2.
  (* the number *)
  apply matches_Group_inv in Hnum. destruct Hnum as (c4' & Hnum & ->).
  apply matches_Seq_inv in Hnum. destruct Hnum as (s4' & c4'' & Hint & Hfrac).
  apply matches_Rep_inv in Hint. destruct Hint as (ip & -> & -> & Hip & Hlen & _).
  rewrite forallb_digitClass in Hip.
  assert (Hne : ip <> []) by (destruct ip; [cbn in Hlen; lia | discriminate]).
  assert (Hfp : exists fp, s4' = fraction fp ++ s5 /\ c4' = []
                           /\ forallb is_digit fp = true).
  { apply matches_Opt_inv in Hfrac. destruct Hfrac as [[Hfrac _]|[-> ->]].
    - apply matches_Seq_inv in Hfrac. destruct Hfrac as (s8 & c8 & Hpoint & Hfp).
      apply matches_Char_inv in Hpoint. destruct Hpoint as (x & -> & -> & Hx).
      rewrite same_char_plain in Hx by reflexivity. apply N.eqb_eq in Hx. subst x.
      apply matches_Rep_inv in Hfp. destruct Hfp as (fp & -> & -> & Hfp & Hlen2 & _).
      rewrite forallb_digitClass in Hfp.
      exists fp. destruct fp as [|d fp]; [cbn in Hlen2; lia|]. auto.
    - exists []. auto. }
  destruct Hfp as (fp & -> & -> & Hfp).
  rewrite (firstn_prefix (ip ++ fraction fp ++ s5) (ip ++ fraction fp) s5) in Hunit
    by (rewrite <- app_assoc; reflexivity).
  (* the unit *)
  assert (Hu : exists unit, s5 = unit ++ q2 :: s' /\ is_unit unit = true
                            /\ capture 1 c6 = Some (ip ++ fraction fp)).
  { apply matches_Opt_inv in Hunit. destruct Hunit as [[Hunit _]|[-> ->]].
    - apply matches_Group_inv in Hunit. destruct Hunit as (c5' & Hunit & ->).
      cbn [Alts] in Hunit. unfold Lit in Hunit.
      assert (Hunit' : exists unit, s5 = unit ++ q2 :: s'
                /\ c5' = [(1, ip ++ fraction fp)]
                /\ existsb (same_letters unit)
                     [lit "px"; lit "pt"; lit "pc"; lit "in"; lit "cm"; lit "mm"] = true).
      { repeat (apply matches_Alt_inv in Hunit; destruct Hunit as [Hunit|Hunit]);
          apply matches_literal_inv in Hunit; destruct Hunit as (unit & -> & -> & Hsame);
          exists unit; (split; [reflexivity|]); (split; [reflexivity|]);
          cbn [existsb]; rewrite Hsame, ?orb_true_r; reflexivity. }
      clear Hunit. destruct Hunit' as (unit & -> & -> & Hsame).
      exists unit. split; [reflexivity|]. split; [|reflexivity].
      unfold is_unit. rewrite Hsame. apply orb_true_r.
    - exists []. split; [reflexivity|]. split; reflexivity. }
  destruct Hu as (unit & -> & Hunit' & Hcap).
  exists ws, nm, q1, ip, fp, unit, q2.
  repeat split; auto.
Qed.

(** An attribute in the text is a match of the attribute pattern. *)
Lemma attribute_matches (name : string) (input : jsstring) (ws : N) (nm : jsstring)
  (q1 : N) (ip fp unit : jsstring) (q2 : N) (post : jsstring) :
  is_space ws = true -> same_letters nm (lit name) = true ->
  is_quote q1 = true -> is_quote q2 = true -> is_unit unit = true ->
  ip <> [] -> forallb is_digit ip = true -> forallb is_digit fp = true ->
  exists c',
    matches true input (source (attributePattern name))
      (ws :: nm ++ 61%N :: q1 :: ip ++ fraction fp ++ unit ++ q2 :: post) [] post c'.
Proof.
  intros Hws Hnm Hq1 Hq2 Hunit Hne Hip Hfp.
  unfold attributePattern, Seqs, Plus. cbn [source fold_right].
  assert (Hu : exists c5,
             matches true input
               (Opt (Group 2 (Alts (Lit "px")
                                [Lit "pt"; Lit "pc"; Lit "in"; Lit "cm"; Lit "mm"])))
               (unit ++ q2 :: post) [(1, ip ++ fraction fp)] (q2 :: post) c5).
  { destruct unit as [|u unit].
    - eexists. apply M_OptNone.
    - unfold is_unit in Hunit. cbn [is_nil orb existsb] in Hunit.
      eexists. apply M_OptSome.
      + apply M_Group. cbn [Alts]. unfold Lit.
        repeat (apply orb_prop in Hunit; destruct Hunit as [Hunit|Hunit]);
          try discriminate.
        * apply M_AltL. apply matches_literal. exact Hunit.
        * apply M_AltR, M_AltL. apply matches_literal. exact Hunit.
        * apply M_AltR, M_AltR, M_AltL. apply matches_literal. exact Hunit.
        * apply M_AltR, M_AltR, M_AltR, M_AltL. apply matches_literal. exact Hunit.
        * apply M_AltR, M_AltR, M_AltR, M_AltR, M_AltL. apply matches_literal. exact Hunit.
        * apply M_AltR, M_AltR, M_AltR, M_AltR, M_AltR. apply matches_literal. exact Hunit.
      + rewrite !length_app. cbn [length]. lia. }
  destruct Hu as (c5 & Hu).
  eexists.
  eapply M_Seq; [apply M_Class; rewrite spaceClass_has; exact Hws|].
  eapply M_Seq; [apply matches_literal; exact Hnm|].
  eapply M_Seq; [apply M_Char; reflexivity|].
  eapply M_Seq; [apply M_Class; rewrite quoteClass_has; exact Hq1|].
  eapply M_Seq.
  { apply M_Group with (s1 := unit ++ q2 :: post).
    eapply M_Seq.
    - apply M_Rep with (taken := ip); [rewrite forallb_digitClass; exact Hip| |exact I].
      destruct ip; [congruence | cbn [length]; lia].
    - destruct fp as [|f fp]; cbn [fraction app].
      + apply M_OptNone.
      + apply M_OptSome; [|cbn [length]; rewrite !length_app; cbn [length]; lia].
        eapply M_Seq; [apply M_Char; reflexivity|].
        apply M_Rep with (taken := f :: fp);
          [rewrite forallb_digitClass; exact Hfp | cbn [length]; lia | exact I]. }
  rewrite (firstn_prefix (ip ++ fraction fp ++ unit ++ q2 :: post)
             (ip ++ fraction fp) (unit ++ q2 :: post))
    by (rewrite <- app_assoc; reflexivity).
  eapply M_Seq; [exact Hu|].
  eapply M_Seq; [apply M_Class; rewrite quoteClass_has; exact Hq2|].
  apply M_Empty.
Qed.

Lemma app_same_length {A : Type} (a a' b b' : list A) :
  a ++ b = a' ++ b' -> length a = length a' -> a = a' /\ b = b'.
Proof.
  revert a'. induction a as [|x a IH]; intros [|y a'] H Hlen; cbn in Hlen; try lia.
  - auto.
  - cbn [app] in H. injection H as -> H. injection Hlen as Hlen.
    destruct (IH _ H Hlen) as [-> ->]. auto.
Qed.

(** The attribute that starts at a given place is read in one way only. *)
Lemma attributeAt_unique (name : string) (svg pre ip fp pre' ip' fp' : jsstring) :
  attributeAt name svg pre ip fp -> attributeAt name svg pre' ip' fp' ->
  length pre = length pre' -> ip = ip' /\ fp = fp'.
Proof.
  intros (ws & nm & q1 & unit & q2 & post & Hs & _ & Hnm & _ & Hq2 & Hu & _ & Hip & Hfp)
         (ws' & nm' & q1' & unit' & q2' & post' & Hs' & _ & Hnm' & _ & Hq2' & Hu' & _ & Hip' & Hfp')
         Hlen.
  rewrite Hs in Hs'. apply app_same_length in Hs'; [|exact Hlen].
  destruct Hs' as [_ Hs']. injection Hs' as _ Hs'.
  apply app_same_length in Hs';
    [|rewrite (same_letters_length _ _ Hnm), (same_letters_length _ _ Hnm'); reflexivity].
  destruct Hs' as [_ Hs']. injection Hs' as _ Hs'.
  pose proof (span_digits_all ip _ Hip (fraction_first fp unit q2 post Hu Hq2)) as H1.
  pose proof (span_digits_all ip' _ Hip' (fraction_first fp' unit' q2' post' Hu' Hq2')) as H2.
  rewrite Hs', H2 in H1. injection H1 as -> Hrest. split; [reflexivity|].
  destruct (unit_first unit q2 post Hu Hq2) as (c & t & Ec & Hc & Hc46).
  destruct (unit_first unit' q2' post' Hu' Hq2') as (c' & t' & Ec' & Hc' & Hc46').
  rewrite Ec, Ec' in Hrest.
  destruct fp as [|f fp], fp' as [|f' fp']; cbn [fraction app] in Hrest.
  - reflexivity.
  - injection Hrest as <- _. discriminate.
  - injection Hrest as -> _. discriminate.
  - injection Hrest as -> Hrest.
    cbn [forallb] in Hfp, Hfp'.
    apply andb_prop in Hfp, Hfp'. destruct Hfp as [_ Hfp], Hfp' as [_ Hfp'].
    pose proof (span_digits_all fp (c :: t) Hfp Hc) as H3.
    pose proof (span_digits_all fp' (c' :: t') Hfp' Hc') as H4.
    rewrite <- Hrest, H4 in H3. injection H3 as -> _. reflexivity.
Qed.

(** What [exec] finds is the first attribute of the text. *)
Lemma exec_attribute (name : string) (svg : jsstring) (m : match_result) :
  exec (attributePattern name) svg = Some m ->
  exists pre ip fp,
    firstAttribute name svg pre ip fp
    /\ index m = length pre /\ group_text 1 m = ip ++ fraction fp.
Proof.
  unfold exec. change (flag_i (attributePattern name)) with true. intros H.
  pose proof (search_first true svg _ _ _ _ H) as Hfirst.
  apply search_sound in H. destruct H as (pre & s0 & Hs & Hi & Hm & _).
  apply attribute_shape in Hm.
  destruct Hm as (ws & nm & q1 & ip & fp & unit & q2 & Hs0 & Hws & Hnm & Hq1 & Hq2
                  & Hu & Hne & Hip & Hfp & Hcap).
  exists pre, ip, fp. split; [split|split].
  - exists ws, nm, q1, unit, q2, (after m). rewrite Hs, Hs0. repeat split; auto.
  - intros pre' ip' fp'
      (ws' & nm' & q1' & unit' & q2' & post' & Hs' & Hws' & Hnm' & Hq1' & Hq2' & Hu'
       & Hne' & Hip' & Hfp').
    destruct (attribute_matches name svg ws' nm' q1' ip' fp' unit' q2' post'
                Hws' Hnm' Hq1' Hq2' Hu' Hne' Hip' Hfp') as (c' & Hm').
    pose proof (Hfirst _ _ _ _ Hs' Hm'). lia.
  - lia.
  - apply group_text_capture. exact Hcap.
Qed.

(** The first attribute of the text is what [exec] finds. *)
Lemma firstAttribute_exec (name : string) (svg pre ip fp : jsstring) :
  firstAttribute name svg pre ip fp ->
  exists m,
    exec (attributePattern name) svg = Some m
    /\ index m = length pre /\ group_text 1 m = ip ++ fraction fp.
Proof.
  intros [Hat Hmin].
  assert (Hsome : exec (attributePattern name) svg <> None).
  { destruct Hat as (ws & nm & q1 & unit & q2 & post & Hs & Hws & Hnm & Hq1 & Hq2 & Hu
                     & Hne & Hip & Hfp).
    destruct (attribute_matches name svg ws nm q1 ip fp unit q2 post
                Hws Hnm Hq1 Hq2 Hu Hne Hip Hfp) as (c' & Hm).
    pose proof (search_complete true svg _ _ _ _ Hm pre 0) as Hfound.
    rewrite <- Hs in Hfound. exact Hfound. }
  destruct (exec (attributePattern name) svg) as [m|] eqn:E; [|congruence].
  destruct (exec_attribute _ _ _ E) as (pre0 & ip0 & fp0 & [Hat0 Hmin0] & Hi & Hg).
  assert (Hlen : length pre0 = length pre).
  { pose proof (Hmin _ _ _ Hat0). pose proof (Hmin0 _ _ _ Hat). lia. }
  destruct (attributeAt_unique _ _ _ _ _ _ _ _ Hat0 Hat Hlen) as [-> ->].
  exists m. repeat split; auto. lia.
Qed.

(** The extractor on a text with a width and a height attribute. *)
Lemma dimensionsOfContent_attributes (svg wpre wi wf hpre hi hf : jsstring) :
  firstAttribute "width" svg wpre wi wf ->
  firstAttribute "height" svg hpre hi hf ->
  dimensionsOfContent svg
  = Returned (mkDims (decimalValue wi wf) (decimalValue hi hf)).
Proof.
  intros Hw Hh.
  pose proof Hw as [(_ & _ & _ & _ & _ & _ & _ & _ & _ & _ & _ & _ & Hwn & Hwi & Hwf) _].
  pose proof Hh as [(_ & _ & _ & _ & _ & _ & _ & _ & _ & _ & _ & _ & Hhn & Hhi & Hhf) _].
  apply firstAttribute_exec in Hw, Hh.
  destruct Hw as (wm & Ew & _ & Hwg). destruct Hh as (hm & Eh & _ & Hhg).
  unfold dimensionsOfContent, widthPattern, heightPattern. rewrite Ew, Eh, Hwg, Hhg.
  rewrite !parseFloat_decimal by assumption. reflexivity.
Qed.

(** ** The value of a decimal literal *)

Lemma digits_value_from (d : jsstring) (acc : Z) :
  fold_left (fun a c => 10 * a + (Z.of_N c - 48))%Z d acc
  = (acc * 10 ^ Z.of_nat (length d) + digits_value d)%Z.
Proof.
  unfold digits_value. revert acc.
  induction d as [|x d IH]; intros acc; cbn [fold_left length].
  - cbn. lia.
  - rewrite (IH (10 * acc + (Z.of_N x - 48))%Z), (IH (10 * 0 + (Z.of_N x - 48))%Z).
    rewrite Nat2Z.inj_succ, Z.pow_succ_r by lia. ring.
Qed.

Lemma digits_value_app (a b : jsstring) :
  digits_value (a ++ b)
  = (digits_value a * 10 ^ Z.of_nat (length b) + digits_value b)%Z.
Proof.
  unfold digits_value at 1. rewrite fold_left_app. apply digits_value_from.
Qed.

Lemma digits_value_below (d : jsstring) :
  forallb is_digit d = true -> (digits_value d < 10 ^ Z.of_nat (length d))%Z.
Proof.
  induction d as [|x d IH] using rev_ind; intros Hd.
  - cbn. lia.
  - rewrite forallb_app in Hd. apply andb_prop in Hd. destruct Hd as [Hd Hx].
    cbn [forallb] in Hx. rewrite andb_true_r in Hx.
    rewrite digits_value_app, length_app. cbn [length].
    replace (Z.of_nat (length d + 1)) with (Z.succ (Z.of_nat (length d))) by lia.
    rewrite Z.pow_succ_r by lia. specialize (IH Hd).
    change (digits_value [x]) with (10 * 0 + (Z.of_N x - 48))%Z.
    unfold is_digit in Hx. apply andb_prop in Hx. destruct Hx as [_ Hx].
    apply N.leb_le in Hx. cbn [Z.of_nat Z.pow Z.pow_pos Pos.iter Pos.of_succ_nat]. lia.
Qed.

Section DecimalRounding.

Local Open Scope R_scope.

Lemma le_quotient (a b c : R) : 0 < c -> a * c <= b -> a <= b / c.
Proof.
  intros Hc H. apply Rmult_le_reg_r with c; [exact Hc|].
  replace (b / c * c) with b by (field; lra). exact H.
Qed.

Lemma quotient_le (a b c : R) : 0 < c -> b <= a * c -> b / c <= a.
Proof.
  intros Hc H. apply Rmult_le_reg_r with c; [exact Hc|].
  replace (b / c * c) with b by (field; lra). exact H.
Qed.

(** The quotient of two scaled integers, rounded. *)
Lemma div_core_rounds (m1 e1 m2 e2 : Z) :
  (0 < m1)%Z -> (0 < m2)%Z ->
  rounds_to (IZR m1 * bpow e1 / (IZR m2 * bpow e2))
    (let '(q, e, l) := SFdiv_core_binary prec emax m1 e1 m2 e2 in
     binary_round_aux prec emax false q e l).
Proof.
  intros H1 H2. unfold SFdiv_core_binary.
  set (dx := Zdigits2 m1). set (dy := Zdigits2 m2).
  set (e' := Z.min (fexp prec emax (dx + e1 - (dy + e2))) (e1 - e2)).
  set (s := (e1 - e2 - e')%Z).
  assert (Hs : (0 <= s)%Z) by (unfold s, e'; lia).
  set (m' := match s with Z.pos _ => Z.shiftl m1 s | Z0 => m1 | Z.neg _ => 0%Z end).
  assert (Hm' : m' = (m1 * 2 ^ s)%Z).
  { unfold m'. destruct s as [|p|p] eqn:Es; [cbn; lia| |lia].
    rewrite Z.shiftl_mul_pow2 by lia. reflexivity. }
  clearbody m'.
  pose proof (Z_div_mod m' m2 ltac:(lia)) as Hdm.
  destruct (Z.div_eucl m' m2) as [q r]. destruct Hdm as [Hq Hr].
  cbv beta iota.
  assert (Hpow : (0 < 2 ^ s)%Z) by (apply Z.pow_pos_nonneg; lia).
  assert (Hq0 : (0 <= q)%Z) by nia.
  pose proof (bpow_pos e1) as Hbx. pose proof (bpow_pos e2) as Hby.
  pose proof (bpow_pos e') as Hbe.
  assert (Hmy0 : 0 < IZR m2) by (apply IZR_lt; lia).
  assert (Hv : IZR m1 * bpow e1 / (IZR m2 * bpow e2)
               = (IZR q + IZR r / IZR m2) * bpow e').
  { replace e1 with (s + e' + e2)%Z at 1 by (unfold s; lia).
    rewrite !bpow_add, (bpow_IZR s) by lia.
    replace (IZR m1 * (IZR (2 ^ s) * bpow e' * bpow e2))
      with (IZR m' * bpow e' * bpow e2) by (rewrite Hm', mult_IZR; ring).
    rewrite Hq, plus_IZR, mult_IZR. field. lra. }
  rewrite Hv.
  assert (Hfrac : 0 <= IZR r / IZR m2 < 1).
  { split.
    - apply Rmult_le_pos; [apply IZR_le; lia|]. apply Rlt_le, Rinv_0_lt_compat. exact Hmy0.
    - apply Rmult_lt_reg_r with (IZR m2); [exact Hmy0|].
      unfold Rdiv. rewrite Rmult_assoc, Rinv_l, Rmult_1_r, Rmult_1_l by lra.
      apply IZR_lt. lia. }
  apply binary_round_aux_spec; [exact Hq0| |].
  - (* the quotient has enough digits *)
    pose proof (fexp_ge_emin (Zdigits2 q + e')) as Hfe.
    destruct (fexp_cases (dx + e1 - (dy + e2))) as [[Hf Hge]|[Hf Hlt]].
    + pose proof (Zdigits2_bounds m1 H1) as [Hxl Hxh].
      pose proof (Zdigits2_bounds m2 H2) as [Hyl Hyh].
      fold dx in Hxl, Hxh. fold dy in Hyl, Hyh.
      assert (Hdx : (0 < dx)%Z) by (unfold dx; destruct m1; cbn; lia).
      assert (Hdy : (0 < dy)%Z) by (unfold dy; destruct m2; cbn; lia).
      assert (Hdigits : forall k, (0 <= k)%Z -> (2 ^ k <= q)%Z -> (k < Zdigits2 q)%Z).
      { intros k Hk Hkq.
        assert (Hqpos : (0 < q)%Z).
        { assert (0 < 2 ^ k)%Z by (apply Z.pow_pos_nonneg; lia). lia. }
        pose proof (Zdigits2_bounds q Hqpos) as [_ Hqh].
        apply (Z.pow_lt_mono_r_iff 2); [lia| |lia].
        destruct q; cbn; lia. }
      assert (Hfq : (Zdigits2 q + e' - prec <= fexp prec emax (Zdigits2 q + e'))%Z)
        by (unfold fexp; lia).
      destruct (Z.le_gt_cases (dx - dy) 53) as [Hsmall|Hlarge].
      * assert (He' : e' = (dx + e1 - (dy + e2) - prec)%Z) by (unfold e', prec in *; lia).
        assert (Hsv : s = (53 + dy - dx)%Z) by (unfold s, prec in *; lia).
        assert (H52 : (2 ^ 52 <= q)%Z).
        { assert (Hbig : (2 ^ 52 * 2 ^ dy <= m')%Z).
          { rewrite Hm', <- Z.pow_add_r by lia.
            replace (52 + dy)%Z with ((dx - 1) + s)%Z by lia.
            rewrite Z.pow_add_r by lia. apply Z.mul_le_mono_nonneg_r; lia. }
          assert (Hlt : (2 ^ 52 * m2 < (q + 1) * m2)%Z) by nia.
          apply Z.mul_lt_mono_pos_r in Hlt; lia. }
        pose proof (Hdigits 52%Z ltac:(lia) H52). unfold prec in *. lia.
      * assert (He' : e' = (e1 - e2)%Z) by (unfold e', prec in *; lia).
        assert (Hsv : s = 0%Z) by (unfold s; lia).
        assert (H53 : (2 ^ 53 <= q)%Z).
        { assert (Hbig : (2 ^ 53 * 2 ^ dy <= m')%Z).
          { rewrite Hm', Hsv, <- Z.pow_add_r by lia. rewrite Z.pow_0_r, Z.mul_1_r.
            apply Z.le_trans with (2 ^ (dx - 1))%Z; [|lia].
            apply Z.pow_le_mono_r; lia. }
          assert (Hlt : (2 ^ 53 * m2 < (q + 1) * m2)%Z) by nia.
          apply Z.mul_lt_mono_pos_r in Hlt; lia. }
        pose proof (Hdigits 53%Z ltac:(lia) H53). unfold prec in *. lia.
    + assert (e' <= femin)%Z by (unfold e'; lia). lia.
  - pose proof (new_location_exact m2 r) as Hloc.
    destruct (new_location m2 r) as [|c]; cbn [located].
    + subst r. unfold Rdiv. rewrite Rmult_0_l, Rplus_0_r. reflexivity.
    + assert (0 < IZR r / IZR m2).
      { apply Rmult_lt_0_compat; [apply IZR_lt; lia|]. apply Rinv_0_lt_compat. exact Hmy0. }
      rewrite plus_IZR. split; apply Rmult_lt_compat_r; lra.
Qed.

(** [decimal] rounds the decimal number it is given. *)
Lemma decimal_rounds (p : positive) (k : nat) :
  rounds_to (IZR (Z.pos p) / IZR (10 ^ Z.of_nat k))
    (decimal false (Z.pos p) (- Z.of_nat k)).
Proof.
  unfold decimal. destruct k as [|k].
  - cbn [Z.of_nat Z.opp Z.leb Z.compare Z.pow Z.to_pos]. rewrite Pos.mul_1_r.
    replace (IZR (Z.pos p) / IZR 1) with (IZR (Z.pos p)) by (unfold Rdiv; rewrite Rinv_1; ring).
    apply ofZ_rounds.
  - destruct (Z.leb_spec 0 (- Z.of_nat (S k))) as [Hle|Hlt]; [lia|].
    rewrite Z.opp_involutive.
    assert (Hpos : (0 < 10 ^ Z.of_nat (S k))%Z) by (apply Z.pow_pos_nonneg; lia).
    pose proof (div_core_rounds (Z.pos p) 0 (10 ^ Z.of_nat (S k)) 0 ltac:(lia) Hpos) as H.
    replace (IZR (Z.pos p) * bpow 0 / (IZR (10 ^ Z.of_nat (S k)) * bpow 0))
      with (IZR (Z.pos p) / IZR (10 ^ Z.of_nat (S k))) in H
      by (unfold bpow; cbn [powerRZ]; unfold Rdiv; rewrite !Rmult_1_r; reflexivity).
    exact H.
Qed.

Lemma bpow_emax : bpow emax = IZR (2 ^ 1024).
Proof. apply bpow_IZR. unfold emax. lia. Qed.

Lemma maxDouble_value : IZR maxDouble = IZR (2 ^ 53 - 1) * bpow 971.
Proof. unfold maxDouble. rewrite mult_IZR, (bpow_IZR 971) by lia. reflexivity. Qed.

(** The sizes [parseFloat] reads from the digits [ip] and the fraction
    digits [fp]. *)
Lemma decimalValue_range (ip fp : jsstring) :
  forallb is_digit ip = true -> forallb is_digit fp = true ->
  sign_is false (decimalValue ip fp)
  /\ (digits_value (ip ++ fp) = 0%Z -> decimalValue ip fp = zero)
  /\ ((0 < digits_value (ip ++ fp))%Z -> (length fp <= 323)%nat ->
      (digits_value ip < maxDouble)%Z ->
      positive_finite (decimalValue ip fp) = true)
  /\ ((2 ^ 1024 <= digits_value ip)%Z -> decimalValue ip fp = Infinity)
  /\ ((0 < digits_value (ip ++ fp))%Z ->
      rounds_to (IZR (digits_value (ip ++ fp)) / IZR (10 ^ Z.of_nat (length fp)))
        (decimalValue ip fp)).
Proof.
  intros Hip Hfp.
  pose proof (digits_value_nonneg ip Hip) as Hi0.
  pose proof (digits_value_nonneg fp Hfp) as Hf0.
  pose proof (digits_value_below fp Hfp) as Hf1.
  pose proof (digits_value_app ip fp) as Happ.
  assert (Hten : (0 < 10 ^ Z.of_nat (length fp))%Z) by (apply Z.pow_pos_nonneg; lia).
  assert (HtenR : 0 < IZR (10 ^ Z.of_nat (length fp))) by (apply IZR_lt; exact Hten).
  unfold decimalValue.
  split; [|split; [|split; [|split]]].
  - apply decimal_sign. nia.
  - intros ->. reflexivity.
  - intros Hpos Hlen Hmax.
    destruct (digits_value (ip ++ fp)) as [|p|p] eqn:En; try lia.
    pose proof (decimal_rounds p (length fp)) as Hr.
    (* the value lies between the least positive double and the largest one *)
    assert (Hlow : IZR 1 * bpow femin <= IZR (Z.pos p) / IZR (10 ^ Z.of_nat (length fp))).
    { assert (H10 : (10 ^ Z.of_nat (length fp) <= 2 ^ 1074)%Z).
      { apply Z.le_trans with (10 ^ 323)%Z.
        - apply Z.pow_le_mono_r; lia.
        - apply Z.leb_le. vm_compute. reflexivity. }
      apply IZR_le in H10.
      pose proof (bpow_inv 1074 ltac:(lia)) as Hinv. cbn [Z.opp] in Hinv.
      pose proof (bpow_pos (-1074)) as Hb.
      change femin with (-1074)%Z.
      apply le_quotient; [exact HtenR|].
      assert (Hone : 1 <= IZR (Z.pos p)) by (apply IZR_le; lia).
      apply (Rmult_le_compat_l (bpow (-1074))) in H10; [|lra].
      rewrite Hinv in H10. lra. }
    assert (Hhigh : IZR (Z.pos p) / IZR (10 ^ Z.of_nat (length fp))
                    <= IZR (2 ^ 53 - 1) * bpow 971).
    { rewrite <- maxDouble_value.
      apply quotient_le; [exact HtenR|].
      rewrite <- mult_IZR. apply IZR_le. nia. }
    assert (Hbelow : IZR (2 ^ 53 - 1) * bpow 971 < bpow emax).
    { rewrite <- maxDouble_value, bpow_emax. apply IZR_lt.
      apply Z.ltb_lt. vm_compute. reflexivity. }
    destruct (rounds_to_above _ _ 1 femin Hr ltac:(lia) ltac:(lia) Hlow) as [Hinf|[Hpf _]].
    + destruct (rounds_to_at_most _ _ (2 ^ 53 - 1) 971 Hr ltac:(lia)
                  ltac:(unfold femin, emin, prec, emax; lia) Hbelow Hhigh)
        as [Hz|[Hpf _]].
      * rewrite Hz in Hinf. discriminate.
      * rewrite Hinf in Hpf. discriminate.
    + exact Hpf.
  - intros Hbig.
    assert (Hpow : (0 < 2 ^ 1024)%Z) by (apply Z.pow_pos_nonneg; lia).
    destruct (digits_value (ip ++ fp)) as [|p|p] eqn:En; try nia.
    pose proof (decimal_rounds p (length fp)) as Hr.
    assert (Hlow : IZR (2 ^ 53) * bpow 971 <= IZR (Z.pos p) / IZR (10 ^ Z.of_nat (length fp))).
    { rewrite (bpow_IZR 971), <- mult_IZR by lia.
      apply le_quotient; [exact HtenR|].
      rewrite <- mult_IZR. apply IZR_le.
      replace (2 ^ 53 * 2 ^ 971)%Z with (2 ^ 1024)%Z by (rewrite <- Z.pow_add_r by lia; reflexivity).
      nia. }
    destruct (rounds_to_above _ _ (2 ^ 53) 971 Hr ltac:(lia)
                ltac:(unfold femin, emin, prec, emax; lia) Hlow) as [Hinf|[Hpf Hge]].
    + exact Hinf.
    + exfalso. pose proof (B2R_below_emax _ Hpf) as Hlt.
      rewrite bpow_emax in Hlt. rewrite (bpow_IZR 971), <- mult_IZR in Hge by lia.
      replace (2 ^ 53 * 2 ^ 971)%Z with (2 ^ 1024)%Z in Hge
        by (rewrite <- Z.pow_add_r by lia; reflexivity).
      lra.
  - intros Hpos.
    destruct (digits_value (ip ++ fp)) as [|p|p] eqn:En; try lia.
    apply decimal_rounds.
Qed.

End DecimalRounding.

(** An attribute found where [exec] finds its match is the first one. *)
Lemma firstAttribute_found (name : string) (svg pre ip fp : jsstring) :
  option_map index (exec (attributePattern name) svg) = Some (length pre) ->
  attributeAt name svg pre ip fp ->
  firstAttribute name svg pre ip fp.
Proof.
  intros Hi Hat.
  destruct (exec (attributePattern name) svg) as [m|] eqn:E; [|discriminate].
  cbn [option_map] in Hi. injection Hi as Hi.
  destruct (exec_attribute _ _ _ E) as (pre0 & ip0 & fp0 & [Hat0 Hmin0] & Hi0 & _).
  split; [exact Hat|]. intros pre' ip' fp' H'. pose proof (Hmin0 _ _ _ H'). lia.
Qed.

(** The attribute pattern matches the texts that have the attribute. *)
Lemma exec_attribute_iff (name : string) (svg : jsstring) :
  is_some (exec (attributePattern name) svg) = true
  <-> exists pre ip fp, firstAttribute name svg pre ip fp.
Proof.
  split.
  - destruct (exec (attributePattern name) svg) as [m|] eqn:E; [|discriminate].
    intros _. destruct (exec_attribute _ _ _ E) as (pre & ip & fp & H & _).
    exists pre, ip, fp. exact H.
  - intros (pre & ip & fp & H). apply firstAttribute_exec in H.
    destruct H as (m & -> & _). reflexivity.
Qed.

Section AttributeSizes.

Variables world Browser Page Buffer : Type.
Variable host : Host world Browser Page Buffer.

(** C3 (amended). For a text with a width and a height attribute the
    extractor returns the size whose width is the number [parseFloat] reads
    from the digits of the first width attribute, and whose height is the
    one read from the digits of the first height attribute; the two
    patterns match exactly the texts that have these attributes.  The
    number read from digits is their decimal number rounded to a double: it
    is never [NaN] and never negative; it is [+0] when every digit is 0; it
    is positive and finite when some digit is not 0, the fraction has at
    most 323 digits and the integer part is below the largest double; it is
    [Infinity] when the integer part reaches [2^1024].  Nothing in the
    extractor checks that a size is positive or finite. *)
Theorem parseSVGDimensions_attribute_sizes (svgPath svg : jsstring)
  (s : state world Browser) (w' : world) :
  readFile host svgPath (outside s) = (Returned svg, w') ->
  (forall wpre wi wf hpre hi hf,
     firstAttribute "width" svg wpre wi wf ->
     firstAttribute "height" svg hpre hi hf ->
     parseSVGDimensions host svgPath s
     = (Returned (mkDims (decimalValue wi wf) (decimalValue hi hf)),
        mkState w' (browser s)))
  /\ (is_some (exec widthPattern svg) = true
      <-> exists pre ip fp, firstAttribute "width" svg pre ip fp)
  /\ (is_some (exec heightPattern svg) = true
      <-> exists pre ip fp, firstAttribute "height" svg pre ip fp)
  /\ (forall ip fp,
        forallb is_digit ip = true -> forallb is_digit fp = true ->
        sign_is false (decimalValue ip fp)
        /\ (digits_value (ip ++ fp) = 0%Z -> decimalValue ip fp = zero)
        /\ ((0 < digits_value (ip ++ fp))%Z -> length fp <= 323 ->
            (digits_value ip < maxDouble)%Z ->
            positive_finite (decimalValue ip fp) = true)
        /\ ((2 ^ 1024 <= digits_value ip)%Z -> decimalValue ip fp = Infinity)
        /\ ((0 < digits_value (ip ++ fp))%Z ->
            rounds_to
              (IZR (digits_value (ip ++ fp)) / IZR (10 ^ Z.of_nat (length fp)))%R
              (decimalValue ip fp))).
Proof.
  intros Hread. split; [|split; [|split]].
  - intros wpre wi wf hpre hi hf Hw Hh.
    unfold parseSVGDimensions, bind, io, pure. rewrite Hread.
    rewrite (dimensionsOfContent_attributes _ _ _ _ _ _ _ Hw Hh). reflexivity.
  - apply exec_attribute_iff.
  - apply exec_attribute_iff.
  - apply decimalValue_range.
Qed.

End AttributeSizes.

(** On [<svg width="100" height="50.5px">] the extractor returns 100 x 50.5,
    and a width of 1 followed by 309 zeros is read as [Infinity]. *)
Lemma parseSVGDimensions_attribute_sizes_witness :
  parseSVGDimensions textHost (lit "icon.svg")
    (mkState (svgWithSize "100" "50.5px") None)
  = (Returned (mkDims (decimalValue (lit "100") [])
                      (decimalValue (lit "50") (lit "5"))),
     mkState (svgWithSize "100" "50.5px") None)
  /\ decimalValue (lit "100") [] = ofZ 100
  /\ decimalValue (lit "50") (lit "5") = dyadic 101 (-1)
  /\ decimalValue (49%N :: repeat 48%N 309) [] = Infinity.
Proof.
  pose proof (parseSVGDimensions_attribute_sizes _ _ _ _ textHost (lit "icon.svg")
                (svgWithSize "100" "50.5px")
                (mkState (svgWithSize "100" "50.5px") None)
                (svgWithSize "100" "50.5px") eq_refl) as (Hsize & _ & _ & Hvalue).
  split; [|split; [|split]].
  - apply (Hsize (lit "<svg") (lit "100") [] (lit "<svg width=" ++ [34%N] ++ lit "100" ++ [34%N])
             (lit "50") (lit "5")).
    + apply firstAttribute_found; [vm_compute; reflexivity|].
      exists 32%N, (lit "width"), 34%N, [], 34%N,
        (lit " height=" ++ [34%N] ++ lit "50.5px" ++ [34%N] ++ lit ">").
      repeat split; try reflexivity. discriminate.
    + apply firstAttribute_found; [vm_compute; reflexivity|].
      exists 32%N, (lit "height"), 34%N, (lit "px"), 34%N, (lit ">").
      repeat split; try reflexivity. discriminate.
  - vm_compute. reflexivity.
  - vm_compute. reflexivity.
  - apply (proj1 (proj2 (proj2 (proj2
             (Hvalue (49%N :: repeat 48%N 309) [] eq_refl eq_refl))))).
    apply Z.leb_le. vm_compute. reflexivity.
Defined.
